(** * NEAT for Connect 4: the engine's interface and its two drivers

    The repository ships two pygame drivers, [main.py] (v1.5.1) and the
    older combined driver [connect4/connect4.py] (v1.5).  Both steer a
    NEAT engine (package [neat]), a game (package [connect4]) and helper
    functions (package [mattslib]) that live outside the two files.

    Definitions:
    - [Neat]: the engine, with its data model, persistence codec,
      step-wise population controller and evaluator;
    - [Py]: the Python values the drivers rely on;
    - [Game]: what the drivers read from the game object, and
      [neatMove];
    - [Driver]: the globals of a driver, its control flow and the log
      of the calls it makes;
    - [Connect4Driver], [MainDriver]: the two drivers;
    - [Example]: a small game and engine to run them on;
    - [Screens]: the set-up of both drivers and the options screen;
    - [Frames]: what a piece of a driver keeps, reads, leaves and
      raises;
    - [Scenes]: states of the drivers to run them on.

    Facts:
    - [PersistenceFacts], [EngineFacts], [EvaluatorFacts]: the engine;
    - [TraceFacts], [MainLoopFacts], [ScoringFacts], [DictFacts],
      [NeatMoveFacts], [RestartFacts]: the drivers;
    - [C1], [C2], [C8], [C10]: the statements about the main loops,
      the scoring and the set-up;
    - [FrameFacts], [SpeedShowFacts], [TurnFacts], [ClockFacts],
      [DeferredScoring], [LateScoring], [MainScoring], [SidesFacts],
      [WaitingFacts], [NeatMoveFailures], [ErrorFacts], [ExitFacts],
      [NeatTurnFacts], [KeyFacts]: one iteration of the main loops,
      piece by piece;
    - [SetupFacts], [OptionsFacts], [PanelFacts]: the set-up, the
      options screen and the information panel. *)

From Stdlib Require Import ZArith QArith Qcanon List String Ascii Bool Lia.
From Stdlib Require Import DecimalString.
From stdpp Require Import gmap strings.
Import ListNotations.

Local Open Scope string_scope.
Local Open Scope Z_scope.
Local Open Scope list_scope.

(** ** Errors and results *)

(** The error taxonomy of the engine, and the Python exceptions the
    drivers can meet: [KeyError] on a missing dictionary key,
    [IndexError] on a bad index or on [random.choice] of an empty list,
    [AttributeError] on a method call on [None], [ZeroDivisionError]. *)
Inductive Error : Type :=
| InvalidInputSize
| CorruptSaveData
| MissingSaveFile
| IndexError
| KeyError
| AttributeError
| ZeroDivisionError.

Definition result (A : Type) : Type := (Error + A)%type.

Definition ok {A} (a : A) : result A := inr a.
Definition raise {A} (e : Error) : result A := inl e.

Definition rbind {A B} (r : result A) (k : A -> result B) : result B :=
  match r with
  | inl e => inl e
  | inr a => k a
  end.

Declare Scope result_scope.
Delimit Scope result_scope with result.
Notation "'try' x ':=' c1 'in' c2" := (rbind c1 (fun x => c2))
  (at level 10, x name, c1 at level 100, c2 at level 200) : result_scope.

Definition is_ok {A} (r : result A) : bool :=
  match r with inr _ => true | inl _ => false end.

Module Neat.

(** ** Data model *)

Inductive layer_type : Type := Input | Hidden | Output.

Record Node : Type := mkNode {
  node_id : nat;
  node_layer : layer_type;
  depth : nat
}.

Record Connection : Type := mkConnection {
  input_node_id : nat;
  output_node_id : nat;
  weight : Qc;
  enabled : bool;
  innovation_id : nat
}.

Record Genome : Type := mkGenome {
  nodes : list Node;
  connections : list Connection;
  fitness : Qc
}.

Record Species : Type := mkSpecies {
  representative : Genome;
  members : list Genome;
  stagnation_count : nat
}.

Record Population : Type := mkPopulation {
  species : list Species;
  generation : nat;
  current_species : nat;
  current_genome : nat;
  best_genome : option Genome;
  innovation : nat
}.

(** What a save file holds: a whole population or a single genome. *)
Inductive Saved : Type :=
| SavedPopulation (p : Population)
| SavedGenome (g : Genome).

(** The disk: file path to file contents, a file being a sequence of
    integer fields. *)
Abbreviation Disk := (gmap string (list Z)).

(** ** Persistence codec *)

(** Modelled from the spec: [neat.NEAT.save] and [neat.NEAT.load] are
    not among the sources.  The layout below stores exactly the fields
    the spec requires of a save file: node list (id, type, depth),
    connection list (input id, output id, weight, enabled, innovation
    id), per-genome fitness, species membership, generation counter and
    global innovation counter.  Lists are length-prefixed; a rational
    in lowest terms is its numerator followed by its positive denominator. *)
Definition e_nat (n : nat) : list Z := [Z.of_nat n].

Definition e_bool (b : bool) : list Z := [if b then 1 else 0].

Definition e_Qc (q : Qc) : list Z := [Qnum (this q); Z.pos (Qden (this q))].

Definition e_layer (t : layer_type) : list Z :=
  match t with
  | Input => [0]
  | Hidden => [1]
  | Output => [2]
  end.

Definition e_list {A} (e : A -> list Z) (l : list A) : list Z :=
  Z.of_nat (List.length l) :: List.concat (List.map e l).

Definition e_option {A} (e : A -> list Z) (o : option A) : list Z :=
  match o with
  | None => [0]
  | Some a => 1 :: e a
  end.

Definition e_node (n : Node) : list Z :=
  e_nat (node_id n) ++ e_layer (node_layer n) ++ e_nat (depth n).

Definition e_connection (c : Connection) : list Z :=
  e_nat (input_node_id c) ++ e_nat (output_node_id c) ++ e_Qc (weight c)
  ++ e_bool (enabled c) ++ e_nat (innovation_id c).

Definition e_genome (g : Genome) : list Z :=
  e_list e_node (nodes g) ++ e_list e_connection (connections g)
  ++ e_Qc (fitness g).

Definition e_species (s : Species) : list Z :=
  e_genome (representative s) ++ e_list e_genome (members s)
  ++ e_nat (stagnation_count s).

Definition e_population (p : Population) : list Z :=
  e_list e_species (species p) ++ e_nat (generation p)
  ++ e_nat (current_species p) ++ e_nat (current_genome p)
  ++ e_option e_genome (best_genome p) ++ e_nat (innovation p).

Definition e_saved (s : Saved) : list Z :=
  match s with
  | SavedPopulation p => 0 :: e_population p
  | SavedGenome g => 1 :: e_genome g
  end.

(** Decoding is a parser over the remaining fields. *)
Definition Parser (A : Type) : Type := list Z -> option (A * list Z).

Definition p_ret {A} (a : A) : Parser A := fun ts => Some (a, ts).

Definition p_fail {A} : Parser A := fun _ => None.

Definition p_bind {A B} (p : Parser A) (k : A -> Parser B) : Parser B :=
  fun ts =>
    match p ts with
    | Some (a, ts') => k a ts'
    | None => None
    end.

Declare Scope parser_scope.
Delimit Scope parser_scope with parser.
Notation "'read' x ':=' c1 'in' c2" := (p_bind c1 (fun x => c2))
  (at level 10, x name, c1 at level 100, c2 at level 200) : parser_scope.
Local Open Scope parser_scope.

Definition p_field : Parser Z :=
  fun ts =>
    match ts with
    | [] => None
    | t :: ts' => Some (t, ts')
    end.

Definition p_nat : Parser nat :=
  read z := p_field in
  if 0 <=? z then p_ret (Z.to_nat z) else p_fail.

Definition p_bool : Parser bool :=
  read z := p_field in
  if z =? 0 then p_ret false
  else if z =? 1 then p_ret true
  else p_fail.

Definition p_Qc : Parser Qc :=
  read n := p_field in
  read d := p_field in
  match d with
  | Z.pos d' => p_ret (Q2Qc (Qmake n d'))
  | _ => p_fail
  end.

Definition p_layer : Parser layer_type :=
  read z := p_field in
  if z =? 0 then p_ret Input
  else if z =? 1 then p_ret Hidden
  else if z =? 2 then p_ret Output
  else p_fail.

Fixpoint p_repeat {A} (p : Parser A) (n : nat) : Parser (list A) :=
  match n with
  | O => p_ret []
  | S n' =>
      read a := p in
      read l := p_repeat p n' in
      p_ret (a :: l)
  end.

Definition p_list {A} (p : Parser A) : Parser (list A) :=
  read n := p_nat in
  p_repeat p n.

Definition p_option {A} (p : Parser A) : Parser (option A) :=
  read z := p_field in
  if z =? 0 then p_ret None
  else if z =? 1 then (read a := p in p_ret (Some a))
  else p_fail.

Definition p_node : Parser Node :=
  read i := p_nat in
  read t := p_layer in
  read d := p_nat in
  p_ret (mkNode i t d).

Definition p_connection : Parser Connection :=
  read i := p_nat in
  read o := p_nat in
  read w := p_Qc in
  read en := p_bool in
  read inn := p_nat in
  p_ret (mkConnection i o w en inn).

Definition p_genome : Parser Genome :=
  read ns := p_list p_node in
  read cs := p_list p_connection in
  read f := p_Qc in
  p_ret (mkGenome ns cs f).

Definition p_species : Parser Species :=
  read r := p_genome in
  read ms := p_list p_genome in
  read st := p_nat in
  p_ret (mkSpecies r ms st).

Definition p_population : Parser Population :=
  read ss := p_list p_species in
  read gen := p_nat in
  read cs := p_nat in
  read cg := p_nat in
  read best := p_option p_genome in
  read inn := p_nat in
  p_ret (mkPopulation ss gen cs cg best inn).

Definition p_saved : Parser Saved :=
  read tag := p_field in
  if tag =? 0 then (read p := p_population in p_ret (SavedPopulation p))
  else if tag =? 1 then (read g := p_genome in p_ret (SavedGenome g))
  else p_fail.

(** A parser [p] reads back what [e] wrote, whatever follows. *)
Definition reads_back {A} (p : Parser A) (e : A -> list Z) : Prop :=
  forall a rest, p (e a ++ rest) = Some (a, rest).

(** [save] writes the encoded value at [path], replacing any earlier
    file; [load] fails on a missing file and on contents that do not
    decode completely. *)
Definition save (s : Saved) (path : string) (d : Disk) : Disk :=
  <[path := e_saved s]> d.

Definition load (path : string) (d : Disk) : result Saved :=
  match d !! path with
  | None => raise MissingSaveFile
  | Some ts =>
      match p_saved ts with
      | Some (s, []) => ok s
      | _ => raise CorruptSaveData
      end
  end.

Definition load_population (path : string) (d : Disk) : result Population :=
  match load path d with
  | inl e => inl e
  | inr (SavedPopulation p) => ok p
  | inr (SavedGenome _) => raise CorruptSaveData
  end.

(** Modelled from the spec: [neat.NEAT.load(name, directory)] reads the
    file [name] with the extension [.neat] inside [directory]. *)
Definition backslash : string := String (ascii_of_nat 92) EmptyString.

Definition neat_file (directory name : string) : string :=
  (directory ++ backslash ++ name ++ ".neat")%string.

Definition load_named (name directory : string) (d : Disk)
    : result Population :=
  load_population (neat_file directory name) d.

(** ** Configuration *)

(** Modelled from the spec: the configured constants of [neat.NEAT] and
    its randomised parts are not among the sources.  [max_generation]
    and [target_fitness] are the termination conditions of
    [shouldEvolve]; [fully_connected] and [initial_weight] fix the
    initial wiring and the weights drawn for genome [k] on the
    connection from [i] to [o]; [activation] is the nonlinearity;
    [reproduce] is the end-of-generation pipeline (fitness sharing,
    culling of stagnant species, offspring allocation, reproduction,
    re-speciation), which yields the new species and the innovation
    counter after it. *)
Record Config : Type := mkConfig {
  max_generation : nat;
  target_fitness : Qc;
  fully_connected : bool;
  initial_weight : nat -> nat -> nat -> Qc;
  activation : Qc -> Qc;
  reproduce : Population -> list Species * nat
}.

Section Engine.

Variable cfg : Config.

(** ** Population controller *)

(** Modelled from the spec: [neat.NEAT.generate].  It builds
    [population_size] minimal genomes (Input and Output nodes only),
    puts them in one initial species and starts at generation 0. *)
Definition minimal_nodes (inputs outputs : nat) : list Node :=
  List.map (fun i => mkNode i Input 0) (seq 0 inputs)
  ++ List.map (fun o => mkNode o Output 1) (seq inputs outputs).

Definition minimal_connections (k inputs outputs : nat) : list Connection :=
  if fully_connected cfg then
    List.flat_map
      (fun i =>
         List.map
           (fun o =>
              mkConnection i o (initial_weight cfg k i o) true
                (i * outputs + (o - inputs))%nat)
           (seq inputs outputs))
      (seq 0 inputs)
  else [].

Definition minimal_genome (k inputs outputs : nat) : Genome :=
  mkGenome (minimal_nodes inputs outputs)
    (minimal_connections k inputs outputs) 0%Qc.

Definition generate (inputs outputs population_size : nat) : Population :=
  let gs :=
    List.map (fun k => minimal_genome k inputs outputs)
      (seq 0 population_size) in
  mkPopulation
    (match gs with
     | [] => []
     | g :: _ => [mkSpecies g gs 0]
     end)
    0 0 0 None
    (if fully_connected cfg then (inputs * outputs)%nat else 0%nat).

(** Modelled from the spec: [neat.NEAT.shouldEvolve].  False once the
    maximum generation count is reached or the best fitness is at least
    the configured target. *)
Definition target_reached (p : Population) : bool :=
  match best_genome p with
  | Some b => bool_decide (target_fitness cfg <= fitness b)%Qc
  | None => false
  end.

Definition shouldEvolve (p : Population) : bool :=
  negb ((max_generation cfg <=? generation p)%nat || target_reached p).

Definition genome_at (p : Population) (s g : nat) : option Genome :=
  match species p !! s with
  | Some sp => members sp !! g
  | None => None
  end.

(** Modelled from the spec: [neat.NEAT.getGenome].  A method call on
    the engine object yields its result and the object's state after
    the call.  The genome at [(current_species, current_genome)] is
    returned and the state is not advanced.  The call answers whatever
    [shouldEvolve] says: [connect4.py] requests the genome first and
    consults [shouldEvolve] afterwards. *)
Definition getGenome (p : Population) : result Genome * Population :=
  match genome_at p (current_species p) (current_genome p) with
  | Some g => (ok g, p)
  | None => (raise IndexError, p)
  end.

(** [n] consecutive calls of [getGenome], with their results. *)
Fixpoint getGenome_repeat (n : nat) (p : Population)
    : list (result Genome) * Population :=
  match n with
  | O => ([], p)
  | S n' =>
      let '(r, p1) := getGenome p in
      let '(rs, p2) := getGenome_repeat n' p1 in
      (r :: rs, p2)
  end.

(** The object [getGenome] hands out is the population's own member:
    the drivers' [current_genome.fitness = f] therefore writes into the
    population, at the position the genome was taken from. *)
Definition set_fitness (f : Qc) (g : Genome) : Genome :=
  mkGenome (nodes g) (connections g) f.

Definition set_members (ms : list Genome) (s : Species) : Species :=
  mkSpecies (representative s) ms (stagnation_count s).

Definition set_species (ss : list Species) (p : Population) : Population :=
  mkPopulation ss (generation p) (current_species p) (current_genome p)
    (best_genome p) (innovation p).

Definition assign_fitness (f : Qc) (p : Population) : Population :=
  set_species
    (alter
       (fun s => set_members (alter (set_fitness f) (current_genome p) (members s)) s)
       (current_species p) (species p))
    p.

(** Modelled from the spec: [neat.NEAT.nextGenome].  The just-evaluated
    genome replaces [best_genome] if it improves on it; then the
    position advances within the species, then across species, and at
    the end of the last species the generation is reproduced, the
    counter incremented, a checkpoint saved under [checkpoint_name] and
    the position reset. *)
Definition record_best (p : Population) : Population :=
  match genome_at p (current_species p) (current_genome p) with
  | Some g =>
      let improves :=
        match best_genome p with
        | Some b => bool_decide (fitness b < fitness g)%Qc
        | None => true
        end in
      if improves then
        mkPopulation (species p) (generation p) (current_species p)
          (current_genome p) (Some g) (innovation p)
      else p
  | None => p
  end.

Definition set_position (s g : nat) (p : Population) : Population :=
  mkPopulation (species p) (generation p) s g (best_genome p) (innovation p).

Definition end_of_generation (checkpoint_name : string) (p : Population)
    (d : Disk) : Population * Disk :=
  let '(ss, inn) := reproduce cfg p in
  let p' :=
    mkPopulation ss (S (generation p)) (current_species p)
      (current_genome p) (best_genome p) inn in
  (set_position 0 0 p', save (SavedPopulation p') checkpoint_name d).

Definition nextGenome (checkpoint_name : string) (p : Population)
    (d : Disk) : Population * Disk :=
  let p1 := record_best p in
  match species p1 !! current_species p1 with
  | Some s =>
      if (S (current_genome p1) <? List.length (members s))%nat then
        (set_position (current_species p1) (S (current_genome p1)) p1, d)
      else if (S (current_species p1) <? List.length (species p1))%nat then
        (set_position (S (current_species p1)) 0 p1, d)
      else end_of_generation checkpoint_name p1 d
  | None => end_of_generation checkpoint_name p1 d
  end.

(** A driver evaluating one genome after the other: it requests the
    genome, assigns the next fitness of [fits] to it and calls
    [nextGenome]. *)
Fixpoint evaluate_genomes (checkpoint_name : string) (fits : list Qc)
    (p : Population) (d : Disk) : result (Population * Disk) :=
  match fits with
  | [] => ok (p, d)
  | f :: rest =>
      let '(r, p1) := getGenome p in
      match r with
      | inl e => raise e
      | inr _ =>
          let '(p2, d2) := nextGenome checkpoint_name (assign_fitness f p1) d in
          evaluate_genomes checkpoint_name rest p2 d2
      end
  end.

(** The fitness values [10 - index] for the indices 0 to 9. *)
Definition scenario_fitness : list Qc :=
  List.map (fun index => Qc_of_Z (10 - Z.of_nat index)) (seq 0 10).

(** Modelled from the spec: [neat.NEAT.getInfo].  A snapshot dictionary
    with the keys [generation], [current_species], [current_genome] and
    [fitness], the last being the fitness of the genome at the current
    position (zero when there is none). *)
Inductive InfoValue : Type :=
| InfoInt (n : nat)
| InfoReal (q : Qc).

Definition current_fitness (p : Population) : Qc :=
  match genome_at p (current_species p) (current_genome p) with
  | Some g => fitness g
  | None => 0%Qc
  end.

Definition getInfo (p : Population) : gmap string InfoValue * Population :=
  (<["generation" := InfoInt (generation p)]>
     (<["current_species" := InfoInt (current_species p)]>
        (<["current_genome" := InfoInt (current_genome p)]>
           (<["fitness" := InfoReal (current_fitness p)]> ∅))),
   p).

(** ** Evaluator *)

(** Modelled from the spec: [neat.Genome.forward] and the depth
    ordering it relies on.  Input nodes have depth 0, every other node
    one more than the deepest source of its enabled incoming
    connections; the recursion is cut off after as many steps as the
    genome has nodes, which is the guard against unresolved cycles. *)
Definition find_node (g : Genome) (id : nat) : option Node :=
  List.find (fun n => (node_id n =? id)%nat) (nodes g).

Definition incoming (g : Genome) (id : nat) : list Connection :=
  List.filter (fun c => enabled c && (output_node_id c =? id)%nat)
    (connections g).

Definition is_input (t : layer_type) : bool :=
  match t with Input => true | _ => false end.

Definition is_output (t : layer_type) : bool :=
  match t with Output => true | _ => false end.

Fixpoint node_depth (fuel : nat) (g : Genome) (id : nat) : nat :=
  match fuel with
  | O => 0
  | S fuel' =>
      match find_node g id with
      | Some n =>
          if is_input (node_layer n) then 0%nat
          else
            S (List.list_max
                 (List.map (fun c => node_depth fuel' g (input_node_id c))
                    (incoming g id)))
      | None => 0%nat
      end
  end.

Definition depth_of (g : Genome) (n : Node) : nat :=
  node_depth (List.length (nodes g)) g (node_id n).

Definition max_depth (g : Genome) : nat :=
  List.list_max (List.map (depth_of g) (nodes g)).

Definition input_nodes (g : Genome) : list Node :=
  List.filter (fun n => is_input (node_layer n)) (nodes g).

Definition output_nodes (g : Genome) : list Node :=
  List.filter (fun n => is_output (node_layer n)) (nodes g).

(** Activations so far, by node id. *)
Definition assign_inputs (g : Genome) (inputs : list Qc) : gmap nat Qc :=
  list_to_map (zip (List.map node_id (input_nodes g)) inputs).

Definition weighted_sum (g : Genome) (vals : gmap nat Qc) (id : nat) : Qc :=
  List.fold_left
    (fun acc c => (acc + weight c * default 0 (vals !! input_node_id c))%Qc)
    (incoming g id) 0%Qc.

Definition evaluate_node (g : Genome) (vals : gmap nat Qc) (n : Node)
    : gmap nat Qc :=
  if is_input (node_layer n) then vals
  else <[node_id n := activation cfg (weighted_sum g vals (node_id n))]> vals.

Definition evaluate_layer (g : Genome) (vals : gmap nat Qc) (d : nat)
    : gmap nat Qc :=
  List.fold_left (evaluate_node g)
    (List.filter (fun n => (depth_of g n =? d)%nat) (nodes g)) vals.

Definition evaluate (g : Genome) (vals : gmap nat Qc) : gmap nat Qc :=
  List.fold_left (evaluate_layer g) (seq 0 (S (max_depth g))) vals.

Definition forward (g : Genome) (inputs : list Qc) : result (list Qc) :=
  if (List.length inputs =? List.length (input_nodes g))%nat then
    let vals := evaluate g (assign_inputs g inputs) in
    ok (List.map (fun n => default 0%Qc (vals !! node_id n)) (output_nodes g))
  else raise InvalidInputSize.

End Engine.

End Neat.

(** ** Python values the drivers rely on *)

Module Py.

(** A [dict]: keys in insertion order, at most one entry per key.
    Assigning to an existing key keeps its place. *)
Section Dict.

Context {K V : Type} `{EqDecision K}.

Definition dict : Type := list (K * V).

Fixpoint dict_get (k : K) (d : dict) : option V :=
  match d with
  | [] => None
  | (k', v) :: d' => if decide (k = k') then Some v else dict_get k d'
  end.

Fixpoint dict_set (k : K) (v : V) (d : dict) : dict :=
  match d with
  | [] => [(k, v)]
  | (k', v') :: d' =>
      if decide (k = k') then (k', v) :: d' else (k', v') :: dict_set k v d'
  end.

Definition dict_keys (d : dict) : list K := List.map fst d.

(** [d[k]], a [KeyError] when the key is missing. *)
Definition dict_item (k : K) (d : dict) : result V :=
  match dict_get k d with
  | Some v => ok v
  | None => raise KeyError
  end.

End Dict.

Arguments dict : clear implicits.

(** [l[i]] with Python's negative indices. *)
Definition list_item {A} (l : list A) (i : Z) : result A :=
  let n := Z.of_nat (List.length l) in
  let j := if i <? 0 then i + n else i in
  if (0 <=? j) && (j <? n) then
    match l !! Z.to_nat j with
    | Some a => ok a
    | None => raise IndexError
    end
  else raise IndexError.

(** [sum(l)]: left to right from zero. *)
Definition sum (l : list Qc) : Qc := List.fold_left Qcplus l 0%Qc.

(** [random.choice(l)], the random source being the draw [rnd]. *)
Definition random_choice {A} (rnd : nat) (l : list A) : result A :=
  match l !! (rnd mod List.length l)%nat with
  | Some a => ok a
  | None => raise IndexError
  end.

(** [str(i)] for an integer. *)
Definition str (i : Z) : string := NilZero.string_of_int (Z.to_int i).

End Py.

(** ** The game object, as the drivers see it *)

Module Game.

Import Neat Py.

(** A possible move is the tuple [getPossibleMove] returns; its first
    component is compared with [INVALID_MOVE], its second is the
    column. *)
Definition Move : Type := (Z * Z)%type.

(** The attributes of the [Connect4] object the drivers read or write.
    [player_ids] belongs to the class [connect4.py] drives, [PLAYERS]
    (player number to the [id] of its entry) to the one [main.py]
    drives. *)
Record Connect4 (Board : Type) : Type := mkConnect4 {
  board : Board;
  current_player : Z;
  opponent : Z;
  turn : Z;
  match_ : bool;
  player_ids : list Z;
  PLAYERS : gmap Z Z
}.

Arguments mkConnect4 {Board}.
Arguments board {Board}.
Arguments current_player {Board}.
Arguments opponent {Board}.
Arguments turn {Board}.
Arguments match_ {Board}.
Arguments player_ids {Board}.
Arguments PLAYERS {Board}.

(** The constants and methods of [Connect4]; the class is not among
    the sources, so the drivers are embedded over any implementation.
    [connect4_main] plays a move and returns the match result ([None]
    while undecided); [getPieceSlices] yields, per direction pair and
    direction, a slice of the board or [None]. *)
Record Ops (Board : Type) : Type := mkOps {
  COLUMNS : nat;
  INVALID_MOVE : Z;
  getPossibleMove : Connect4 Board -> nat -> Move;
  getPieceSlices : Connect4 Board -> Move -> list (list (option (list Qc)));
  connect4_main : Connect4 Board -> Z -> Connect4 Board * option Z;
  connect4_reset : Connect4 Board -> Connect4 Board;
  fitnessEvaluation : Connect4 Board -> list Qc
}.

Arguments mkOps {Board}.
Arguments COLUMNS {Board}.
Arguments INVALID_MOVE {Board}.
Arguments getPossibleMove {Board}.
Arguments getPieceSlices {Board}.
Arguments connect4_main {Board}.
Arguments connect4_reset {Board}.
Arguments fitnessEvaluation {Board}.

Definition set_player_ids {Board} (ids : list Z) (c4 : Connect4 Board)
    : Connect4 Board :=
  mkConnect4 (board c4) (current_player c4) (opponent c4) (turn c4)
    (match_ c4) ids (PLAYERS c4).

(** ** [neatMove], the same function in both drivers *)

Section NeatMove.

Context {Board : Type}.
Variable cfg : Config.
Variable G : Ops Board.

(** The [genome] argument is whatever the driver holds: a genome, or
    [None] when it read an unset [best_genome].

    First loop: the dictionary of possible moves, each at score 0. *)
Definition possible_moves (c4 : Connect4 Board) : dict Move Qc :=
  List.fold_left
    (fun d i =>
       let possible_move := getPossibleMove G c4 i in
       if bool_decide (possible_move.1 <> INVALID_MOVE G)
       then dict_set possible_move 0%Qc d
       else d)
    (seq 0 (COLUMNS G)) [].

(** Second loop, innermost part: every slice that is not [None] is fed
    to the genome and the sum of its outputs added to the move's
    score. *)
Definition genome_forward (genome : option Genome) (inputs : list Qc)
    : result (list Qc) :=
  match genome with
  | Some g => forward cfg g inputs
  | None => raise AttributeError
  end.

Fixpoint score_slices (genome : option Genome) (slices : list (option (list Qc)))
    (possible_move : Move) (d : dict Move Qc) : result (dict Move Qc) :=
  match slices with
  | [] => ok d
  | None :: rest => score_slices genome rest possible_move d
  | Some inputs :: rest =>
      (try outputs := genome_forward genome inputs in
       try score := dict_item possible_move d in
       score_slices genome rest possible_move
         (dict_set possible_move (score + sum outputs)%Qc d))%result
  end.

(** The score a move collects from its slices, starting from [score]. *)
Fixpoint summed_outputs (genome : option Genome)
    (slices : list (option (list Qc))) (score : Qc) : result Qc :=
  match slices with
  | [] => ok score
  | None :: rest => summed_outputs genome rest score
  | Some inputs :: rest =>
      (try outputs := genome_forward genome inputs in
       summed_outputs genome rest (score + sum outputs)%Qc)%result
  end.

(** The moves the first loop keeps: those of a column below [COLUMNS]
    whose first component is not [INVALID_MOVE]. *)
Definition valid_move (c4 : Connect4 Board) (m : Move) : Prop :=
  exists i : nat,
    (i < COLUMNS G)%nat /\ getPossibleMove G c4 i = m /\ m.1 <> INVALID_MOVE G.

(** The summed forward outputs of a move (zero where a call fails). *)
Definition move_score (genome : option Genome) (c4 : Connect4 Board)
    (m : Move) : Qc :=
  match summed_outputs genome (List.concat (getPieceSlices G c4 m)) 0%Qc with
  | inr v => v
  | inl _ => 0%Qc
  end.

(** No valid move scores higher than [m]. *)
Definition best_move (genome : option Genome) (c4 : Connect4 Board)
    (m : Move) : Prop :=
  forall m', valid_move c4 m' ->
             (move_score genome c4 m' <= move_score genome c4 m)%Qc.

Fixpoint score_moves (genome : option Genome) (c4 : Connect4 Board)
    (keys : list Move) (d : dict Move Qc) : result (dict Move Qc) :=
  match keys with
  | [] => ok d
  | possible_move :: rest =>
      (try d' :=
         score_slices genome (List.concat (getPieceSlices G c4 possible_move))
           possible_move d in
       score_moves genome c4 rest d')%result
  end.

(** Modelled from the spec: [mattslib.dict.combineByValues] and
    [mattslib.list.findMaxMin] are not among the sources; together with
    [random.choice] they "choose randomly among best moves".
    [combineByValues] turns the dictionary around, from each value to
    the list of keys that carry it; [findMaxMin] reports the largest
    entry of a list, and has none to report for an empty list. *)
Definition combineByValues (d : dict Move Qc) : dict Qc (list Move) :=
  List.fold_left
    (fun acc kv =>
       dict_set kv.2 (default [] (dict_get kv.2 acc) ++ [kv.1]) acc)
    d [].

Definition Qc_max (a b : Qc) : Qc := if bool_decide (a <= b)%Qc then b else a.

Definition findMaxMin_max (l : list Qc) : option Qc :=
  match l with
  | [] => None
  | x :: xs => Some (List.fold_left Qc_max xs x)
  end.

Definition neatMove (genome : option Genome) (c4 : Connect4 Board) (rnd : nat)
    : result Z :=
  (try scores :=
     score_moves genome c4 (dict_keys (possible_moves c4)) (possible_moves c4) in
   let sorted_moves := combineByValues scores in
   match findMaxMin_max (dict_keys sorted_moves) with
   | None => raise KeyError
   | Some max_value =>
       try best := dict_item max_value sorted_moves in
       try move := random_choice rnd best in
       ok move.2
   end)%result.

End NeatMove.

End Game.

(** ** Driver state and control flow *)

Module Driver.

Import Neat Py Game.

(** The calls a driver makes on engine and game, in the order made.
    The log is kept beside the state to speak about the order of
    calls; the drivers never read it. *)
Inductive Call : Type :=
| CallShouldEvolve (player : Z) (answer : bool)
| CallGetGenome (player : Z)
| CallSetFitness (player : Z) (f : Qc)
| CallNextGenome (player : Z) (name : string)
| CallGetInfo (player : Z)
| CallBestGenome (player : Z)
| CallPlay (move : Z)
| CallLoad (path : string)
| CallGenerate (inputs outputs population : nat)
| CallSave (path : string)
| CallClose.

#[global] Instance Call_eq_dec : EqDecision Call.
Proof. solve_decision. Defined.

(** The [Info] panel: its four data texts, by key. *)
Record Info : Type := mkInfo {
  active : bool;
  data : gmap string InfoValue
}.

(** The module-level globals of a driver, with the disk. *)
Record State (Board : Type) : Type := mkState {
  players : gmap Z string;
  neats : gmap Z (option Population);
  connect4 : Connect4 Board;
  info : Info;
  show_every : string;
  game_speed : Z;
  evolution_speed : Z;
  max_fps : Z;
  frame_count : Z;
  disk : Disk;
  calls : list Call
}.

Arguments mkState {Board}.
Arguments players {Board}.
Arguments neats {Board}.
Arguments connect4 {Board}.
Arguments info {Board}.
Arguments show_every {Board}.
Arguments game_speed {Board}.
Arguments evolution_speed {Board}.
Arguments max_fps {Board}.
Arguments frame_count {Board}.
Arguments disk {Board}.
Arguments calls {Board}.

(** A piece of driver code runs to its end, leaves the process through
    [close()], or stops at an exception. *)
Inductive Run (S A : Type) : Type :=
| Return (a : A) (s : S)
| Exit (s : S)
| Raise (e : Error) (s : S).

Arguments Return {S A}.
Arguments Exit {S A}.
Arguments Raise {S A}.

Definition Drv (Board A : Type) : Type := State Board -> Run (State Board) A.

Definition ret {Board A} (a : A) : Drv Board A := fun s => Return a s.

Definition bind {Board A B} (m : Drv Board A) (k : A -> Drv Board B)
    : Drv Board B :=
  fun s =>
    match m s with
    | Return a s' => k a s'
    | Exit s' => Exit s'
    | Raise e s' => Raise e s'
    end.

Declare Scope drv_scope.
Delimit Scope drv_scope with drv.
Notation "'do' x ':=' c1 'in' c2" := (bind c1 (fun x => c2))
  (at level 10, x name, c1 at level 100, c2 at level 200) : drv_scope.
Notation "c1 ';;' c2" := (bind c1 (fun _ => c2))
  (at level 100, c2 at level 200, right associativity) : drv_scope.
Local Open Scope drv_scope.

Definition throw {Board A} (e : Error) : Drv Board A := fun s => Raise e s.

Definition exit {Board A} : Drv Board A := fun s => Exit s.

Definition lift {Board A} (r : result A) : Drv Board A :=
  match r with
  | inl e => throw e
  | inr a => ret a
  end.

Definition get {Board} : Drv Board (State Board) := fun s => Return s s.

Definition put {Board} (s : State Board) : Drv Board unit :=
  fun _ => Return tt s.

Definition when {Board} (b : bool) (m : Drv Board unit) : Drv Board unit :=
  if b then m else ret tt.

Fixpoint for_each {Board A} (l : list A) (body : A -> Drv Board unit)
    : Drv Board unit :=
  match l with
  | [] => ret tt
  | a :: l' => body a ;; for_each l' body
  end.

Section Globals.

Context {Board : Type}.

Definition log (c : Call) : Drv Board unit :=
  fun s =>
    Return tt
      (mkState (players s) (neats s) (connect4 s) (info s) (show_every s)
         (game_speed s) (evolution_speed s) (max_fps s) (frame_count s)
         (disk s) (calls s ++ [c])).

Definition set_neat (player : Z) (p : Population) : Drv Board unit :=
  fun s =>
    Return tt
      (mkState (players s) (<[player := Some p]> (neats s)) (connect4 s)
         (info s) (show_every s) (game_speed s) (evolution_speed s)
         (max_fps s) (frame_count s) (disk s) (calls s)).

Definition set_connect4 (c4 : Connect4 Board) : Drv Board unit :=
  fun s =>
    Return tt
      (mkState (players s) (neats s) c4 (info s) (show_every s)
         (game_speed s) (evolution_speed s) (max_fps s) (frame_count s)
         (disk s) (calls s)).

Definition set_info (i : Info) : Drv Board unit :=
  fun s =>
    Return tt
      (mkState (players s) (neats s) (connect4 s) i (show_every s)
         (game_speed s) (evolution_speed s) (max_fps s) (frame_count s)
         (disk s) (calls s)).

Definition set_frame_count (n : Z) : Drv Board unit :=
  fun s =>
    Return tt
      (mkState (players s) (neats s) (connect4 s) (info s) (show_every s)
         (game_speed s) (evolution_speed s) (max_fps s) n (disk s)
         (calls s)).

Definition set_disk (d : Disk) : Drv Board unit :=
  fun s =>
    Return tt
      (mkState (players s) (neats s) (connect4 s) (info s) (show_every s)
         (game_speed s) (evolution_speed s) (max_fps s) (frame_count s) d
         (calls s)).

(** [players[player]]. *)
Definition player_type (player : Z) : Drv Board string :=
  do s := get in
  match players s !! player with
  | Some t => ret t
  | None => throw KeyError
  end.

(** [neats[player]], which may be [None]. *)
Definition neat_entry (player : Z) : Drv Board (option Population) :=
  do s := get in
  match neats s !! player with
  | Some o => ret o
  | None => throw KeyError
  end.

(** [neats[player]] as the receiver of a method call. *)
Definition neat_object (player : Z) : Drv Board Population :=
  do o := neat_entry player in
  match o with
  | Some p => ret p
  | None => throw AttributeError
  end.

(** [frame_count >= max_fps / speed], a true division; a zero speed
    raises before the test is decided. *)
Definition frame_due (speed : Z) : Drv Board bool :=
  do s := get in
  if speed =? 0 then throw ZeroDivisionError
  else
    ret (bool_decide
           (Qc_of_Z (max_fps s) / Qc_of_Z speed <= Qc_of_Z (frame_count s))%Qc).

End Globals.

(** *** Method calls on [neats[player]] *)

Section EngineCalls.

Context {Board : Type}.
Variable cfg : Config.

Definition call_shouldEvolve (player : Z) : Drv Board bool :=
  do p := neat_object player in
  let answer := shouldEvolve cfg p in
  log (CallShouldEvolve player answer) ;;
  ret answer.

Definition call_getGenome (player : Z) : Drv Board Genome :=
  do p := neat_object player in
  log (CallGetGenome player) ;;
  let '(r, p') := getGenome p in
  set_neat player p' ;;
  lift r.

(** [neats[player].best_genome], possibly [None]. *)
Definition read_best_genome (player : Z) : Drv Board (option Genome) :=
  do p := neat_object player in
  log (CallBestGenome player) ;;
  ret (best_genome p).

(** [current_genome.fitness = f] on the genome [getGenome] returned. *)
Definition write_fitness (player : Z) (f : Qc) : Drv Board unit :=
  do p := neat_object player in
  log (CallSetFitness player f) ;;
  set_neat player (assign_fitness f p).

Definition call_nextGenome (player : Z) (name : string) : Drv Board unit :=
  do p := neat_object player in
  do s := get in
  log (CallNextGenome player name) ;;
  let '(p', d') := nextGenome cfg name p (disk s) in
  set_neat player p' ;;
  set_disk d'.

Definition call_getInfo (player : Z) : Drv Board (gmap string InfoValue) :=
  do p := neat_object player in
  log (CallGetInfo player) ;;
  let '(i, p') := getInfo p in
  set_neat player p' ;;
  ret i.

End EngineCalls.

(** *** Calls on the game and on the panel *)

Section GameCalls.

Context {Board : Type}.
Variable cfg : Config.
Variable G : Ops Board.

(** [connect4.main(possible_move)] *)
Definition play (move : Z) : Drv Board (option Z) :=
  do s := get in
  let '(c4, result) := connect4_main G (connect4 s) move in
  log (CallPlay move) ;;
  set_connect4 c4 ;;
  ret result.

(** [neatMove(current_genome)] on the current board. *)
Definition call_neatMove (genome : option Genome) (rnd : nat) : Drv Board Z :=
  do s := get in
  lift (neatMove cfg G genome (connect4 s) rnd).

(** [Info.update(neat_info)]: each text is set from the key it reads,
    in the order of the four statements. *)
Definition set_data (key : string) (neat_info : gmap string InfoValue)
    (neat_key : string) : Drv Board unit :=
  match neat_info !! neat_key with
  | Some v =>
      do s := get in
      set_info (mkInfo (active (info s)) (<[key := v]> (data (info s))))
  | None => throw KeyError
  end.

Definition Info_update (neat_info : gmap string InfoValue) : Drv Board unit :=
  do s := get in
  when (active (info s))
    (set_data "generation" neat_info "generation" ;;
     set_data "species" neat_info "current_species" ;;
     set_data "genome" neat_info "current_genome" ;;
     set_data "fitness" neat_info "fitness").

(** [frame_count += 1] at the end of an iteration. *)
Definition tick : Drv Board unit :=
  do s := get in
  set_frame_count (frame_count s + 1).

(** The loop over [[cp, opponent]] in [getSpeedShow]: is one of the
    engines at the first genome of a generation? *)
Fixpoint at_generation_start (ids : list Z) : Drv Board bool :=
  match ids with
  | [] => ret false
  | player_id :: rest =>
      do o := neat_entry player_id in
      match o with
      | Some p =>
          if ((current_species p =? 0) && (current_genome p =? 0))%nat
          then ret true
          else at_generation_start rest
      | None => at_generation_start rest
      end
  end.

(** The key handling of the event loop: a column key counts only during
    a match and on a human player's turn.  Window events that close the
    program and menu clicks are left out: an iteration is taken with
    none of them pending. *)
Definition key_move (cp : Z) (key : option Z) : Drv Board (option Z) :=
  match key with
  | None => ret None
  | Some k =>
      do s := get in
      if match_ (connect4 s) then
        do t := player_type cp in
        ret (if bool_decide (t = "Human") then Some k else None)
      else ret None
  end.

End GameCalls.

(** *** Observing a run *)

Definition raised {S A} (r : Run S A) : option Error :=
  match r with
  | Raise e _ => Some e
  | _ => None
  end.

Definition returned {S A} (r : Run S A) : option A :=
  match r with
  | Return a _ => Some a
  | _ => None
  end.

Definition final_state {S A} (r : Run S A) : S :=
  match r with
  | Return _ s => s
  | Exit s => s
  | Raise _ s => s
  end.

Definition exited {S A} (r : Run S A) : bool :=
  match r with
  | Exit _ => true
  | _ => false
  end.

(** The calls a piece of driver code makes when started in [s]. *)
Definition calls_made {Board A} (m : Drv Board A) (s : State Board)
    : list Call :=
  drop (List.length (calls s)) (calls (final_state (m s))).

(** Every [getGenome] in a sequence of calls comes directly after a
    [shouldEvolve] on the same player that answered true. *)
Fixpoint guarded (previous : option Call) (cs : list Call) : bool :=
  match cs with
  | [] => true
  | c :: rest =>
      match c with
      | CallGetGenome q =>
          match previous with
          | Some (CallShouldEvolve p true) => bool_decide (p = q)
          | _ => false
          end
      | _ => true
      end
      && guarded (Some c) rest
  end.

(** [shouldEvolve] is only ever asked directly after the genome of the
    same player has been read, and a false answer that follows a
    [getGenome] is followed by [close()] and nothing else. *)
Fixpoint asked_after_request (previous : option Call) (cs : list Call)
    : bool :=
  match cs with
  | [] => true
  | c :: rest =>
      match c with
      | CallShouldEvolve p answer =>
          match previous with
          | Some (CallGetGenome q) =>
              bool_decide (p = q)
              && (answer || bool_decide (rest = [CallClose]))
          | Some (CallBestGenome q) => bool_decide (p = q)
          | _ => false
          end
      | _ => true
      end
      && asked_after_request (Some c) rest
  end.

(** Like [asked_after_request], for code that goes on afterwards: a
    [shouldEvolve] asked directly after [getGenome] has answered
    true. *)
Fixpoint asked_and_went_on (previous : option Call) (cs : list Call) : bool :=
  match cs with
  | [] => true
  | c :: rest =>
      match c with
      | CallShouldEvolve p answer =>
          match previous with
          | Some (CallGetGenome q) => bool_decide (p = q) && answer
          | Some (CallBestGenome q) => bool_decide (p = q)
          | _ => false
          end
      | CallClose => false
      | _ => true
      end
      && asked_and_went_on (Some c) rest
  end.

(** Calls that neither request a genome, nor ask [shouldEvolve], nor
    close the program. *)
Definition harmless (c : Call) : bool :=
  match c with
  | CallGetGenome _ | CallShouldEvolve _ _ | CallClose => false
  | _ => true
  end.

(** [m] appends calls to the log, and the calls it appends satisfy [P],
    which is told whether [m] left through [close()]. *)
Definition traced {Board A} (m : Drv Board A) (P : bool -> list Call -> Prop)
    : Prop :=
  forall s,
    exists l, calls (final_state (m s)) = calls s ++ l /\ P (exited (m s)) l.

(** [m] never closes the program and makes harmless calls only. *)
Definition quiet {Board A} (m : Drv Board A) : Prop :=
  traced m (fun e l => e = false /\ Forall (fun c => harmless c = true) l).

(** A property of call sequences that code can be checked against
    piece by piece. *)
Record compositional (P : bool -> list Call -> Prop) : Prop := {
  comp_harmless : forall l, Forall (fun c => harmless c = true) l -> P false l;
  comp_app : forall e l1 l2, P false l1 -> P e l2 -> P e (l1 ++ l2)
}.

(** The two disciplines of the drivers as properties of the calls of a
    piece of code: [main.py] asks first, [connect4.py] requests
    first. *)
Definition asks_first (e : bool) (l : list Call) : Prop :=
  guarded None l = true.

Definition requests_first (e : bool) (l : list Call) : Prop :=
  if e then asked_after_request None l = true
  else asked_and_went_on None l = true.

(** What a run of [setupAi] comes to, [n] being the population size of
    a fresh engine: an unknown player, a load of a file that is there,
    or a fresh population. *)
Definition setup_outcome {Board} (cfg : Neat.Config) (inputs outputs n : nat)
    (s : State Board) (r : Run (State Board) Neat.Population)
    (trace : list Call) : Prop :=
  (trace = [] /\ raised r = Some KeyError)
  \/ (exists path,
        trace = [CallLoad path] /\ is_Some (disk s !! path)
        /\ raised r <> Some MissingSaveFile)
  \/ (trace = [CallGenerate inputs outputs n]
      /\ returned r = Some (generate cfg inputs outputs n)).

(** The fitness values written, and the players written to. *)
Definition fitness_written (cs : list Call) : list Qc :=
  omap (fun c => match c with CallSetFitness _ f => Some f | _ => None end) cs.

Definition players_scored (cs : list Call) : list Z :=
  omap (fun c => match c with CallSetFitness p _ => Some p | _ => None end) cs.

Definition files_loaded (cs : list Call) : list string :=
  omap (fun c => match c with CallLoad path => Some path | _ => None end) cs.

End Driver.

(** ** [connect4/connect4.py] *)

Module Connect4Driver.

Import Neat Py Game Driver.
Local Open Scope drv_scope.

Definition PLAYER_TYPES : list string := ["Human"; "NEAT"; "1"; "1000"; "10000"].
Definition SHOW_EVERY : list string := ["Genome"; "Generation"; "None"].
Definition SPEEDS : list Z := [1; 5; 25; 100; 500].
Definition GAME : string := "connect4".

Section Connect4Py.

Context {Board : Type}.
Variable cfg : Config.
Variable G : Ops Board.
Variable DIRECTORY : string.

Definition calculateFitness (c4 : Connect4 Board) (result : option Z) : Z :=
  let fitness := 0 in
  let fitness :=
    if bool_decide (result = Some (current_player c4)) then fitness + 100
    else if bool_decide (result = Some 0) then fitness + 25
    else if bool_decide (result = Some (opponent c4)) then fitness - 100
    else fitness in
  fitness - turn c4.

(** The fitness in the words of the spec: +100 if the evaluated player
    won, +25 for a draw, -100 if the opponent won, minus the number of
    turns played.  [evaluated] is the player number in the game of the
    player whose genome is scored. *)
Definition claimed_fitness (evaluated : Z) (result : option Z) (turns : Z) : Z :=
  (if bool_decide (result = Some evaluated) then 100
   else if bool_decide (result = Some 0) then 25
   else -100) - turns.

Definition getSpeedShow (cp : Z) : Drv Board (Z * bool) :=
  do t := player_type cp in
  do s := get in
  if bool_decide (t <> "Human") then
    if bool_decide (show_every s = "Generation") then
      do other :=
        lift (list_item (player_ids (connect4 s)) (opponent (connect4 s) - 1)) in
      do first := at_generation_start [cp; other] in
      if first then ret (game_speed s, true)
      else ret (evolution_speed s, false)
    else if bool_decide (show_every s = "None") then
      ret (evolution_speed s, false)
    else ret (game_speed s, true)
  else ret (game_speed s, true).

(** [os.path.isfile] *)
Definition isfile (path : string) : Drv Board bool :=
  do s := get in
  ret (bool_decide (is_Some (disk s !! path))).

Definition call_load (name directory : string) : Drv Board Population :=
  do s := get in
  log (CallLoad (neat_file directory name)) ;;
  lift (load_named name directory (disk s)).

Definition call_generate (inputs outputs population : nat)
    : Drv Board Population :=
  log (CallGenerate inputs outputs population) ;;
  ret (generate cfg inputs outputs population).

Definition setupAi (player_id : Z) (inputs outputs : nat)
    : Drv Board Population :=
  let directory := (DIRECTORY ++ backslash ++ GAME)%string in
  let fresh := call_generate inputs outputs 50 in
  do t := player_type player_id in
  if bool_decide (t = "NEAT") then
    do found :=
      isfile (directory ++ backslash ++ "ai_" ++ str player_id ++ ".neat")%string in
    if found then call_load ("ai_" ++ str player_id)%string directory
    else fresh
  else
    do found :=
      isfile (directory ++ backslash ++ "ai_" ++ str player_id ++ "_gen_" ++ t
              ++ ".neat")%string in
    if found then
      call_load ("ai_" ++ str player_id ++ "_gen_" ++ t)%string directory
    else fresh.

(** [close()]: [pg.quit()] and [quit()]. *)
Definition close {A} : Drv Board A :=
  bind (log CallClose) (fun _ => exit).

(** The body of [if connect4.match:] in [main]; its value is the
    [result] variable of the iteration.  [network.generate], which only
    draws, is left out. *)
Definition match_turn (cp speed : Z) (show : bool) (possible_move : option Z)
    (rnd : nat) : Drv Board (option Z) :=
  do s := get in
  if match_ (connect4 s) then
    do t := player_type cp in
    if bool_decide (t <> "Human") then
      do due := frame_due speed in
      if due then
        set_frame_count 1 ;;
        do current_genome :=
          (if bool_decide (t = "NEAT")
           then do g := call_getGenome cp in ret (Some g)
           else read_best_genome cp) in
        do evolve := call_shouldEvolve cfg cp in
        when (negb evolve && bool_decide (t = "NEAT")) close ;;
        do move := call_neatMove cfg G current_genome rnd in
        do result := play G move in
        when show
          (do neat_info := call_getInfo cp in Info_update neat_info) ;;
        ret result
      else ret None
    else
      match possible_move with
      | Some move =>
          do result := play G move in
          do s' := get in
          when (negb (match_ (connect4 s'))) (set_frame_count 1) ;;
          ret result
      | None => ret None
      end
  else ret None.

(** The body of the loop over [[cp, connect4.opponent]]. *)
Definition score_player (result : option Z) (player_key : Z)
    : Drv Board unit :=
  do t := player_type player_key in
  when (bool_decide (t = "NEAT"))
    (do current_genome := call_getGenome player_key in
     do s := get in
     write_fitness player_key (Qc_of_Z (calculateFitness (connect4 s) result)) ;;
     call_nextGenome cfg player_key ("ai_" ++ str player_key)%string).

(** The body of [if not connect4.match:] in [main]. *)
Definition end_of_match (cp speed : Z) (result : option Z) : Drv Board unit :=
  do s := get in
  when (negb (match_ (connect4 s)))
    (do due := frame_due speed in
     when due
       (for_each [cp; opponent (connect4 s)] (score_player result) ;;
        do s1 := get in
        set_connect4
          (set_player_ids (rev (player_ids (connect4 s1))) (connect4 s1)) ;;
        do s2 := get in
        set_connect4 (connect4_reset G (connect4 s2)))).

(** One iteration of the loop in [main], rendering left out. *)
Definition main_iteration (key : option Z) (rnd : nat) : Drv Board unit :=
  do s := get in
  do cp :=
    lift (list_item (player_ids (connect4 s)) (current_player (connect4 s) - 1)) in
  do speed_show := getSpeedShow cp in
  do possible_move := key_move cp key in
  do result := match_turn cp speed_show.1 speed_show.2 possible_move rnd in
  end_of_match cp speed_show.1 result ;;
  tick.

End Connect4Py.

End Connect4Driver.

(** ** [main.py] *)

Module MainDriver.

Import Neat Py Game Driver.
Local Open Scope drv_scope.

Definition PLAYER_TYPES : list string := ["Human"; "NEAT"; "1"; "1000"; "6000"].
Definition SHOW_EVERY : list string := ["Genome"; "Generation"; "None"].
Definition SPEEDS : list Z := [1; 5; 25; 100; 500].
Definition GAME : string := "connect4".

(** The module constant [display]; the surface that replaces it is as
    true as the constant. *)
Definition display : bool := true.

Section MainPy.

Context {Board : Type}.
Variable cfg : Config.
Variable G : Ops Board.
Variable DIRECTORY : string.

(** [connect4.PLAYERS[player]['id']] *)
Definition player_id_of (player : Z) : Drv Board Z :=
  do s := get in
  match PLAYERS (connect4 s) !! player with
  | Some player_id => ret player_id
  | None => throw KeyError
  end.

Definition getSpeedShow (current_player : Z) : Drv Board (Z * bool) :=
  do t := player_type current_player in
  do s := get in
  if bool_decide (t <> "Human") then
    if bool_decide (show_every s = "Generation") then
      do other := player_id_of (opponent (connect4 s)) in
      do first := at_generation_start [current_player; other] in
      if first then ret (game_speed s, true)
      else ret (evolution_speed s, false)
    else if bool_decide (show_every s = "None") then
      ret (evolution_speed s, false)
    else ret (game_speed s, true)
  else ret (game_speed s, true).

Definition isfile (path : string) : Drv Board bool :=
  do s := get in
  ret (bool_decide (is_Some (disk s !! path))).

Definition call_load (name directory : string) : Drv Board Population :=
  do s := get in
  log (CallLoad (neat_file directory name)) ;;
  lift (load_named name directory (disk s)).

Definition call_generate (inputs outputs population : nat)
    : Drv Board Population :=
  log (CallGenerate inputs outputs population) ;;
  ret (generate cfg inputs outputs population).

Definition setupAi (player_id : Z) (inputs outputs population : nat)
    : Drv Board Population :=
  let directory := (DIRECTORY ++ backslash ++ GAME)%string in
  let fresh := call_generate inputs outputs population in
  do t := player_type player_id in
  if bool_decide (t = "NEAT") then
    do found :=
      isfile (directory ++ backslash ++ "ai_" ++ str player_id ++ ".neat")%string in
    if found then call_load ("ai_" ++ str player_id)%string directory
    else fresh
  else
    do found :=
      isfile (directory ++ backslash ++ "ai_" ++ str player_id ++ "_gen_" ++ t
              ++ ".neat")%string in
    if found then
      call_load ("ai_" ++ str player_id ++ "_gen_" ++ t)%string directory
    else fresh.

(** Modelled from the spec: [neat.NEAT.save(name)] of an engine set up
    in [DIRECTORY] for [GAME] writes the population to the file [name]
    with the extension [.neat] in the game's directory; the driver's
    names start with the path separator. *)
Definition save_file (name : string) : string :=
  (DIRECTORY ++ backslash ++ GAME ++ name ++ ".neat")%string.

Definition call_save (player_id : Z) (name : string) : Drv Board unit :=
  do p := neat_object player_id in
  do s := get in
  log (CallSave (save_file name)) ;;
  set_disk (save (SavedPopulation p) (save_file name) (disk s)).

(** [close()]: every NEAT player's population is saved, then
    [pg.quit()] and [quit()]. *)
Definition save_player (player_id : Z) : Drv Board unit :=
  do t := player_type player_id in
  when (bool_decide (t = "NEAT"))
    (call_save player_id (backslash ++ "ai_" ++ str player_id)%string).

Definition close {A} : Drv Board A :=
  bind get (fun s =>
  bind (for_each (map_to_list (players s)).*1 save_player) (fun _ =>
  bind (log CallClose) (fun _ => exit))).

(** The body of [if connect4.match:] in [main]; [network.generate],
    which only draws, is left out, and the panel is the one of
    [connect4.py]. *)
Definition match_turn (current_player speed : Z) (show : bool)
    (possible_move : option Z) (rnd : nat) : Drv Board unit :=
  do s := get in
  when (match_ (connect4 s))
    (do t := player_type current_player in
     if bool_decide (t <> "Human") then
       do due := frame_due speed in
       when due
         (set_frame_count 1 ;;
          do evolving :=
            (if bool_decide (t = "NEAT")
             then call_shouldEvolve cfg current_player
             else ret false) in
          do current_genome :=
            (if evolving
             then do g := call_getGenome current_player in ret (Some g)
             else read_best_genome current_player) in
          do move := call_neatMove cfg G current_genome rnd in
          do result := play G move in
          when (show && display)
            (do neat_info := call_getInfo current_player in
             Info_update neat_info))
     else
       match possible_move with
       | Some move =>
           do result := play G move in
           do s' := get in
           when (negb (match_ (connect4 s'))) (set_frame_count 1)
       | None => ret tt
       end).

(** The body of the loop over [enumerate([current_player, opponent's
    id])] *)
Definition score_player (fitness : list Qc) (i_player_key : nat * Z)
    : Drv Board unit :=
  let '(i, player_key) := i_player_key in
  do t := player_type player_key in
  do evolving :=
    (if bool_decide (t = "NEAT")
     then call_shouldEvolve cfg player_key
     else ret false) in
  when evolving
    (do current_genome := call_getGenome player_key in
     do f := lift (list_item fitness (Z.of_nat i)) in
     write_fitness player_key f ;;
     call_nextGenome cfg player_key ("ai_" ++ str player_key)%string).

(** The body of [if not connect4.match:] in [main]. *)
Definition end_of_match (current_player speed : Z) : Drv Board unit :=
  do s := get in
  when (negb (match_ (connect4 s)))
    (do due := frame_due speed in
     when due
       (let fitness := fitnessEvaluation G (connect4 s) in
        do other := player_id_of (opponent (connect4 s)) in
        for_each [(0%nat, current_player); (1%nat, other)] (score_player fitness) ;;
        do s1 := get in
        set_connect4 (connect4_reset G (connect4 s1)))).

(** One iteration of the loop in [main], rendering left out. *)
Definition main_iteration (key : option Z) (rnd : nat) : Drv Board unit :=
  do s := get in
  do current_player := player_id_of (current_player (connect4 s)) in
  do speed_show := getSpeedShow current_player in
  do possible_move := (if display then key_move current_player key else ret None) in
  match_turn current_player speed_show.1 speed_show.2 possible_move rnd ;;
  end_of_match current_player speed_show.1 ;;
  when display tick.

End MainPy.

End MainDriver.

(** ** A small game and engine to run the drivers on *)

Module Example.

Import Neat Py Game Driver.

(** An engine that stops after five generations or at fitness 1000,
    wires its genomes fully with weight 1, uses the identity as
    activation and reproduces a generation unchanged. *)
Definition cfg : Config :=
  mkConfig 5 (Qc_of_Z 1000) true (fun _ _ _ => 1%Qc) (fun x => x)
    (fun p => (species p, innovation p)).

(** An engine whose evolution is over from the start. *)
Definition cfg_finished : Config :=
  mkConfig 0 (Qc_of_Z 1000) true (fun _ _ _ => 1%Qc) (fun x => x)
    (fun p => (species p, innovation p)).

(** A game of seven columns in which every column can be played, a
    move has one slice of four empty cells to look at, and the first
    move wins the match for the player who makes it. *)
Definition ops : Ops unit :=
  mkOps 7%nat (-1)
    (fun _ i => (0, Z.of_nat i))
    (fun _ _ => [[Some [0%Qc; 0%Qc; 0%Qc; 0%Qc]; None]])
    (fun c4 move =>
       (mkConnect4 tt (current_player c4) (opponent c4) (turn c4 + 1) false
          (player_ids c4) (PLAYERS c4),
        Some (current_player c4)))
    (fun c4 =>
       mkConnect4 tt 1 2 0 true (player_ids c4) (PLAYERS c4))
    (fun c4 => [Qc_of_Z 1; Qc_of_Z (-1)]).

(** The same game with every column full. *)
Definition full_ops : Ops unit :=
  mkOps 7%nat (-1)
    (fun _ i => (-1, Z.of_nat i))
    (getPieceSlices ops) (connect4_main ops) (connect4_reset ops)
    (fitnessEvaluation ops).

(** Player number 1 to move, six turns played. *)
Definition game (ids : list Z) (running : bool) : Connect4 unit :=
  mkConnect4 tt 1 2 6 running ids {[1 := 1; 2 := 2]}.

(** Two NEAT players with populations of three, at full speed. *)
Definition start (c : Config) (c4 : Connect4 unit) : State unit :=
  mkState {[1 := "NEAT"; 2 := "NEAT"]}
    {[1 := Some (generate c 4 1 3); 2 := Some (generate c 4 1 3)]}
    c4 (mkInfo true ∅) "Generation" 500 500 500 1 ∅ [].

(** A running match with the players in their initial order, the same
    after the driver has reversed [player_ids], and a running match of
    two engines whose evolution is over. *)
Definition running : State unit := start cfg (game [1; 2] true).

Definition swapped : State unit := start cfg (game [2; 1] true).

Definition finished : State unit := start cfg_finished (game [1; 2] true).

(** Two inputs, one output, both connections enabled at weight 1/2. *)
Definition two_inputs : Genome :=
  mkGenome
    [mkNode 0 Input 0; mkNode 1 Input 0; mkNode 2 Output 1]
    [mkConnection 0 2 (Q2Qc (1 # 2)) true 0;
     mkConnection 1 2 (Q2Qc (1 # 2)) true 1]
    0%Qc.

End Example.

(** ** [setup()] and the options screen *)

Module Screens.

Import Neat Py Game Driver.
Local Open Scope drv_scope.

Definition FPS : Z := 40.

(** The keys of [players] in the order [for player_id in players]
    visits them: the dictionary is created as [{1: .., 2: ..}], and no
    statement of either driver adds or removes a key. *)
Definition player_keys : list Z := [1; 2].

(** [Info.__init__] of [connect4.py]: an active panel whose four data
    texts are 0.  The panel of [main.py] lives in [connect4.visualize]
    and is taken to be the same. *)
Definition Info_init : Info :=
  mkInfo true
    (<["generation" := InfoInt 0]>
       (<["species" := InfoInt 0]>
          (<["genome" := InfoInt 0]> (<["fitness" := InfoInt 0]> ∅)))).

Section Globals.

Context {Board : Type}.

(** [neats[player] = o] *)
Definition set_neat_entry (player : Z) (o : option Population)
    : Drv Board unit :=
  fun s =>
    Return tt
      (mkState (players s) (<[player := o]> (neats s)) (connect4 s) (info s)
         (show_every s) (game_speed s) (evolution_speed s) (max_fps s)
         (frame_count s) (disk s) (calls s)).

(** [players[player] = t] *)
Definition set_player (player : Z) (t : string) : Drv Board unit :=
  fun s =>
    Return tt
      (mkState (<[player := t]> (players s)) (neats s) (connect4 s) (info s)
         (show_every s) (game_speed s) (evolution_speed s) (max_fps s)
         (frame_count s) (disk s) (calls s)).

Definition set_show_every (v : string) : Drv Board unit :=
  fun s =>
    Return tt
      (mkState (players s) (neats s) (connect4 s) (info s) v (game_speed s)
         (evolution_speed s) (max_fps s) (frame_count s) (disk s) (calls s)).

Definition set_game_speed (v : Z) : Drv Board unit :=
  fun s =>
    Return tt
      (mkState (players s) (neats s) (connect4 s) (info s) (show_every s) v
         (evolution_speed s) (max_fps s) (frame_count s) (disk s) (calls s)).

Definition set_evolution_speed (v : Z) : Drv Board unit :=
  fun s =>
    Return tt
      (mkState (players s) (neats s) (connect4 s) (info s) (show_every s)
         (game_speed s) v (max_fps s) (frame_count s) (disk s) (calls s)).

Definition set_max_fps (v : Z) : Drv Board unit :=
  fun s =>
    Return tt
      (mkState (players s) (neats s) (connect4 s) (info s) (show_every s)
         (game_speed s) (evolution_speed s) v (frame_count s) (disk s)
         (calls s)).

(** The loop of [setup()] over the players, the same in both drivers
    but for the [setupAi] it calls. *)
Definition setup_player (setupAi : Z -> Drv Board Population) (player_id : Z)
    : Drv Board unit :=
  set_neat_entry player_id None ;;
  do t := player_type player_id in
  when (bool_decide (t <> "Human"))
    (do neat := setupAi player_id in
     set_neat_entry player_id (Some neat)).

Definition setup_engines (setupAi : Z -> Drv Board Population)
    : Drv Board unit :=
  for_each player_keys (setup_player setupAi).

(** [game_speed = SPEEDS[0]] and [show_every = SHOW_EVERY[0]], the
    pair of assignments both options screens make for a player that is
    not a NEAT player. *)
Definition slow_down (speeds : list Z) (shows : list string)
    : Drv Board unit :=
  do v := lift (list_item speeds 0) in
  set_game_speed v ;;
  do w := lift (list_item shows 0) in
  set_show_every w.

(** [max_fps = max(FPS, max(game_speed, evolution_speed))] *)
Definition update_max_fps : Drv Board unit :=
  do s := get in
  set_max_fps (Z.max FPS (Z.max (game_speed s) (evolution_speed s))).

End Globals.

(** *** [connect4.py] *)

Section Connect4Py.

Context {Board : Type}.
Variable cfg : Config.
Variable DIRECTORY : string.

(** What [Connect4()] constructs. *)
Variable new_game : Connect4 Board.

(** [setup()]: a new game and a new panel, then the engines.  The
    network view, the options screen and the menu it also constructs
    are widgets. *)
Definition connect4_setup : Drv Board unit :=
  set_connect4 new_game ;;
  set_info Info_init ;;
  setup_engines
    (fun player_id => Connect4Driver.setupAi cfg DIRECTORY player_id 4 1).

(** A click on a button of a player group in [Options.update]. *)
Definition connect4_click_player (player : Z) (button_key : Z)
    : Drv Board unit :=
  when (button_key =? 0)
    (slow_down Connect4Driver.SPEEDS Connect4Driver.SHOW_EVERY) ;;
  do t := lift (list_item Connect4Driver.PLAYER_TYPES button_key) in
  set_player player t ;;
  when (negb (button_key =? 1))
    (slow_down Connect4Driver.SPEEDS Connect4Driver.SHOW_EVERY) ;;
  connect4_setup.

(** The branches of [if button_key is not None:] in [Options.update],
    by group. *)
Definition connect4_click_group (group : string) (button_key : Z)
    : Drv Board unit :=
  if bool_decide (group = "player_1") then connect4_click_player 1 button_key
  else if bool_decide (group = "player_2") then
    connect4_click_player 2 button_key
  else if bool_decide (group = "game_speed") then
    do v := lift (list_item Connect4Driver.SPEEDS button_key) in
    set_game_speed v ;;
    do s := get in
    when (evolution_speed s <? game_speed s)
      (set_evolution_speed (game_speed s))
  else if bool_decide (group = "evolution_speed") then
    do v := lift (list_item Connect4Driver.SPEEDS button_key) in
    do s := get in
    set_evolution_speed (if game_speed s <=? v then v else game_speed s)
  else if bool_decide (group = "show") then
    do w := lift (list_item Connect4Driver.SHOW_EVERY 0) in
    set_show_every w ;;
    do p1 := player_type 1 in
    do p2 := player_type 2 in
    when (bool_decide (p1 = p2) && bool_decide (p2 = "NEAT"))
      (do w' := lift (list_item Connect4Driver.SHOW_EVERY button_key) in
       set_show_every w')
  else ret tt.

(** The body of [if button_key is not None:]: the group's branch, then
    the frame rate. *)
Definition connect4_click (group : string) (button_key : Z)
    : Drv Board unit :=
  connect4_click_group group button_key ;;
  update_max_fps.

(** The button groups of the options screen, in the order
    [Options.generate] creates them. *)
Definition connect4_groups : list string :=
  ["player_1"; "player_2"; "game_speed"; "evolution_speed"; "show"].

(** The loop over the button groups in
    [Options.update(mouse_pos, mouse_clicked)], which is reached when
    neither Back nor QUIT reports an action.  What a group's [update]
    returns is an input: the key of the button clicked, if any. *)
Definition connect4_Options_groups (clicked : string -> option Z)
    : Drv Board unit :=
  for_each connect4_groups
    (fun group =>
       match clicked group with
       | Some button_key => connect4_click group button_key
       | None => ret tt
       end).

End Connect4Py.

(** *** [main.py] *)

Section MainPy.

Context {Board : Type}.
Variable cfg : Config.
Variable DIRECTORY : string.

(** What [Connect4(GAME_PANEL)] constructs. *)
Variable new_game : Connect4 Board.

(** [Options.update()] as [Options.__init__] calls it, without a mouse
    position: [generate] reads both players, then the speeds and
    [show_every] are brought in line with the player types.  The loops
    over the buttons are skipped, and the calls that switch groups on
    and off touch widgets only. *)
Definition main_Options_refresh : Drv Board unit :=
  do p1 := player_type 1 in
  do p2 := player_type 2 in
  (if bool_decide (p1 <> "NEAT") || bool_decide (p2 <> "NEAT") then
     do v := lift (list_item MainDriver.SPEEDS 0) in
     set_evolution_speed v ;;
     do w := lift (list_item MainDriver.SHOW_EVERY 0) in
     set_show_every w
   else
     do s := get in
     when (evolution_speed s <? game_speed s)
       (set_evolution_speed (game_speed s))) ;;
  when (bool_decide (p1 = "Human") || bool_decide (p2 = "Human"))
    (do v := lift (list_item MainDriver.SPEEDS 0) in
     set_game_speed v).

(** [setup()]: a new game, a new panel and a new options screen, then
    the engines. *)
Definition main_setup : Drv Board unit :=
  set_connect4 new_game ;;
  set_info Info_init ;;
  main_Options_refresh ;;
  setup_engines
    (fun player_id => MainDriver.setupAi cfg DIRECTORY player_id 4 1 100).

End MainPy.

(** *** What the options screens keep *)

(** The speeds are at least 1, the evolution speed is not below the
    game speed, and the frame rate is the largest of [FPS] and the
    speeds. *)
Definition speeds_in_line {Board} (s : State Board) : Prop :=
  1 <= game_speed s
  /\ game_speed s <= evolution_speed s
  /\ max_fps s = Z.max FPS (Z.max (game_speed s) (evolution_speed s)).

(** Anything but a genome-by-genome display needs two NEAT players. *)
Definition show_in_line {Board} (s : State Board) : Prop :=
  show_every s = "Genome"
  \/ (players s !! 1 = Some "NEAT" /\ players s !! 2 = Some "NEAT").

(** Every player that is not human has an engine, every human player
    has none. *)
Definition engine_for (t : string) (entry : option (option Population))
    : Prop :=
  if bool_decide (t = "Human") then entry = Some None
  else exists p, entry = Some (Some p).

Definition engines_in_line {Board} (s : State Board) : Prop :=
  forall player t,
    In player player_keys ->
    players s !! player = Some t ->
    engine_for t (neats s !! player).

End Screens.

(** ** What a piece of driver code leaves alone *)

Module Frames.

Import Neat Py Game Driver.

(** [m] ends with the value of [f] it started with, however it ends. *)
Definition keeps {Board A X} (f : State Board -> X) (m : Drv Board A) : Prop :=
  forall s, f (final_state (m s)) = f s.

(** [m] changes nothing and does not leave the program. *)
Definition reads_only {Board A} (m : Drv Board A) : Prop :=
  forall s, final_state (m s) = s /\ exited (m s) = false.

(** [m] does not leave the program. *)
Definition stays {Board A} (m : Drv Board A) : Prop :=
  forall s, exited (m s) = false.

(** [m] stops at exceptions in [E] only. *)
Definition raises_only {Board A} (E : Error -> Prop) (m : Drv Board A) : Prop :=
  forall s e, raised (m s) = Some e -> E e.

(** The exceptions of a failed look-up or evaluation: a missing key, a
    method call on [None], a bad index, a slice of the wrong size. *)
Definition lookup_error (e : Error) : Prop :=
  match e with
  | KeyError | AttributeError | IndexError | InvalidInputSize => True
  | _ => False
  end.

(** The exceptions of an iteration that waits for its frame at
    [speed]: those, and the division by a zero speed. *)
Definition loop_error (speed : Z) (e : Error) : Prop :=
  lookup_error e \/ (e = ZeroDivisionError /\ speed = 0).

(** The globals the options screen sets. *)
Definition settings {Board} (s : State Board)
    : gmap Z string * string * Z * Z * Z :=
  (players s, show_every s, game_speed s, evolution_speed s, max_fps s).

(** What is left of the globals when the engines, the game and the
    panel are set aside. *)
Definition surroundings {Board} (s : State Board)
    : gmap Z string * string * Z * Z * Z * Z * Disk :=
  (players s, show_every s, game_speed s, evolution_speed s, max_fps s,
   frame_count s, disk s).

(** The fitness values written so far. *)
Definition scores {Board} (s : State Board) : list Qc :=
  fitness_written (calls s).

(** The players scored, each with the fitness written. *)
Definition fitness_calls (cs : list Call) : list (Z * Qc) :=
  omap (fun c => match c with CallSetFitness p f => Some (p, f) | _ => None end)
    cs.

(** What the turn of the NEAT player [cp] with the engine [p] leaves
    behind when it started in [s] and played column [m]: the game after
    the move, the frame count at 1, the engine as it was, the disk as
    it was, and the calls [trace], followed by [getInfo] if the turn is
    shown. *)
Definition turn_played {Board} (G : Ops Board) (cp : Z) (p : Population)
    (m : Z) (show : bool) (s : State Board) (trace : list Call)
    (s' : State Board) : Prop :=
  connect4 s' = (connect4_main G (connect4 s) m).1
  /\ frame_count s' = 1
  /\ neats s' = <[cp := Some p]> (neats s)
  /\ disk s' = disk s
  /\ calls s' = calls s ++ trace ++ (if show then [CallGetInfo cp] else []).

(** What the two [getSpeedShow] may answer in [s] for the player [cp]. *)
Definition speed_show_answer {Board} (cp : Z) (s : State Board)
    (answer : Z * bool) : Prop :=
  answer = (game_speed s, true)
  \/ (answer = (evolution_speed s, false)
      /\ players s !! cp <> Some "Human"
      /\ (show_every s = "Generation" \/ show_every s = "None")).

End Frames.

(** ** More states to run the drivers on *)

Module Scenes.

Import Neat Py Game Driver.

(** A finished match of two NEAT players, not scored yet, on a due
    frame. *)
Definition over : State unit :=
  Example.start Example.cfg (Example.game [1; 2] false).

(** Two NEAT players at speed 25 under a frame rate of 40, on a due
    frame of a running match. *)
Definition slow : State unit :=
  mkState {[1 := "NEAT"; 2 := "NEAT"]}
    {[1 := Some (generate Example.cfg 4 1 3);
      2 := Some (generate Example.cfg 4 1 3)]}
    (Example.game [1; 2] true) (mkInfo true ∅) "Generation" 25 25 40 40 ∅ [].

(** A human player to move against a NEAT player. *)
Definition human_turn : State unit :=
  mkState {[1 := "Human"; 2 := "NEAT"]}
    {[1 := None; 2 := Some (generate Example.cfg 4 1 3)]}
    (Example.game [1; 2] true) (mkInfo true ∅) "Genome" 1 1 40 1 ∅ [].

(** Two NEAT players whose games are not shown, at speed 25 under a
    frame rate of 40, on the first frame. *)
Definition hidden : State unit :=
  mkState {[1 := "NEAT"; 2 := "NEAT"]}
    {[1 := Some (generate Example.cfg 4 1 3);
      2 := Some (generate Example.cfg 4 1 3)]}
    (Example.game [1; 2] true) (mkInfo true ∅) "None" 25 25 40 1 ∅ [].

(** Two NEAT players with both speeds at zero. *)
Definition stalled : State unit :=
  mkState {[1 := "NEAT"; 2 := "NEAT"]}
    {[1 := Some (generate Example.cfg 4 1 3);
      2 := Some (generate Example.cfg 4 1 3)]}
    (Example.game [1; 2] true) (mkInfo true ∅) "Genome" 0 0 40 1 ∅ [].

(** A fresh start: a human player against a NEAT player, no engines
    yet, nothing on disk. *)
Definition fresh : State unit :=
  mkState {[1 := "Human"; 2 := "NEAT"]} {[1 := None; 2 := None]}
    (Example.game [1; 2] true) (mkInfo true ∅) "Generation" 500 500 500 1 ∅ [].

End Scenes.

(** * Persistence: decoding undoes encoding *)

Module PersistenceFacts.

Import Neat.
Local Open Scope parser_scope.

Lemma read_step {A B} (p : Parser A) (e : A -> list Z) (k : A -> Parser B) a rest :
  reads_back p e -> p_bind p k (e a ++ rest) = k a rest.
Proof. intros Hp. unfold p_bind. by rewrite Hp. Qed.

Lemma nat_reads_back : reads_back p_nat e_nat.
Proof.
  intros n rest. unfold p_nat, p_bind, e_nat; simpl.
  destruct (Z.leb_spec 0 (Z.of_nat n)); [|lia].
  unfold p_ret. by rewrite Nat2Z.id.
Qed.

Lemma bool_reads_back : reads_back p_bool e_bool.
Proof. by intros [] rest. Qed.

Lemma layer_reads_back : reads_back p_layer e_layer.
Proof. by intros [] rest. Qed.

Lemma Qc_reads_back : reads_back p_Qc e_Qc.
Proof.
  intros q rest. unfold p_Qc, p_bind, e_Qc, p_ret; simpl.
  do 2 f_equal. apply Qc_is_canon. simpl.
  destruct q as [[n d] Hq]; simpl. by rewrite Hq.
Qed.

Lemma repeat_reads_back {A} (p : Parser A) (e : A -> list Z) :
  reads_back p e ->
  forall l rest,
    p_repeat p (List.length l) (List.concat (List.map e l) ++ rest)
    = Some (l, rest).
Proof.
  intros Hp. induction l as [|a l IH]; intros rest; simpl; [done|].
  rewrite <- app_assoc. rewrite (read_step p e) by done.
  unfold p_bind. by rewrite IH.
Qed.

Lemma list_reads_back {A} (p : Parser A) (e : A -> list Z) :
  reads_back p e -> reads_back (p_list p) (e_list e).
Proof.
  intros Hp l rest. unfold p_list, e_list.
  change ((Z.of_nat (List.length l) :: List.concat (List.map e l)) ++ rest)
    with (e_nat (List.length l) ++ List.concat (List.map e l) ++ rest).
  rewrite (read_step p_nat e_nat) by apply nat_reads_back.
  by apply repeat_reads_back.
Qed.

Lemma option_reads_back {A} (p : Parser A) (e : A -> list Z) :
  reads_back p e -> reads_back (p_option p) (e_option e).
Proof.
  intros Hp [a|] rest; [|done].
  unfold p_option, p_bind; simpl. by rewrite Hp.
Qed.

(** Unfold one record codec and read its fields back one by one. *)
Ltac read_fields :=
  repeat rewrite <- app_assoc;
  repeat
    (first
       [ rewrite (read_step p_nat e_nat) by apply nat_reads_back
       | rewrite (read_step p_bool e_bool) by apply bool_reads_back
       | rewrite (read_step p_layer e_layer) by apply layer_reads_back
       | rewrite (read_step p_Qc e_Qc) by apply Qc_reads_back ]).

Lemma node_reads_back : reads_back p_node e_node.
Proof. intros [i t d] rest. unfold p_node, e_node. by read_fields. Qed.

Lemma connection_reads_back : reads_back p_connection e_connection.
Proof.
  intros [i o w en inn] rest. unfold p_connection, e_connection.
  by read_fields.
Qed.

Lemma genome_reads_back : reads_back p_genome e_genome.
Proof.
  intros [ns cs f] rest. unfold p_genome, e_genome.
  repeat rewrite <- app_assoc.
  rewrite (read_step (p_list p_node) (e_list e_node))
    by apply list_reads_back, node_reads_back.
  rewrite (read_step (p_list p_connection) (e_list e_connection))
    by apply list_reads_back, connection_reads_back.
  by read_fields.
Qed.

Lemma species_reads_back : reads_back p_species e_species.
Proof.
  intros [r ms st] rest. unfold p_species, e_species.
  repeat rewrite <- app_assoc.
  rewrite (read_step p_genome e_genome) by apply genome_reads_back.
  rewrite (read_step (p_list p_genome) (e_list e_genome))
    by apply list_reads_back, genome_reads_back.
  by read_fields.
Qed.

Lemma population_reads_back : reads_back p_population e_population.
Proof.
  intros [ss gen cs cg best inn] rest. unfold p_population, e_population.
  repeat rewrite <- app_assoc.
  rewrite (read_step (p_list p_species) (e_list e_species))
    by apply list_reads_back, species_reads_back.
  read_fields.
  rewrite (read_step (p_option p_genome) (e_option e_genome))
    by apply option_reads_back, genome_reads_back.
  by read_fields.
Qed.

Lemma saved_reads_back : reads_back p_saved e_saved.
Proof.
  intros [p|g] rest; unfold p_saved.
  - change (e_saved (SavedPopulation p) ++ rest) with (0 :: e_population p ++ rest).
    unfold p_bind at 1; cbn [p_field Z.eqb Pos.eqb].
    by rewrite (read_step p_population e_population) by apply population_reads_back.
  - change (e_saved (SavedGenome g) ++ rest) with (1 :: e_genome g ++ rest).
    unfold p_bind at 1; cbn [p_field Z.eqb Pos.eqb].
    by rewrite (read_step p_genome e_genome) by apply genome_reads_back.
Qed.

Lemma load_save (s : Saved) (path : string) (d : Disk) :
  load path (save s path d) = ok s.
Proof.
  unfold load, save. rewrite lookup_insert_eq.
  rewrite <- (app_nil_r (e_saved s)). by rewrite saved_reads_back.
Qed.

(** A save leaves every other file as it was. *)
Lemma load_save_other (s : Saved) (path path' : string) (d : Disk) :
  path <> path' -> load path' (save s path d) = load path' d.
Proof. intros Hne. unfold load, save. by rewrite lookup_insert_ne. Qed.

(** C5.  Saving a population and loading the file again gives back the
    population itself: the same species with their genomes (nodes,
    connections with their weights, enabled flags and innovation ids,
    fitness), the same generation counter and the same innovation
    counter, which in particular is not lower than the saved one. *)
Theorem save_load_round_trip (p : Population) (path : string) (d : Disk) :
  exists p',
    load_population path (save (SavedPopulation p) path d) = ok p'
    /\ p' = p
    /\ species p' = species p
    /\ generation p' = generation p
    /\ best_genome p' = best_genome p
    /\ innovation p' = innovation p
    /\ (innovation p <= innovation p')%nat.
Proof.
  exists p. unfold load_population. rewrite load_save. by repeat split.
Qed.

End PersistenceFacts.

(** * The population controller *)

Module EngineFacts.

Import Neat.

Section Controller.

Variable cfg : Config.

Lemma getGenome_state (p : Population) : (getGenome p).2 = p.
Proof. unfold getGenome. by destruct (genome_at p _ _). Qed.

Lemma getGenome_repeat_same (n : nat) (p : Population) :
  getGenome_repeat n p = (List.repeat (getGenome p).1 n, p).
Proof.
  induction n as [|n IH]; simpl; [done|].
  pose proof (getGenome_state p) as Hp.
  destruct (getGenome p) as [r p1]; simpl in *; subst p1.
  by rewrite IH.
Qed.

(** What [record_best] and [assign_fitness] leave alone. *)
Lemma record_best_frame (p : Population) :
  species (record_best p) = species p
  /\ generation (record_best p) = generation p
  /\ current_species (record_best p) = current_species p
  /\ current_genome (record_best p) = current_genome p.
Proof.
  unfold record_best.
  destruct (genome_at p _ _); [|done].
  destruct (best_genome p); [|done].
  by case_bool_decide.
Qed.

Lemma assign_fitness_single (f : Qc) (p : Population) (s : Species) :
  species p = [s] -> current_species p = 0%nat ->
  species (assign_fitness f p)
  = [set_members (alter (set_fitness f) (current_genome p) (members s)) s].
Proof. intros Hs Hcs. unfold assign_fitness; simpl. by rewrite Hs, Hcs. Qed.

Lemma nextGenome_within_species (name : string) (p : Population) (d : Disk)
    (s : Species) :
  species p !! current_species p = Some s ->
  (S (current_genome p) < List.length (members s))%nat ->
  nextGenome cfg name p d
  = (set_position (current_species p) (S (current_genome p)) (record_best p), d).
Proof.
  intros Hs Hlt. unfold nextGenome.
  destruct (record_best_frame p) as (Hsp & _ & Hcs & Hcg).
  rewrite Hsp, Hcs, Hcg, Hs.
  destruct (Nat.ltb_spec (S (current_genome p)) (List.length (members s)));
    [done|lia].
Qed.

Lemma nextGenome_last (name : string) (p : Population) (d : Disk) (s : Species) :
  species p = [s] -> current_species p = 0%nat ->
  S (current_genome p) = List.length (members s) ->
  nextGenome cfg name p d = end_of_generation cfg name (record_best p) d.
Proof.
  intros Hs Hcs Hcg. unfold nextGenome.
  destruct (record_best_frame p) as (Hsp & _ & Hcs' & Hcg').
  rewrite Hsp, Hcs', Hcg', Hs, Hcs; simpl.
  destruct (Nat.ltb_spec (S (current_genome p)) (List.length (members s)));
    [lia|done].
Qed.

Lemma end_of_generation_counters (name : string) (p : Population) (d : Disk) :
  generation (end_of_generation cfg name p d).1 = S (generation p)
  /\ current_species (end_of_generation cfg name p d).1 = 0%nat
  /\ current_genome (end_of_generation cfg name p d).1 = 0%nat.
Proof. unfold end_of_generation. by destruct (reproduce cfg p). Qed.

(** Scoring the remaining members of a single species, one after the
    other, ends in the next generation at position (0, 0). *)
Lemma evaluate_single_species (name : string) (fits : list Qc) :
  forall (p : Population) (d : Disk) (s : Species),
    species p = [s] -> current_species p = 0%nat ->
    (current_genome p + List.length fits = List.length (members s))%nat ->
    fits <> [] ->
    exists p' d',
      evaluate_genomes cfg name fits p d = ok (p', d')
      /\ generation p' = S (generation p)
      /\ current_species p' = 0%nat
      /\ current_genome p' = 0%nat.
Proof.
  induction fits as [|f rest IH]; intros p d s Hs Hcs Hlen Hne; [done|].
  simpl in Hlen. simpl.
  assert (Hin : (current_genome p < List.length (members s))%nat) by lia.
  destruct (lookup_lt_is_Some_2 _ _ Hin) as [g Hg].
  unfold getGenome, genome_at. rewrite Hs, Hcs; simpl. rewrite Hg.
  set (p2 := assign_fitness f p).
  set (s2 := set_members (alter (set_fitness f) (current_genome p) (members s)) s).
  assert (Hs2 : species p2 = [s2]) by by apply assign_fitness_single.
  assert (Hcs2 : current_species p2 = 0%nat) by done.
  assert (Hcg2 : current_genome p2 = current_genome p) by done.
  assert (Hm2 : List.length (members s2) = List.length (members s))
    by (unfold s2; simpl; apply length_alter).
  destruct (record_best_frame p2) as (Hsp & Hgen & Hcs' & Hcg').
  destruct rest as [|f' rest'].
  - rewrite (nextGenome_last name p2 d s2) by (done || (simpl in *; lia)).
    destruct (end_of_generation_counters name (record_best p2) d)
      as (Hg1 & Hg2 & Hg3).
    destruct (end_of_generation cfg name (record_best p2) d) as [p3 d3].
    exists p3, d3. simpl in *. by rewrite Hg1, Hgen.
  - rewrite (nextGenome_within_species name p2 d s2)
      by (rewrite ?Hs2, ?Hcs2; done || (simpl in *; lia)).
    set (p3 := set_position _ _ _).
    destruct (IH p3 d s2) as (p' & d' & Hrun & Hg1 & Hg2 & Hg3).
    + unfold p3; simpl. by rewrite Hsp.
    + done.
    + unfold p3; simpl. rewrite length_alter. simpl in Hlen. lia.
    + done.
    + exists p', d'. repeat split; try done.
      by rewrite Hg1; unfold p3; simpl; rewrite Hgen.
Qed.

End Controller.



(** C7.  [getInfo] answers with a dictionary of exactly the keys
    [generation], [current_species], [current_genome] and [fitness],
    holding the counters of the population, and leaves the population
    as it is; the [Info] panel finds every key it reads. *)
Theorem getInfo_snapshot (p : Population) :
  dom (getInfo p).1
  = {["generation"; "current_species"; "current_genome"; "fitness"]}
  /\ (getInfo p).1 !! "generation" = Some (InfoInt (generation p))
  /\ (getInfo p).1 !! "current_species" = Some (InfoInt (current_species p))
  /\ (getInfo p).1 !! "current_genome" = Some (InfoInt (current_genome p))
  /\ (getInfo p).1 !! "fitness" = Some (InfoReal (current_fitness p))
  /\ (getInfo p).2 = p
  /\ (forall Board (s : Driver.State Board),
        exists s', Driver.Info_update (getInfo p).1 s = Driver.Return tt s').
Proof.
  split.
  { unfold getInfo; simpl. rewrite !dom_insert_L, dom_empty_L. set_solver. }
  split; [by vm_compute|].
  split; [by vm_compute|].
  split; [by vm_compute|].
  split; [by vm_compute|].
  split; [reflexivity|].
  intros Board s. unfold Driver.Info_update, Driver.bind, Driver.get, Driver.when.
  destruct (Driver.active (Driver.info s)) eqn:Hact; [|by eexists].
  unfold Driver.set_data.
  replace ((getInfo p).1 !! "generation") with (Some (InfoInt (generation p)))
    by by vm_compute.
  replace ((getInfo p).1 !! "current_species")
    with (Some (InfoInt (current_species p))) by by vm_compute.
  replace ((getInfo p).1 !! "current_genome")
    with (Some (InfoInt (current_genome p))) by by vm_compute.
  replace ((getInfo p).1 !! "fitness")
    with (Some (InfoReal (current_fitness p))) by by vm_compute.
  unfold Driver.bind, Driver.get, Driver.set_info. by eexists.
Qed.

End EngineFacts.

(** * The evaluator *)

Module EvaluatorFacts.

Import Neat.

Section Forward.

Variable cfg : Config.

Lemma forward_size_ok (g : Genome) (inputs : list Qc) :
  List.length inputs = List.length (input_nodes g) ->
  exists outputs,
    forward cfg g inputs = ok outputs
    /\ List.length outputs = List.length (output_nodes g).
Proof.
  intros Hlen. unfold forward. rewrite Hlen, Nat.eqb_refl.
  eexists; split; [done|]. by rewrite length_map.
Qed.

Lemma forward_size_bad (g : Genome) (inputs : list Qc) :
  List.length inputs <> List.length (input_nodes g) ->
  forward cfg g inputs = raise InvalidInputSize.
Proof.
  intros Hlen. unfold forward.
  by destruct (Nat.eqb_spec (List.length inputs) (List.length (input_nodes g))).
Qed.

(** The scenario of the spec: both inputs at 1 give the activation of
    [1/2 * 1 + 1/2 * 1 = 1]. *)
Lemma forward_two_inputs :
  forward cfg Example.two_inputs [1%Qc; 1%Qc] = ok [activation cfg 1%Qc].
Proof.
  unfold forward; simpl. do 2 f_equal.
  unfold evaluate, max_depth; simpl.
  unfold evaluate_layer; simpl.
  unfold evaluate_node; simpl.
  rewrite lookup_insert_eq; simpl. f_equal.
  apply Qc_is_canon. by vm_compute.
Qed.

End Forward.



End EvaluatorFacts.

(** * Reasoning about the calls a driver makes *)

Module TraceFacts.

Import Neat Py Game Driver.
Local Open Scope drv_scope.

Lemma calls_made_app {Board A} (m : Drv Board A) (s : State Board) l :
  calls (final_state (m s)) = calls s ++ l -> calls_made m s = l.
Proof. intros H. unfold calls_made. rewrite H. apply drop_app_length. Qed.

Lemma traced_calls_made {Board A} (m : Drv Board A) P (s : State Board) :
  traced m P -> P (exited (m s)) (calls_made m s).
Proof.
  intros Hm. destruct (Hm s) as (l & Hl & HP).
  by rewrite (calls_made_app m s l Hl).
Qed.

Section Compose.

Context {Board : Type}.
Variable P : bool -> list Call -> Prop.
Hypothesis HP : compositional P.

Lemma traced_bind {A B} (m : Drv Board A) (k : A -> Drv Board B) :
  traced m P -> (forall a, traced (k a) P) -> traced (bind m k) P.
Proof.
  intros Hm Hk s. destruct (Hm s) as (l1 & Hl1 & HP1).
  unfold bind. destruct (m s) as [a s'|s'|e s']; simpl in *.
  - destruct (Hk a s') as (l2 & Hl2 & HP2).
    exists (l1 ++ l2). split.
    + by rewrite Hl2, Hl1, app_assoc.
    + by apply (comp_app P HP).
  - by exists l1.
  - by exists l1.
Qed.

Lemma quiet_traced {A} (m : Drv Board A) : quiet m -> traced m P.
Proof.
  intros Hm s. destruct (Hm s) as (l & Hl & He & Hh).
  exists l. split; [done|]. rewrite He. by apply (comp_harmless P HP).
Qed.

Lemma traced_seq {A B} (m : Drv Board A) (k : A -> Drv Board B) :
  quiet m -> (forall a, traced (k a) P) -> traced (bind m k) P.
Proof. intros Hm Hk. apply traced_bind; [by apply quiet_traced|done]. Qed.

Lemma traced_when (b : bool) (m : Drv Board unit) :
  traced m P -> traced (when b m) P.
Proof.
  destruct b; [done|]. intros _. apply quiet_traced.
  intros s. exists []. rewrite app_nil_r. by repeat split.
Qed.

Lemma traced_for_each {A} (l : list A) (body : A -> Drv Board unit) :
  (forall a, traced (body a) P) -> traced (for_each l body) P.
Proof.
  intros Hb. induction l as [|a l IH]; simpl.
  - apply quiet_traced. intros s. exists []. rewrite app_nil_r. by repeat split.
  - by apply traced_bind.
Qed.

(** Code that agrees with [m] in every state makes the calls of [m]. *)
Lemma traced_ext {A} (m m' : Drv Board A) :
  (forall s, m s = m' s) -> traced m P -> traced m' P.
Proof. intros He Hm s. rewrite <- He. apply Hm. Qed.

End Compose.

Lemma quiet_compositional :
  compositional (fun e l => e = false /\ Forall (fun c => harmless c = true) l).
Proof.
  split.
  - done.
  - intros e l1 l2 [_ H1] [He H2]. split; [done|]. by apply Forall_app.
Qed.

Section Quiet.

Context {Board : Type}.

Lemma quiet_bind {A B} (m : Drv Board A) (k : A -> Drv Board B) :
  quiet m -> (forall a, quiet (k a)) -> quiet (bind m k).
Proof.
  intros Hm Hk. apply (traced_bind _ quiet_compositional); [done|].
  intros a. apply Hk.
Qed.

(** Code that leaves the log alone and does not close is quiet. *)
Lemma quiet_silent {A} (m : Drv Board A) :
  (forall s, calls (final_state (m s)) = calls s /\ exited (m s) = false) ->
  quiet m.
Proof.
  intros Hm s. destruct (Hm s) as [Hc He].
  exists []. rewrite app_nil_r. by repeat split.
Qed.

Lemma quiet_ret {A} (a : A) : quiet (@ret Board A a).
Proof. by apply quiet_silent. Qed.

Lemma quiet_throw {A} (e : Error) : quiet (@throw Board A e).
Proof. by apply quiet_silent. Qed.

Lemma quiet_lift {A} (r : result A) : quiet (@lift Board A r).
Proof. destruct r; [apply quiet_throw | apply quiet_ret]. Qed.

Lemma quiet_get : quiet (@get Board).
Proof. by apply quiet_silent. Qed.

Lemma quiet_log (c : Call) : harmless c = true -> quiet (@log Board c).
Proof.
  intros Hc s. exists [c]. simpl. repeat split; try done.
  by apply Forall_singleton.
Qed.

Lemma quiet_set_neat player p : quiet (@set_neat Board player p).
Proof. by apply quiet_silent. Qed.

Lemma quiet_set_connect4 c4 : quiet (@set_connect4 Board c4).
Proof. by apply quiet_silent. Qed.

Lemma quiet_set_info i : quiet (@set_info Board i).
Proof. by apply quiet_silent. Qed.

Lemma quiet_set_frame_count n : quiet (@set_frame_count Board n).
Proof. by apply quiet_silent. Qed.

Lemma quiet_set_disk d : quiet (@set_disk Board d).
Proof. by apply quiet_silent. Qed.

Lemma quiet_when (b : bool) (m : Drv Board unit) : quiet m -> quiet (when b m).
Proof. destruct b; [done|]. intros _. apply quiet_ret. Qed.

Lemma quiet_for_each {A} (l : list A) (body : A -> Drv Board unit) :
  (forall a, quiet (body a)) -> quiet (for_each l body).
Proof.
  intros Hb. induction l as [|a l IH]; simpl; [apply quiet_ret|].
  by apply quiet_bind.
Qed.

End Quiet.

(** Take quiet code apart: binds, conditionals and matches down to the
    primitives. *)
Ltac quiet_step :=
  match goal with
  | |- quiet (bind _ _) => apply quiet_bind; [|intros ?]
  | |- quiet (ret _) => apply quiet_ret
  | |- quiet (throw _) => apply quiet_throw
  | |- quiet (lift _) => apply quiet_lift
  | |- quiet get => apply quiet_get
  | |- quiet (log _) => apply quiet_log; reflexivity
  | |- quiet (set_neat _ _) => apply quiet_set_neat
  | |- quiet (set_connect4 _) => apply quiet_set_connect4
  | |- quiet (set_info _) => apply quiet_set_info
  | |- quiet (set_frame_count _) => apply quiet_set_frame_count
  | |- quiet (set_disk _) => apply quiet_set_disk
  | |- quiet (when _ _) => apply quiet_when
  | |- quiet (for_each _ _) => apply quiet_for_each; intros ?
  | |- quiet (if ?b then _ else _) => destruct b
  | |- quiet (match ?x with _ => _ end) => destruct x
  | |- quiet (let (_, _) := ?x in _) => destruct x
  end.

Ltac quiet_auto := repeat quiet_step.

Section QuietCalls.

Context {Board : Type}.
Variable cfg : Config.
Variable G : Ops Board.

Lemma quiet_player_type player : quiet (@player_type Board player).
Proof. unfold player_type. quiet_auto. Qed.

Lemma quiet_neat_entry player : quiet (@neat_entry Board player).
Proof. unfold neat_entry. quiet_auto. Qed.

Lemma quiet_neat_object player : quiet (@neat_object Board player).
Proof.
  unfold neat_object. apply quiet_bind; [apply quiet_neat_entry|].
  intros o. quiet_auto.
Qed.

Lemma quiet_frame_due speed : quiet (@frame_due Board speed).
Proof. unfold frame_due. quiet_auto. Qed.

Lemma quiet_read_best_genome player : quiet (@read_best_genome Board player).
Proof.
  unfold read_best_genome. apply quiet_bind; [apply quiet_neat_object|].
  intros p. quiet_auto.
Qed.

Lemma quiet_write_fitness player f : quiet (@write_fitness Board player f).
Proof.
  unfold write_fitness. apply quiet_bind; [apply quiet_neat_object|].
  intros p. quiet_auto.
Qed.

Lemma quiet_call_nextGenome player name :
  quiet (@call_nextGenome Board cfg player name).
Proof.
  unfold call_nextGenome. apply quiet_bind; [apply quiet_neat_object|].
  intros p. quiet_auto.
Qed.

Lemma quiet_call_getInfo player : quiet (@call_getInfo Board player).
Proof.
  unfold call_getInfo. apply quiet_bind; [apply quiet_neat_object|].
  intros p. quiet_auto.
Qed.

Lemma quiet_play move : quiet (play G move).
Proof. unfold play. quiet_auto. Qed.

Lemma quiet_call_neatMove genome rnd : quiet (call_neatMove cfg G genome rnd).
Proof. unfold call_neatMove. quiet_auto. Qed.

Lemma quiet_set_data key neat_info neat_key :
  quiet (@set_data Board key neat_info neat_key).
Proof. unfold set_data. quiet_auto. Qed.

Lemma quiet_Info_update neat_info : quiet (@Info_update Board neat_info).
Proof.
  unfold Info_update. apply quiet_bind; [apply quiet_get|]. intros s.
  apply quiet_when. repeat (apply quiet_bind; [apply quiet_set_data|intros ?]).
  apply quiet_set_data.
Qed.

Lemma quiet_tick : quiet (@tick Board).
Proof. unfold tick. quiet_auto. Qed.

Lemma quiet_at_generation_start ids : quiet (@at_generation_start Board ids).
Proof.
  induction ids as [|player_id rest IH]; simpl; [apply quiet_ret|].
  apply quiet_bind; [apply quiet_neat_entry|]. intros o.
  destruct o as [p|]; [|done]. destruct (_ && _); [apply quiet_ret|done].
Qed.

Lemma quiet_key_move cp key : quiet (@key_move Board cp key).
Proof.
  unfold key_move. destruct key; [|apply quiet_ret].
  apply quiet_bind; [apply quiet_get|]. intros s.
  destruct (match_ (connect4 s)); [|apply quiet_ret].
  apply quiet_bind; [apply quiet_player_type|]. intros t. apply quiet_ret.
Qed.

End QuietCalls.

End TraceFacts.

(** * [shouldEvolve] and [getGenome] in the two main loops *)

Module MainLoopFacts.

Import Neat Py Game Driver TraceFacts.
Local Open Scope drv_scope.

(** Dispatch quiet code to the lemmas about the single calls. *)
Ltac quiet_solve :=
  repeat first
    [ quiet_step
    | apply quiet_player_type
    | apply quiet_neat_entry
    | apply quiet_neat_object
    | apply quiet_frame_due
    | apply quiet_read_best_genome
    | apply quiet_write_fitness
    | apply quiet_call_nextGenome
    | apply quiet_call_getInfo
    | apply quiet_play
    | apply quiet_call_neatMove
    | apply quiet_Info_update
    | apply quiet_tick
    | apply quiet_at_generation_start
    | apply quiet_key_move ].

(** ** [main.py]: ask, then request *)

Lemma guarded_harmless l :
  Forall (fun c => harmless c = true) l ->
  forall previous, guarded previous l = true.
Proof.
  induction 1 as [|c l Hc _ IH]; intros previous; simpl; [done|].
  rewrite IH. by destruct c.
Qed.

Lemma guarded_any l :
  guarded None l = true -> forall previous, guarded previous l = true.
Proof.
  destruct l as [|c l]; [done|]. simpl. intros H previous.
  destruct c; try done.
Qed.

Lemma guarded_app l1 :
  forall previous l2,
    guarded previous l1 = true -> guarded None l2 = true ->
    guarded previous (l1 ++ l2) = true.
Proof.
  induction l1 as [|c l1 IH]; intros previous l2 H1 H2; simpl in *.
  - by apply guarded_any.
  - apply andb_true_iff in H1 as [Hc H1]. rewrite Hc; simpl. by apply IH.
Qed.

Lemma asks_first_compositional : compositional asks_first.
Proof.
  split.
  - intros l Hl. by apply guarded_harmless.
  - intros e l1 l2 H1 H2. by apply guarded_app.
Qed.

Section MainPy.

Context {Board : Type}.
Variable cfg : Config.
Variable G : Ops Board.

(** The guard of [main.py]: [getGenome] is called in the branch that
    [shouldEvolve] opened, and nowhere else. *)
Lemma guarded_request {B} (c : bool) (player : Z)
    (K : Genome -> Drv Board B) (K' : Drv Board B) :
  (forall g, traced (K g) asks_first) -> traced K' asks_first ->
  traced
    (bind (if c then call_shouldEvolve cfg player else ret false)
       (fun evolving =>
          if evolving then bind (call_getGenome player) K else K'))
    asks_first.
Proof.
  intros HK HK' s. destruct c; [|apply HK'].
  unfold call_shouldEvolve, call_getGenome, neat_object, neat_entry.
  unfold bind, get, log, ret, throw, set_neat; simpl.
  destruct (neats s !! player) as [[p|]|] eqn:Hp; simpl;
    [|exists []; by rewrite app_nil_r..].
  destruct (shouldEvolve cfg p) eqn:He; simpl.
  - rewrite Hp; simpl.
    destruct (getGenome p) as [[e|g] p']; simpl.
    + exists [CallShouldEvolve player true; CallGetGenome player].
      rewrite <- app_assoc. split; [done|].
      unfold asks_first; simpl. by rewrite bool_decide_eq_true_2.
    + match goal with
      | |- context [K g ?s1] =>
          destruct (HK g s1) as (l & Hl & HP); simpl in Hl;
          exists ([CallShouldEvolve player true; CallGetGenome player] ++ l)
      end.
      split.
      * rewrite Hl. by rewrite <- !app_assoc.
      * unfold asks_first in *; simpl.
        rewrite bool_decide_eq_true_2 by done. simpl. by apply guarded_any.
  - match goal with
    | |- context [K' ?s1] =>
        destruct (HK' s1) as (l & Hl & HP); simpl in Hl;
        exists ([CallShouldEvolve player false] ++ l)
    end.
    split.
    + rewrite Hl. by rewrite <- !app_assoc.
    + unfold asks_first in *; simpl. by apply guarded_any.
Qed.

Lemma bind_ext {A B} (m : Drv Board A) (k k' : A -> Drv Board B) s :
  (forall a s', k a s' = k' a s') -> bind m k s = bind m k' s.
Proof. intros Hk. unfold bind. by destruct (m s). Qed.

Lemma quiet_player_id_of player : quiet (@MainDriver.player_id_of Board player).
Proof. unfold MainDriver.player_id_of. quiet_solve. Qed.

Lemma quiet_main_getSpeedShow current_player :
  quiet (@MainDriver.getSpeedShow Board current_player).
Proof.
  unfold MainDriver.getSpeedShow.
  repeat first [ apply quiet_player_id_of | quiet_solve ].
Qed.

Lemma main_match_turn_asks_first current_player speed show possible_move rnd :
  traced (MainDriver.match_turn cfg G current_player speed show possible_move rnd)
    asks_first.
Proof.
  unfold MainDriver.match_turn.
  apply (traced_seq _ asks_first_compositional); [quiet_solve|]. intros s.
  apply (traced_when _ asks_first_compositional).
  apply (traced_seq _ asks_first_compositional); [quiet_solve|]. intros t.
  destruct (bool_decide (t <> "Human"));
    [|apply (quiet_traced _ asks_first_compositional); quiet_solve].
  apply (traced_seq _ asks_first_compositional); [quiet_solve|]. intros due.
  apply (traced_when _ asks_first_compositional).
  apply (traced_seq _ asks_first_compositional); [quiet_solve|]. intros _.
  eapply traced_ext.
  2: { apply (guarded_request (bool_decide (t = "NEAT")) current_player
                (fun g =>
                   bind (call_neatMove cfg G (Some g) rnd) (fun move =>
                   bind (play G move) (fun result =>
                     when (show && MainDriver.display)
                       (bind (call_getInfo current_player) Info_update))))
                (bind (read_best_genome current_player) (fun current_genome =>
                   bind (call_neatMove cfg G current_genome rnd) (fun move =>
                   bind (play G move) (fun result =>
                     when (show && MainDriver.display)
                       (bind (call_getInfo current_player) Info_update)))))).
       - intros g. apply (quiet_traced _ asks_first_compositional). quiet_solve.
       - apply (quiet_traced _ asks_first_compositional). quiet_solve. }
  intros s0. apply bind_ext. intros [] s1; [|done].
  unfold bind, ret. by destruct (call_getGenome current_player s1).
Qed.

Lemma main_score_player_asks_first fitness i_player_key :
  traced (@MainDriver.score_player Board cfg fitness i_player_key) asks_first.
Proof.
  unfold MainDriver.score_player. destruct i_player_key as [i player_key].
  apply (traced_seq _ asks_first_compositional); [quiet_solve|]. intros t.
  eapply traced_ext.
  2: { apply (guarded_request (bool_decide (t = "NEAT")) player_key
                (fun g =>
                   bind (lift (list_item fitness (Z.of_nat i))) (fun f =>
                   bind (write_fitness player_key f) (fun _ =>
                     call_nextGenome cfg player_key
                       ("ai_" ++ str player_key)%string)))
                (ret tt)).
       - intros g. apply (quiet_traced _ asks_first_compositional). quiet_solve.
       - apply (quiet_traced _ asks_first_compositional). quiet_solve. }
  intros s0. apply bind_ext. by intros [] s1.
Qed.

Lemma main_end_of_match_asks_first current_player speed :
  traced (MainDriver.end_of_match cfg G current_player speed) asks_first.
Proof.
  unfold MainDriver.end_of_match.
  apply (traced_seq _ asks_first_compositional); [quiet_solve|]. intros s.
  apply (traced_when _ asks_first_compositional).
  apply (traced_seq _ asks_first_compositional); [quiet_solve|]. intros due.
  apply (traced_when _ asks_first_compositional).
  apply (traced_seq _ asks_first_compositional); [apply quiet_player_id_of|].
  intros other.
  apply (traced_bind _ asks_first_compositional).
  - apply (traced_for_each _ asks_first_compositional).
    intros a. apply main_score_player_asks_first.
  - intros _. apply (quiet_traced _ asks_first_compositional). quiet_solve.
Qed.

Lemma main_iteration_asks_first key rnd :
  traced (MainDriver.main_iteration cfg G key rnd) asks_first.
Proof.
  unfold MainDriver.main_iteration.
  apply (traced_seq _ asks_first_compositional); [quiet_solve|]. intros s.
  apply (traced_seq _ asks_first_compositional); [apply quiet_player_id_of|].
  intros current_player.
  apply (traced_seq _ asks_first_compositional);
    [apply quiet_main_getSpeedShow|]. intros speed_show.
  apply (traced_seq _ asks_first_compositional); [quiet_solve|].
  intros possible_move.
  apply (traced_bind _ asks_first_compositional);
    [apply main_match_turn_asks_first|]. intros _.
  apply (traced_bind _ asks_first_compositional);
    [apply main_end_of_match_asks_first|]. intros _.
  apply (quiet_traced _ asks_first_compositional). quiet_solve.
Qed.

End MainPy.

(** ** [connect4.py]: request, then ask *)

Lemma went_on_harmless l :
  Forall (fun c => harmless c = true) l ->
  forall previous, asked_and_went_on previous l = true.
Proof.
  induction 1 as [|c l Hc _ IH]; intros previous; simpl; [done|].
  rewrite IH. by destruct c.
Qed.

Lemma went_on_any l :
  asked_and_went_on None l = true ->
  forall previous, asked_and_went_on previous l = true.
Proof.
  destruct l as [|c l]; [done|]. simpl. intros H previous. by destruct c.
Qed.

Lemma asked_any l :
  asked_after_request None l = true ->
  forall previous, asked_after_request previous l = true.
Proof.
  destruct l as [|c l]; [done|]. simpl. intros H previous. by destruct c.
Qed.

Lemma went_on_app l1 :
  forall previous l2,
    asked_and_went_on previous l1 = true ->
    asked_and_went_on None l2 = true ->
    asked_and_went_on previous (l1 ++ l2) = true.
Proof.
  induction l1 as [|c l1 IH]; intros previous l2 H1 H2; simpl in *.
  - by apply went_on_any.
  - apply andb_true_iff in H1 as [Hc H1]. rewrite Hc; simpl. by apply IH.
Qed.

Lemma went_on_asked_app l1 :
  forall previous l2,
    asked_and_went_on previous l1 = true ->
    asked_after_request None l2 = true ->
    asked_after_request previous (l1 ++ l2) = true.
Proof.
  induction l1 as [|c l1 IH]; intros previous l2 H1 H2; simpl in *.
  - by apply asked_any.
  - apply andb_true_iff in H1 as [Hc H1].
    rewrite (IH _ _ H1 H2), andb_true_r.
    destruct c; try done.
    destruct previous as [[]|]; try done.
    apply andb_true_iff in Hc as [-> ->]. done.
Qed.

Lemma requests_first_compositional : compositional requests_first.
Proof.
  split.
  - intros l Hl. by apply went_on_harmless.
  - intros [] l1 l2 H1 H2; unfold requests_first in *.
    + by apply went_on_asked_app.
    + by apply went_on_app.
Qed.

Section Connect4Py.

Context {Board : Type}.
Variable cfg : Config.
Variable G : Ops Board.

Lemma traced_call_getGenome player :
  traced (@call_getGenome Board player) requests_first.
Proof.
  intros s.
  unfold call_getGenome, neat_object, neat_entry, bind, get, log, ret, throw.
  destruct (neats s !! player) as [[p|]|]; simpl;
    [|exists []; by rewrite app_nil_r..].
  exists [CallGetGenome player].
  by destruct (getGenome p) as [[e|g] p'].
Qed.

(** The order of [connect4.py] on a computer player's turn: the genome
    is read, then [shouldEvolve] is asked, and a false answer for a
    NEAT player closes the program. *)
Lemma request_then_ask {B} (t : string) (cp : Z)
    (K : option Genome -> Drv Board B) :
  (forall g, traced (K g) requests_first) ->
  traced
    (bind
       (if bool_decide (t = "NEAT")
        then bind (call_getGenome cp) (fun g => ret (Some g))
        else read_best_genome cp)
       (fun current_genome =>
          bind (call_shouldEvolve cfg cp) (fun evolve =>
          bind (when (negb evolve && bool_decide (t = "NEAT"))
                  Connect4Driver.close)
            (fun _ => K current_genome))))
    requests_first.
Proof.
  intros HK s. destruct (bool_decide (t = "NEAT")).
  - unfold call_getGenome, call_shouldEvolve, neat_object, neat_entry.
    unfold Connect4Driver.close, when, exit.
    unfold bind, get, log, ret, throw, set_neat, lift; simpl.
    destruct (neats s !! cp) as [[p|]|] eqn:Hp; simpl;
      [|exists []; by rewrite app_nil_r..].
    destruct (getGenome p) as [[e|g] p']; simpl.
    { by exists [CallGetGenome cp]. }
    rewrite lookup_insert_eq; simpl.
    destruct (shouldEvolve cfg p'); simpl.
    + match goal with
      | |- context [K (Some g) ?s1] =>
          destruct (HK (Some g) s1) as (l & Hl & HP); simpl in Hl;
          exists ([CallGetGenome cp; CallShouldEvolve cp true] ++ l)
      end.
      split; [rewrite Hl; by rewrite <- !app_assoc|].
      apply (comp_app _ requests_first_compositional); [|done].
      unfold requests_first; simpl. by rewrite bool_decide_eq_true_2.
    + exists [CallGetGenome cp; CallShouldEvolve cp false; CallClose].
      split; [by rewrite <- !app_assoc|].
      unfold requests_first; simpl. by rewrite !bool_decide_eq_true_2.
  - unfold read_best_genome, call_shouldEvolve, neat_object, neat_entry.
    unfold when.
    unfold bind, get, log, ret, throw; simpl.
    destruct (neats s !! cp) as [[p|]|] eqn:Hp; simpl;
      [|exists []; by rewrite app_nil_r..].
    rewrite Hp; simpl. rewrite andb_false_r.
    match goal with
    | |- context [K (best_genome p) ?s1] =>
        destruct (HK (best_genome p) s1) as (l & Hl & HP); simpl in Hl;
        exists ([CallBestGenome cp; CallShouldEvolve cp (shouldEvolve cfg p)] ++ l)
    end.
    split; [rewrite Hl; by rewrite <- !app_assoc|].
    apply (comp_app _ requests_first_compositional); [|done].
    unfold requests_first; simpl. by rewrite bool_decide_eq_true_2.
Qed.

Lemma quiet_connect4_getSpeedShow cp :
  quiet (@Connect4Driver.getSpeedShow Board cp).
Proof. unfold Connect4Driver.getSpeedShow. quiet_solve. Qed.

Lemma connect4_match_turn_requests_first cp speed show possible_move rnd :
  traced (Connect4Driver.match_turn cfg G cp speed show possible_move rnd)
    requests_first.
Proof.
  unfold Connect4Driver.match_turn.
  apply (traced_seq _ requests_first_compositional); [quiet_solve|]. intros s.
  destruct (match_ (connect4 s));
    [|apply (quiet_traced _ requests_first_compositional); quiet_solve].
  apply (traced_seq _ requests_first_compositional); [quiet_solve|]. intros t.
  destruct (bool_decide (t <> "Human"));
    [|apply (quiet_traced _ requests_first_compositional); quiet_solve].
  apply (traced_seq _ requests_first_compositional); [quiet_solve|]. intros due.
  destruct due;
    [|apply (quiet_traced _ requests_first_compositional); quiet_solve].
  apply (traced_seq _ requests_first_compositional); [quiet_solve|]. intros _.
  apply request_then_ask. intros g.
  apply (quiet_traced _ requests_first_compositional). quiet_solve.
Qed.

Lemma connect4_score_player_requests_first result player_key :
  traced (@Connect4Driver.score_player Board cfg result player_key)
    requests_first.
Proof.
  unfold Connect4Driver.score_player.
  apply (traced_seq _ requests_first_compositional); [quiet_solve|]. intros t.
  apply (traced_when _ requests_first_compositional).
  apply (traced_bind _ requests_first_compositional);
    [apply traced_call_getGenome|]. intros g.
  apply (quiet_traced _ requests_first_compositional). quiet_solve.
Qed.

Lemma connect4_end_of_match_requests_first cp speed result :
  traced (Connect4Driver.end_of_match cfg G cp speed result) requests_first.
Proof.
  unfold Connect4Driver.end_of_match.
  apply (traced_seq _ requests_first_compositional); [quiet_solve|]. intros s.
  apply (traced_when _ requests_first_compositional).
  apply (traced_seq _ requests_first_compositional); [quiet_solve|]. intros due.
  apply (traced_when _ requests_first_compositional).
  apply (traced_bind _ requests_first_compositional).
  - apply (traced_for_each _ requests_first_compositional).
    intros a. apply connect4_score_player_requests_first.
  - intros _. apply (quiet_traced _ requests_first_compositional). quiet_solve.
Qed.

Lemma connect4_iteration_requests_first key rnd :
  traced (Connect4Driver.main_iteration cfg G key rnd) requests_first.
Proof.
  unfold Connect4Driver.main_iteration.
  apply (traced_seq _ requests_first_compositional); [quiet_solve|]. intros s.
  apply (traced_seq _ requests_first_compositional); [quiet_solve|]. intros cp.
  apply (traced_seq _ requests_first_compositional);
    [apply quiet_connect4_getSpeedShow|]. intros speed_show.
  apply (traced_seq _ requests_first_compositional); [quiet_solve|].
  intros possible_move.
  apply (traced_bind _ requests_first_compositional);
    [apply connect4_match_turn_requests_first|]. intros result.
  apply (traced_bind _ requests_first_compositional);
    [apply connect4_end_of_match_requests_first|]. intros _.
  apply (quiet_traced _ requests_first_compositional). quiet_solve.
Qed.

End Connect4Py.

End MainLoopFacts.

(** * The drivers on the small game *)

Module ExampleRuns.

Import Neat Py Game Driver.

(** One iteration of [connect4.py] in which player 1 moves and wins
    after seven turns: the genome is requested before [shouldEvolve] is
    asked, and both players are scored 100 - 7. *)
Lemma connect4_running :
  calls_made (Connect4Driver.main_iteration Example.cfg Example.ops None 0)
    Example.running
  = [CallGetGenome 1; CallShouldEvolve 1 true; CallPlay 0; CallGetInfo 1;
     CallGetGenome 1; CallSetFitness 1 (Qc_of_Z 93); CallNextGenome 1 "ai_1";
     CallGetGenome 2; CallSetFitness 2 (Qc_of_Z 93); CallNextGenome 2 "ai_2"].
Proof. by vm_compute. Qed.

(** The same iteration once [player_ids] is reversed: player 2 sits at
    position 1 of the game, moves and wins; player 2 is scored twice,
    player 1 not at all. *)
Lemma connect4_swapped :
  calls_made (Connect4Driver.main_iteration Example.cfg Example.ops None 0)
    Example.swapped
  = [CallGetGenome 2; CallShouldEvolve 2 true; CallPlay 0; CallGetInfo 2;
     CallGetGenome 2; CallSetFitness 2 (Qc_of_Z 93); CallNextGenome 2 "ai_2";
     CallGetGenome 2; CallSetFitness 2 (Qc_of_Z 93); CallNextGenome 2 "ai_2"].
Proof. by vm_compute. Qed.

(** When the evolution is over, [connect4.py] still requests the genome,
    then asks, then closes. *)
Lemma connect4_finished :
  calls_made
    (Connect4Driver.main_iteration Example.cfg_finished Example.ops None 0)
    Example.finished
  = [CallGetGenome 1; CallShouldEvolve 1 false; CallClose]
  /\ exited
       (Connect4Driver.main_iteration Example.cfg_finished Example.ops None 0
          Example.finished)
     = true.
Proof. by vm_compute. Qed.

(** The same iteration in [main.py]: each player is asked before its
    genome is requested and gets its own entry of the game's fitness
    list. *)
Lemma main_running :
  calls_made (MainDriver.main_iteration Example.cfg Example.ops None 0)
    Example.running
  = [CallShouldEvolve 1 true; CallGetGenome 1; CallPlay 0; CallGetInfo 1;
     CallShouldEvolve 1 true; CallGetGenome 1; CallSetFitness 1 (Qc_of_Z 1);
     CallNextGenome 1 "ai_1"; CallShouldEvolve 2 true; CallGetGenome 2;
     CallSetFitness 2 (Qc_of_Z (-1)); CallNextGenome 2 "ai_2"].
Proof. by vm_compute. Qed.

End ExampleRuns.

(** * C1: who asks [shouldEvolve] before requesting a genome *)

Module C1.

Import Neat Py Game Driver TraceFacts MainLoopFacts.

(** C1 as stated fails for [connect4.py]: in the iteration above
    [getGenome] is called on the population of player 2 and
    [shouldEvolve] has not returned true for it, neither directly
    before nor anywhere in the iteration. *)
Lemma connect4_requests_without_asking :
  let trace :=
    calls_made (Connect4Driver.main_iteration Example.cfg Example.ops None 0)
      Example.running in
  guarded None trace = false
  /\ In (CallGetGenome 2) trace
  /\ ~ In (CallShouldEvolve 2 true) trace.
Proof.
  cbv zeta. rewrite ExampleRuns.connect4_running. split; [by vm_compute|]. split.
  - simpl. tauto.
  - simpl. intros H. repeat destruct H as [H|H]; try discriminate H. done.
Qed.

(** C1, amended.  In [main.py] every iteration calls [getGenome] on a
    population only directly after [shouldEvolve] has returned true for
    it.  In [connect4.py] the order is the other way round: whenever
    [shouldEvolve] is asked, the genome of that player has been read
    directly before ([getGenome] for a NEAT player), and if the answer
    after a [getGenome] is false the driver closes at once; scoring a
    finished match requests genomes without asking. *)
Theorem shouldEvolve_and_getGenome (Board : Type) (cfg : Config)
    (G : Ops Board) (key : option Z) (rnd : nat) (s : State Board) :
  guarded None (calls_made (MainDriver.main_iteration cfg G key rnd) s) = true
  /\ requests_first
       (exited (Connect4Driver.main_iteration cfg G key rnd s))
       (calls_made (Connect4Driver.main_iteration cfg G key rnd) s).
Proof.
  split.
  - apply (traced_calls_made _ asks_first s), main_iteration_asks_first.
  - apply traced_calls_made, connect4_iteration_requests_first.
Qed.

End C1.

(** * Scoring a finished match *)

Module ScoringFacts.

Import Neat Py Game Driver TraceFacts.
Local Open Scope drv_scope.

Lemma fitness_written_app l1 l2 :
  fitness_written (l1 ++ l2) = fitness_written l1 ++ fitness_written l2.
Proof. apply omap_app. Qed.

Lemma players_scored_app l1 l2 :
  players_scored (l1 ++ l2) = players_scored l1 ++ players_scored l2.
Proof. apply omap_app. Qed.

Section Connect4Py.

Context {Board : Type}.
Variable cfg : Config.
Variable G : Ops Board.

(** [calculateFitness] case by case. *)
Lemma calculateFitness_cases (c4 : Connect4 Board) (result : option Z) :
  Connect4Driver.calculateFitness c4 result
  = (if bool_decide (result = Some (current_player c4)) then 100
     else if bool_decide (result = Some 0) then 25
     else if bool_decide (result = Some (opponent c4)) then -100
     else 0)
    - turn c4.
Proof. unfold Connect4Driver.calculateFitness. by repeat case_bool_decide. Qed.

(** What one round of the scoring loop of [connect4.py] does: it leaves
    the game alone, never closes, and if it writes a fitness, it writes
    [calculateFitness(result)] to [player_key]. *)
Lemma connect4_score_player_effect (result : option Z) (player_key : Z)
    (s : State Board) :
  let r := @Connect4Driver.score_player Board cfg result player_key s in
  connect4 (final_state r) = connect4 s
  /\ exited r = false
  /\ exists l,
       calls (final_state r) = calls s ++ l
       /\ Forall
            (fun f =>
               f = Qc_of_Z (Connect4Driver.calculateFitness (connect4 s) result))
            (fitness_written l)
       /\ Forall (fun p => p = player_key) (players_scored l).
Proof.
  cbv zeta. unfold Connect4Driver.score_player.
  unfold player_type, when, call_getGenome, write_fitness, call_nextGenome.
  unfold neat_object, neat_entry.
  unfold bind, get, log, ret, throw, set_neat, set_disk, lift; simpl.
  destruct (players s !! player_key) as [t|]; simpl;
    [|repeat split; exists []; by rewrite app_nil_r].
  destruct (bool_decide (t = "NEAT")); simpl;
    [|repeat split; exists []; by rewrite app_nil_r].
  destruct (neats s !! player_key) as [[p|]|]; simpl;
    [|repeat split; exists []; by rewrite app_nil_r..].
  destruct (getGenome p) as [[e|g] p']; simpl.
  { repeat split. by exists [CallGetGenome player_key]. }
  rewrite lookup_insert_eq; simpl. rewrite lookup_insert_eq; simpl.
  destruct (nextGenome cfg _ _ _) as [p2 d2]; simpl.
  repeat split.
  eexists [CallGetGenome player_key; CallSetFitness player_key _;
           CallNextGenome player_key _].
  split; [by rewrite <- !app_assoc|].
  split; simpl; by repeat constructor.
Qed.

(** The scoring loop over a list of player keys. *)
Lemma connect4_scoring_loop (result : option Z) (keys : list Z) :
  forall s : State Board,
    let r := for_each keys (@Connect4Driver.score_player Board cfg result) s in
    connect4 (final_state r) = connect4 s
    /\ exists l,
         calls (final_state r) = calls s ++ l
         /\ Forall
              (fun f =>
                 f = Qc_of_Z (Connect4Driver.calculateFitness (connect4 s) result))
              (fitness_written l)
         /\ Forall (fun p => In p keys) (players_scored l).
Proof.
  induction keys as [|k keys IH]; intros s; cbv zeta; simpl.
  { split; [done|]. exists []. by rewrite app_nil_r. }
  destruct (connect4_score_player_effect result k s)
    as (Hc4 & Hex & l1 & Hl1 & Hf1 & Hp1).
  unfold bind.
  destruct (Connect4Driver.score_player cfg result k s) as [[] s1|s1|e s1];
    simpl in *; [|done|].
  - destruct (IH s1) as (Hc4' & l2 & Hl2 & Hf2 & Hp2).
    split; [congruence|]. exists (l1 ++ l2).
    split; [by rewrite Hl2, Hl1, app_assoc|].
    rewrite fitness_written_app, players_scored_app, !Forall_app.
    rewrite Hc4 in Hf2. repeat split; try done.
    + eapply Forall_impl; [apply Hp1|]. intros p ->. by left.
    + eapply Forall_impl; [apply Hp2|]. intros p Hp. by right.
  - split; [done|]. exists l1. repeat split; try done.
    eapply Forall_impl; [apply Hp1|]. intros p ->. by left.
Qed.

(** The scoring block of [connect4.py] writes one value only,
    [calculateFitness(result)] on the game as it stands, and writes it
    to the players [cp] and [connect4.opponent]. *)
Lemma connect4_end_of_match_fitness (cp speed : Z) (result : option Z)
    (s : State Board) :
  let trace := calls_made (Connect4Driver.end_of_match cfg G cp speed result) s in
  Forall
    (fun f => f = Qc_of_Z (Connect4Driver.calculateFitness (connect4 s) result))
    (fitness_written trace)
  /\ Forall (fun p => p = cp \/ p = opponent (connect4 s)) (players_scored trace).
Proof.
  cbv zeta. unfold calls_made.
  cbv beta iota delta [Connect4Driver.end_of_match bind get when frame_due ret throw].
  assert (Hnone :
    Forall
      (fun f => f = Qc_of_Z (Connect4Driver.calculateFitness (connect4 s) result))
      (fitness_written (drop (List.length (calls s)) (calls s)))
    /\ Forall (fun p => p = cp \/ p = opponent (connect4 s))
         (players_scored (drop (List.length (calls s)) (calls s)))).
  { rewrite drop_all. by split; constructor. }
  destruct (match_ (connect4 s)); cbn [negb final_state]; [done|].
  destruct (speed =? 0); cbn [final_state]; [done|].
  destruct (bool_decide _); cbn [final_state]; [|done].
  destruct (connect4_scoring_loop result [cp; opponent (connect4 s)] s)
    as (_ & l & Hl & Hf & Hp).
  assert (Hcalls :
    calls
      (final_state
         match
           for_each [cp; opponent (connect4 s)]
             (Connect4Driver.score_player cfg result) s
         with
         | Return _ s'0 =>
             match
               set_connect4
                 (set_player_ids (rev (player_ids (connect4 s'0))) (connect4 s'0))
                 s'0
             with
             | Return _ s'1 => set_connect4 (connect4_reset G (connect4 s'1)) s'1
             | Exit s'1 => Exit s'1
             | Raise e s'1 => Raise e s'1
             end
         | Exit s'0 => Exit s'0
         | Raise e s'0 => Raise e s'0
         end)
    = calls s ++ l).
  { rewrite <- Hl. by destruct (for_each _ _ s). }
  rewrite Hcalls, drop_app_length. split; [done|].
  eapply Forall_impl; [apply Hp|]. simpl. intros p [<-|[<-|[]]]; auto.
Qed.

End Connect4Py.

Section MainPy.

Context {Board : Type}.
Variable cfg : Config.
Variable G : Ops Board.

Lemma list_item_In {A} (l : list A) (i : Z) (a : A) :
  list_item l i = ok a -> In a l.
Proof.
  unfold list_item. destruct (_ && _); [|done].
  destruct (l !! _) as [a'|] eqn:Ha; [|done].
  intros [= <-]. apply list_elem_of_In. by eapply list_elem_of_lookup_2.
Qed.

(** One round of the scoring loop of [main.py]: a fitness written is an
    entry of the list the game handed out. *)
Lemma main_score_player_effect (fitness : list Qc) (i_player_key : nat * Z)
    (s : State Board) :
  let r := @MainDriver.score_player Board cfg fitness i_player_key s in
  exists l,
    calls (final_state r) = calls s ++ l
    /\ Forall (fun f => In f fitness) (fitness_written l).
Proof.
  cbv zeta. destruct i_player_key as [i player_key].
  unfold MainDriver.score_player.
  unfold player_type, when, call_shouldEvolve, call_getGenome, write_fitness.
  unfold call_nextGenome, neat_object, neat_entry.
  unfold bind, get, log, ret, throw, set_neat, set_disk; simpl.
  destruct (players s !! player_key) as [t|]; simpl;
    [|exists []; by rewrite app_nil_r].
  destruct (bool_decide (t = "NEAT")); simpl;
    [|exists []; by rewrite app_nil_r].
  destruct (neats s !! player_key) as [[p|]|] eqn:Hp; simpl;
    [|exists []; by rewrite app_nil_r..].
  destruct (shouldEvolve cfg p); simpl;
    [|by exists [CallShouldEvolve player_key false]].
  rewrite Hp; simpl.
  destruct (getGenome p) as [[e|g] p']; simpl.
  { exists [CallShouldEvolve player_key true; CallGetGenome player_key].
    by rewrite <- !app_assoc. }
  destruct (list_item fitness (Z.of_nat i)) as [e|f] eqn:Hf; simpl.
  { exists [CallShouldEvolve player_key true; CallGetGenome player_key].
    by rewrite <- !app_assoc. }
  rewrite lookup_insert_eq; simpl. rewrite lookup_insert_eq; simpl.
  destruct (nextGenome cfg _ _ _) as [p2 d2]; simpl.
  eexists [CallShouldEvolve player_key true; CallGetGenome player_key;
           CallSetFitness player_key f; CallNextGenome player_key _].
  split; [by rewrite <- !app_assoc|].
  simpl. repeat constructor. by eapply list_item_In.
Qed.

Lemma main_scoring_loop (fitness : list Qc) (keys : list (nat * Z)) :
  forall s : State Board,
    let r := for_each keys (@MainDriver.score_player Board cfg fitness) s in
    exists l,
      calls (final_state r) = calls s ++ l
      /\ Forall (fun f => In f fitness) (fitness_written l).
Proof.
  induction keys as [|k keys IH]; intros s; cbv zeta; simpl.
  { exists []. by rewrite app_nil_r. }
  destruct (main_score_player_effect fitness k s) as (l1 & Hl1 & Hf1).
  unfold bind.
  destruct (MainDriver.score_player cfg fitness k s) as [[] s1|s1|e s1];
    simpl in *; [|by exists l1..].
  destruct (IH s1) as (l2 & Hl2 & Hf2).
  exists (l1 ++ l2). split; [by rewrite Hl2, Hl1, app_assoc|].
  rewrite fitness_written_app. by apply Forall_app.
Qed.

(** The scoring block of [main.py] writes entries of
    [connect4.fitnessEvaluation()] only. *)
Lemma main_end_of_match_fitness (current_player speed : Z) (s : State Board) :
  Forall (fun f => In f (fitnessEvaluation G (connect4 s)))
    (fitness_written
       (calls_made (MainDriver.end_of_match cfg G current_player speed) s)).
Proof.
  unfold calls_made.
  cbv beta iota delta
    [MainDriver.end_of_match MainDriver.player_id_of bind get when frame_due
     ret throw].
  assert (Hnone :
    Forall (fun f => In f (fitnessEvaluation G (connect4 s)))
      (fitness_written (drop (List.length (calls s)) (calls s)))).
  { rewrite drop_all. constructor. }
  destruct (match_ (connect4 s)); cbn [negb final_state]; [done|].
  destruct (speed =? 0); cbn [final_state]; [done|].
  destruct (bool_decide _); cbn [final_state]; [|done].
  destruct (PLAYERS (connect4 s) !! opponent (connect4 s)) as [other|];
    cbn [final_state]; [|done].
  destruct
    (main_scoring_loop (fitnessEvaluation G (connect4 s))
       [(0%nat, current_player); (1%nat, other)] s) as (l & Hl & Hf).
  match goal with
  | |- context [calls (final_state ?r)] =>
      assert (Hcalls : calls (final_state r) = calls s ++ l)
        by (rewrite <- Hl; by destruct (for_each _ _ s))
  end.
  by rewrite Hcalls, drop_app_length.
Qed.

End MainPy.

End ScoringFacts.

(** * C2 and C8: the fitness a finished match gives *)

Module C2.

Import Neat Py Game Driver ScoringFacts.

Lemma nextGenome_species (cfg : Config) (name : string) (p : Population)
    (d : Disk) :
  species (nextGenome cfg name p d).1 = species p
  \/ nextGenome cfg name p d = end_of_generation cfg name (record_best p) d.
Proof.
  unfold nextGenome.
  destruct (species (record_best p) !! _) as [s|]; [|by right].
  destruct (_ <? _)%nat; [left|].
  { simpl. apply EngineFacts.record_best_frame. }
  destruct (_ <? _)%nat; [left|by right].
  simpl. apply EngineFacts.record_best_frame.
Qed.

(** C2 as stated fails for the second genome scored.  Player 1 moves
    and wins after seven turns; player 2, who sits at player number 2
    and lost, should get -100 - 7 by the claim, and is scored
    100 - 7 like the winner. *)
Lemma loser_is_scored_as_winner :
  let trace :=
    calls_made (Connect4Driver.main_iteration Example.cfg Example.ops None 0)
      Example.running in
  In (CallSetFitness 2 (Qc_of_Z 93)) trace
  /\ fitness_written trace = [Qc_of_Z 93; Qc_of_Z 93]
  /\ Connect4Driver.claimed_fitness 2 (Some 1) 7 = -107
  /\ Qc_of_Z 93 <> Qc_of_Z (Connect4Driver.claimed_fitness 2 (Some 1) 7).
Proof.
  cbv zeta. rewrite ExampleRuns.connect4_running.
  split; [simpl; tauto|]. split; [done|]. split; [done|].
  intros H. by apply Z2Qc_inj in H.
Qed.

(** C2, amended.  The fitness a driver assigns is computed outside the
    engine.  In [connect4.py] it is [calculateFitness(result)]: +100 if
    the result is the game's current player, +25 if it is 0, -100 if it
    is the game's opponent, nothing otherwise, minus the number of
    turns; every genome scored for the match gets this one value.  In
    [main.py] it is an entry of the game's [fitnessEvaluation()].  The
    engine writes no fitness: [getGenome] and [getInfo] leave the
    population as it is, and [nextGenome] leaves the species as they
    are unless it reproduces the generation. *)
Theorem fitness_comes_from_the_driver (Board : Type) (cfg : Config)
    (G : Ops Board) (cp speed : Z) (result : option Z) (s : State Board)
    (name : string) (p : Population) (d : Disk) :
  Connect4Driver.calculateFitness (connect4 s) result
  = (if bool_decide (result = Some (current_player (connect4 s))) then 100
     else if bool_decide (result = Some 0) then 25
     else if bool_decide (result = Some (opponent (connect4 s))) then -100
     else 0)
    - turn (connect4 s)
  /\ Forall
       (fun f =>
          f = Qc_of_Z (Connect4Driver.calculateFitness (connect4 s) result))
       (fitness_written
          (calls_made (Connect4Driver.end_of_match cfg G cp speed result) s))
  /\ Forall (fun f => In f (fitnessEvaluation G (connect4 s)))
       (fitness_written
          (calls_made (MainDriver.end_of_match cfg G cp speed) s))
  /\ (getGenome p).2 = p
  /\ (getInfo p).2 = p
  /\ (species (nextGenome cfg name p d).1 = species p
      \/ nextGenome cfg name p d
         = end_of_generation cfg name (record_best p) d).
Proof.
  split; [apply calculateFitness_cases|].
  split; [apply connect4_end_of_match_fitness|].
  split; [apply main_end_of_match_fitness|].
  split; [apply EngineFacts.getGenome_state|].
  split; [done|]. apply nextGenome_species.
Qed.

End C2.

Module C8.

Import Neat Py Game Driver ScoringFacts.

(** C8 at the input where [connect4.py] departs from it.  With
    [player_ids] in the initial order both players are scored; once the
    driver has reversed [player_ids], the scoring loop over
    [[cp, connect4.opponent]] names player 2 twice: two genomes of
    player 2 are scored for the one match, none of player 1. *)
Theorem swapped_ids_score_one_player_twice :
  players_scored
    (calls_made (Connect4Driver.main_iteration Example.cfg Example.ops None 0)
       Example.running)
  = [1; 2]
  /\ players_scored
       (calls_made (Connect4Driver.main_iteration Example.cfg Example.ops None 0)
          Example.swapped)
     = [2; 2].
Proof. by rewrite ExampleRuns.connect4_running, ExampleRuns.connect4_swapped. Qed.

End C8.

(** * C10: [setupAi] loads existing files only *)

Module C10.

Import Neat Py Game Driver TraceFacts.
Local Open Scope drv_scope.

Lemma append_assoc (a b c : string) :
  ((a ++ b) ++ c = a ++ b ++ c)%string.
Proof.
  induction a as [|x a IH]; [reflexivity|].
  change (String x ((a ++ b) ++ c) = String x (a ++ b ++ c))%string.
  by f_equal.
Qed.

(** The file [load] opens for a name is the file [isfile] was asked
    about. *)
Lemma neat_file_checked (directory name : string) :
  neat_file directory name
  = (directory ++ backslash ++ name ++ ".neat")%string.
Proof. done. Qed.

(** [load] reports a missing file for a missing file only. *)
Lemma load_population_found (path : string) (d : Disk) :
  is_Some (d !! path) -> load_population path d <> raise MissingSaveFile.
Proof.
  intros [ts Hts]. unfold load_population, load. rewrite Hts.
  destruct (p_saved ts) as [[[p|g] [|t rest]]|]; done.
Qed.

Section SetupAi.

Context {Board : Type}.
Variable cfg : Config.
Variable DIRECTORY : string.

Lemma load_outcome (name directory : string) (s : State Board) :
  is_Some (disk s !! neat_file directory name) ->
  forall inputs outputs n,
    setup_outcome cfg inputs outputs n s
      (Connect4Driver.call_load name directory s)
      (calls_made (Connect4Driver.call_load name directory) s).
Proof.
  intros Hfile inputs outputs n. right; left.
  exists (neat_file directory name).
  pose proof (load_population_found _ _ Hfile) as Hload.
  unfold calls_made, Connect4Driver.call_load, load_named.
  unfold bind, get, log, lift, ret, throw; simpl.
  destruct (load_population _ _) as [e|p]; simpl; rewrite drop_app_length;
    repeat split; try done.
  intros [= ->]. by apply Hload.
Qed.

Lemma connect4_setupAi_outcome (player_id : Z) (inputs outputs : nat)
    (s : State Board) :
  setup_outcome cfg inputs outputs 50 s
    (Connect4Driver.setupAi cfg DIRECTORY player_id inputs outputs s)
    (calls_made (Connect4Driver.setupAi cfg DIRECTORY player_id inputs outputs) s).
Proof.
  unfold calls_made, Connect4Driver.setupAi.
  unfold player_type, Connect4Driver.isfile, Connect4Driver.call_generate.
  cbv beta iota zeta delta [bind get ret throw].
  destruct (players s !! player_id) as [t|]; cbn [final_state];
    [|left; by rewrite drop_all].
  assert (Hfresh :
    setup_outcome cfg inputs outputs 50 s
      (match log (CallGenerate inputs outputs 50) s with
       | Return _ s' => Return (generate cfg inputs outputs 50) s'
       | Exit s' => Exit s'
       | Raise e s' => Raise e s'
       end)
      (drop (List.length (calls s))
         (calls
            (final_state
               (match log (CallGenerate inputs outputs 50) s with
                | Return _ s' => Return (generate cfg inputs outputs 50) s'
                | Exit s' => Exit s'
                | Raise e s' => Raise e s'
                end))))).
  { right; right. simpl. by rewrite drop_app_length. }
  destruct (bool_decide (t = "NEAT"));
    case_bool_decide as Hfile; try apply Hfresh.
  - apply (load_outcome ("ai_" ++ str player_id) _ s).
    by rewrite neat_file_checked.
  - apply (load_outcome ("ai_" ++ str player_id ++ "_gen_" ++ t) _ s).
    rewrite neat_file_checked.
    rewrite !append_assoc in Hfile. by rewrite !append_assoc.
Qed.

Lemma main_setupAi_outcome (player_id : Z) (inputs outputs population : nat)
    (s : State Board) :
  setup_outcome cfg inputs outputs population s
    (MainDriver.setupAi cfg DIRECTORY player_id inputs outputs population s)
    (calls_made
       (MainDriver.setupAi cfg DIRECTORY player_id inputs outputs population) s).
Proof.
  unfold calls_made, MainDriver.setupAi.
  unfold player_type, MainDriver.isfile, MainDriver.call_generate.
  cbv beta iota zeta delta [bind get ret throw].
  destruct (players s !! player_id) as [t|]; cbn [final_state];
    [|left; by rewrite drop_all].
  assert (Hfresh :
    setup_outcome cfg inputs outputs population s
      (match log (CallGenerate inputs outputs population) s with
       | Return _ s' => Return (generate cfg inputs outputs population) s'
       | Exit s' => Exit s'
       | Raise e s' => Raise e s'
       end)
      (drop (List.length (calls s))
         (calls
            (final_state
               (match log (CallGenerate inputs outputs population) s with
                | Return _ s' => Return (generate cfg inputs outputs population) s'
                | Exit s' => Exit s'
                | Raise e s' => Raise e s'
                end))))).
  { right; right. simpl. by rewrite drop_app_length. }
  destruct (bool_decide (t = "NEAT"));
    case_bool_decide as Hfile; try apply Hfresh.
  - apply (load_outcome ("ai_" ++ str player_id) _ s).
    by rewrite neat_file_checked.
  - apply (load_outcome ("ai_" ++ str player_id ++ "_gen_" ++ t) _ s).
    rewrite neat_file_checked.
    rewrite !append_assoc in Hfile. by rewrite !append_assoc.
Qed.

Lemma outcome_loads_existing (inputs outputs n : nat) (s : State Board)
    (r : Run (State Board) Population) (trace : list Call) :
  setup_outcome cfg inputs outputs n s r trace ->
  Forall (fun path => is_Some (disk s !! path)) (files_loaded trace)
  /\ raised r <> Some MissingSaveFile.
Proof.
  intros [[-> Hr]|[(path & -> & Hfile & Hr)|[-> Hr]]]; simpl.
  - split; [constructor|]. by rewrite Hr.
  - split; [by repeat constructor|done].
  - split; [constructor|]. by destruct r.
Qed.

End SetupAi.


End C10.

(** * From [close()] to the next start of [main.py] *)

Module RestartFacts.

Import Neat Py Game Driver.

Section Restart.

Context {Board : Type}.
Variable cfg : Config.
Variable DIRECTORY : string.

(** The file [close()] writes for a player is the file [setupAi] looks
    for. *)
Lemma save_file_checked (player_id : Z) :
  MainDriver.save_file DIRECTORY (backslash ++ "ai_" ++ str player_id)%string
  = neat_file (DIRECTORY ++ backslash ++ MainDriver.GAME)%string
      ("ai_" ++ str player_id)%string.
Proof.
  unfold MainDriver.save_file, neat_file. by rewrite !C10.append_assoc.
Qed.

Lemma save_player_disk (player_id : Z) (p : Population) (s : State Board) :
  players s !! player_id = Some "NEAT" ->
  neats s !! player_id = Some (Some p) ->
  disk (final_state (MainDriver.save_player DIRECTORY player_id s))
  = save (SavedPopulation p)
      (neat_file (DIRECTORY ++ backslash ++ MainDriver.GAME)%string
         ("ai_" ++ str player_id)%string)
      (disk s).
Proof.
  intros Ht Hp. rewrite <- save_file_checked.
  unfold MainDriver.save_player, MainDriver.call_save, player_type.
  unfold neat_object, neat_entry, when.
  unfold bind, get, log, ret, throw, set_disk; simpl.
  rewrite Ht; simpl. rewrite Hp; simpl. done.
Qed.

(** A population that [close()] has saved is the population [setupAi]
    returns at the next start. *)
Lemma saved_population_is_loaded (player_id : Z) (p : Population)
    (s s' : State Board) :
  players s !! player_id = Some "NEAT" ->
  neats s !! player_id = Some (Some p) ->
  players s' !! player_id = Some "NEAT" ->
  disk s' = disk (final_state (MainDriver.save_player DIRECTORY player_id s)) ->
  returned (MainDriver.setupAi cfg DIRECTORY player_id 4 1 100 s') = Some p.
Proof.
  intros Ht Hp Ht' Hdisk.
  rewrite (save_player_disk player_id p s Ht Hp) in Hdisk.
  unfold MainDriver.setupAi, player_type, MainDriver.isfile, MainDriver.call_load.
  unfold load_named, load_population.
  unfold bind, get, log, ret, throw, lift; simpl.
  rewrite Ht'; simpl.
  rewrite Hdisk.
  replace ((DIRECTORY ++ backslash ++ MainDriver.GAME) ++ backslash
           ++ "ai_" ++ str player_id ++ ".neat")%string
    with (neat_file (DIRECTORY ++ backslash ++ MainDriver.GAME)%string
            ("ai_" ++ str player_id)%string) by reflexivity.
  rewrite bool_decide_eq_true_2
    by (unfold save; rewrite lookup_insert_eq; by eexists).
  simpl. rewrite Hdisk. by rewrite PersistenceFacts.load_save.
Qed.

End Restart.

End RestartFacts.

(** * Dictionaries *)

Module DictFacts.

Import Py.

Section Dict.

Context {K V : Type} `{EqDecision K}.

Implicit Types (d : dict K V) (k : K) (v : V).

Lemma dict_get_set_eq k v d : dict_get k (dict_set k v d) = Some v.
Proof.
  induction d as [|[k' v'] d IH]; simpl.
  - by rewrite decide_True.
  - destruct (decide (k = k')) as [->|Hne]; simpl.
    + by rewrite decide_True.
    + by rewrite decide_False.
Qed.

Lemma dict_get_set_ne k k' v d :
  k <> k' -> dict_get k' (dict_set k v d) = dict_get k' d.
Proof.
  intros Hne. induction d as [|[k0 v0] d IH]; simpl.
  - by rewrite decide_False.
  - destruct (decide (k = k0)) as [->|Hne0]; simpl.
    + by rewrite !decide_False.
    + by rewrite IH.
Qed.

Lemma dict_keys_get k d : In k (dict_keys d) <-> is_Some (dict_get k d).
Proof.
  induction d as [|[k' v'] d IH]; simpl.
  - split; [done|]. by intros [? ?].
  - destruct (decide (k = k')) as [->|Hne].
    + split; [by eexists|by left].
    + rewrite <- IH. split; [|by right]. by intros [?|?]; [congruence|].
Qed.

Lemma dict_keys_set_present k v d :
  is_Some (dict_get k d) -> dict_keys (dict_set k v d) = dict_keys d.
Proof.
  induction d as [|[k' v'] d IH]; simpl.
  - by intros [? ?].
  - destruct (decide (k = k')) as [->|Hne]; simpl; [done|].
    intros Hk. by rewrite IH.
Qed.

Lemma dict_keys_set_absent k v d :
  dict_get k d = None -> dict_keys (dict_set k v d) = dict_keys d ++ [k].
Proof.
  induction d as [|[k' v'] d IH]; simpl; [done|].
  destruct (decide (k = k')) as [->|Hne]; simpl; [done|].
  intros Hk. by rewrite IH.
Qed.

Lemma dict_keys_set_In k k' v d :
  In k' (dict_keys (dict_set k v d)) <-> k' = k \/ In k' (dict_keys d).
Proof.
  destruct (dict_get k d) as [v0|] eqn:Hk.
  - rewrite dict_keys_set_present by by eexists.
    split; [by right|]. intros [->|?]; [|done].
    apply dict_keys_get. by eexists.
  - rewrite dict_keys_set_absent by done. rewrite in_app_iff; simpl.
    split; [intros [?|[?|[]]]|intros [?|?]]; auto.
Qed.

Lemma dict_keys_set_NoDup k v d :
  List.NoDup (dict_keys d) -> List.NoDup (dict_keys (dict_set k v d)).
Proof.
  intros Hd. destruct (dict_get k d) as [v0|] eqn:Hk.
  - by rewrite dict_keys_set_present by by eexists.
  - rewrite dict_keys_set_absent by done.
    apply NoDup_ListNoDup, NoDup_app. apply NoDup_ListNoDup in Hd.
    split; [done|]. split; [|apply NoDup_singleton].
    intros k' Hk' ->%list_elem_of_singleton.
    apply list_elem_of_In, dict_keys_get in Hk' as [? ?]. congruence.
Qed.

(** With one entry per key, an entry is what [dict_get] finds. *)
Lemma dict_get_In k v d :
  List.NoDup (dict_keys d) -> In (k, v) d <-> dict_get k d = Some v.
Proof.
  induction d as [|[k' v'] d IH]; simpl; intros Hd; [done|].
  inversion Hd as [|? ? Hk' Hd']; subst.
  destruct (decide (k = k')) as [->|Hne].
  - split; [|intros [= ->]; by left].
    intros [[= ->]|Hin]; [done|].
    destruct Hk'. change (In (k', v).1 (List.map fst d)). by apply in_map.
  - rewrite <- IH by done. split; [|by right].
    by intros [[= -> ->]|?].
Qed.

End Dict.

End DictFacts.

(** * [neatMove] *)

Module NeatMoveFacts.

Import Neat Py Game DictFacts.

Lemma Qc_max_cases (a b : Qc) :
  (Qc_max a b = a \/ Qc_max a b = b)
  /\ (a <= Qc_max a b)%Qc /\ (b <= Qc_max a b)%Qc.
Proof.
  unfold Qc_max. case_bool_decide as Hab.
  - repeat split; [by right|done|apply Qcle_refl].
  - repeat split; [by left|apply Qcle_refl|].
    apply Qcnot_le_lt in Hab. by apply Qclt_le_weak.
Qed.

Lemma fold_Qc_max (xs : list Qc) :
  forall x,
    let m := List.fold_left Qc_max xs x in
    (m = x \/ In m xs)
    /\ (x <= m)%Qc
    /\ (forall y, In y xs -> (y <= m)%Qc).
Proof.
  induction xs as [|a xs IH]; intros x; cbv zeta; simpl.
  - repeat split; [by left|apply Qcle_refl|done].
  - destruct (IH (Qc_max x a)) as (Hin & Hle & Hall).
    destruct (Qc_max_cases x a) as (Hcase & Hx & Ha).
    repeat split.
    + destruct Hin as [->|Hin]; [|by right; right].
      destruct Hcase as [->| ->]; [by left|by right; left].
    + by eapply Qcle_trans.
    + intros y [<-|Hy]; [by eapply Qcle_trans|by apply Hall].
Qed.

(** [findMaxMin] finds an entry of the list that no entry exceeds. *)
Lemma findMaxMin_max_spec (l : list Qc) :
  l <> [] ->
  exists m,
    findMaxMin_max l = Some m /\ In m l /\ forall y, In y l -> (y <= m)%Qc.
Proof.
  destruct l as [|x xs]; [done|]. intros _. simpl.
  destruct (fold_Qc_max xs x) as (Hin & Hle & Hall).
  eexists; split; [done|]. split.
  - destruct Hin as [->|Hin]; [by left|by right].
  - by intros y [<-|Hy]; [|apply Hall].
Qed.

Lemma random_choice_In {A} (rnd : nat) (l : list A) :
  l <> [] -> exists a, random_choice rnd l = ok a /\ In a l.
Proof.
  intros Hl. unfold random_choice.
  assert (Hlt : (rnd mod List.length l < List.length l)%nat).
  { apply Nat.mod_upper_bound. by destruct l. }
  destruct (lookup_lt_is_Some_2 _ _ Hlt) as [a Ha]. rewrite Ha.
  exists a. split; [done|]. apply list_elem_of_In. by eapply list_elem_of_lookup_2.
Qed.

Lemma random_choice_any {A} (a : A) (l : list A) :
  In a l -> exists rnd, random_choice rnd l = ok a.
Proof.
  intros Ha. apply list_elem_of_In, list_elem_of_lookup_1 in Ha as [i Hi].
  exists i. unfold random_choice.
  rewrite Nat.mod_small by by eapply lookup_lt_Some. by rewrite Hi.
Qed.

Section Moves.

Context {Board : Type}.
Variable cfg : Config.
Variable G : Ops Board.
Variable genome : option Genome.
Variable c4 : Connect4 Board.

(** *** The first loop *)

Lemma possible_moves_acc (columns : list nat) :
  forall d : dict Move Qc,
    let step := fun (d : dict Move Qc) (i : nat) =>
      let possible_move := getPossibleMove G c4 i in
      if bool_decide (possible_move.1 <> INVALID_MOVE G)
      then dict_set possible_move 0%Qc d
      else d in
    let d' := List.fold_left step columns d in
    List.NoDup (dict_keys d) ->
    (forall m v, dict_get m d = Some v -> v = 0%Qc) ->
    List.NoDup (dict_keys d')
    /\ (forall m v, dict_get m d' = Some v -> v = 0%Qc)
    /\ (forall m,
          In m (dict_keys d')
          <-> In m (dict_keys d)
              \/ exists i,
                   In i columns /\ getPossibleMove G c4 i = m
                   /\ m.1 <> INVALID_MOVE G).
Proof.
  induction columns as [|i columns IH]; intros d; cbv zeta; simpl;
    intros Hnd Hzero.
  - repeat split; try done.
    + by left.
    + intros [?|(i & [] & _)]. done.
  - case_bool_decide as Hvalid.
    + destruct (IH (dict_set (getPossibleMove G c4 i) 0%Qc d))
        as (Hnd' & Hzero' & Hkeys).
      * by apply dict_keys_set_NoDup.
      * intros m v.
        destruct (decide (getPossibleMove G c4 i = m)) as [->|Hne].
        -- rewrite dict_get_set_eq. by intros [= <-].
        -- rewrite dict_get_set_ne by done. apply Hzero.
      * repeat split; try done.
        -- intros Hm. apply Hkeys in Hm as [Hm|(j & Hj & Hget & Hv)].
           ++ apply dict_keys_set_In in Hm as [->|Hm]; [|by left].
              right. exists i. by repeat split; [left|..].
           ++ right. exists j. by repeat split; [right|..].
        -- intros [Hm|(j & [<-|Hj] & Hget & Hv)]; apply Hkeys.
           ++ left. apply dict_keys_set_In. by right.
           ++ left. apply dict_keys_set_In. by left.
           ++ right. by exists j.
    + destruct (IH d) as (Hnd' & Hzero' & Hkeys); try done.
      repeat split; try done.
      * intros Hm. apply Hkeys in Hm as [Hm|(j & Hj & Hget & Hv)];
          [by left|].
        right. exists j. by repeat split; [right|..].
      * intros [Hm|(j & [<-|Hj] & Hget & Hv)]; apply Hkeys.
        -- by left.
        -- by rewrite Hget in Hvalid.
        -- right. by exists j.
Qed.

Lemma possible_moves_spec :
  List.NoDup (dict_keys (possible_moves G c4))
  /\ (forall m, In m (dict_keys (possible_moves G c4)) -> 
                dict_get m (possible_moves G c4) = Some 0%Qc)
  /\ (forall m, In m (dict_keys (possible_moves G c4)) <-> valid_move G c4 m).
Proof.
  destruct (possible_moves_acc (seq 0 (COLUMNS G)) [])
    as (Hnd & Hzero & Hkeys); [constructor|done|].
  split; [done|]. split.
  - intros m Hm. apply dict_keys_get in Hm as [v Hv].
    rewrite Hv. f_equal. by apply (Hzero m v).
  - intros m. unfold possible_moves, valid_move. rewrite Hkeys. simpl.
    split.
    + intros [[]|(i & Hi & Hget & Hv)]. exists i.
      apply in_seq in Hi. repeat split; try done. lia.
    + intros (i & Hi & Hget & Hv). right. exists i.
      repeat split; try done. apply in_seq. lia.
Qed.

(** *** The second loop *)

Lemma summed_outputs_ok (slices : list (option (list Qc))) :
  (forall inputs, In (Some inputs) slices ->
                  is_ok (genome_forward cfg genome inputs) = true) ->
  forall score, exists v, summed_outputs cfg genome slices score = ok v.
Proof.
  induction slices as [|[inputs|] slices IH]; intros Hok score; simpl.
  - by eexists.
  - specialize (Hok inputs) as Hin.
    destruct (genome_forward cfg genome inputs) as [e|outputs]; simpl.
    + by discriminate Hin; left.
    + apply IH. intros inputs' Hin'. apply Hok. by right.
  - apply IH. intros inputs' Hin'. apply Hok. by right.
Qed.

Lemma score_slices_ok (m : Move) (slices : list (option (list Qc))) :
  forall (d : dict Move Qc) (score v : Qc),
    dict_get m d = Some score ->
    summed_outputs cfg genome slices score = ok v ->
    exists d',
      score_slices cfg genome slices m d = ok d'
      /\ dict_keys d' = dict_keys d
      /\ dict_get m d' = Some v
      /\ (forall m', m' <> m -> dict_get m' d' = dict_get m' d).
Proof.
  induction slices as [|[inputs|] slices IH]; intros d score v Hget Hsum;
    simpl in *.
  - injection Hsum as <-. by exists d.
  - destruct (genome_forward cfg genome inputs) as [e|outputs]; simpl in *;
      [done|].
    unfold dict_item. rewrite Hget; simpl.
    destruct (IH (dict_set m (score + sum outputs)%Qc d)
                (score + sum outputs)%Qc v)
      as (d' & Hrun & Hkeys & Hm & Hother); [apply dict_get_set_eq|done|].
    exists d'. split; [done|]. split.
    { rewrite Hkeys. apply dict_keys_set_present. by eexists. }
    split; [done|].
    intros m' Hne. rewrite Hother by done. by apply dict_get_set_ne.
  - by apply (IH d score v).
Qed.

Lemma score_moves_ok (score : Move -> Qc) (keys : list Move) :
  forall d : dict Move Qc,
    List.NoDup keys ->
    (forall m, In m keys -> dict_get m d = Some 0%Qc) ->
    (forall m, In m keys ->
       summed_outputs cfg genome (List.concat (getPieceSlices G c4 m)) 0%Qc
       = ok (score m)) ->
    exists d',
      score_moves cfg G genome c4 keys d = ok d'
      /\ dict_keys d' = dict_keys d
      /\ (forall m, In m keys -> dict_get m d' = Some (score m))
      /\ (forall m, ~ In m keys -> dict_get m d' = dict_get m d).
Proof.
  induction keys as [|k keys IH]; intros d Hnd Hzero Hsum; simpl.
  { by exists d. }
  inversion Hnd as [|? ? Hk Hnd']; subst.
  destruct (score_slices_ok k (List.concat (getPieceSlices G c4 k)) d 0%Qc
              (score k))
    as (d1 & Hrun1 & Hkeys1 & Hk1 & Hother1).
  { apply Hzero. by left. }
  { apply Hsum. by left. }
  rewrite Hrun1; simpl.
  destruct (IH d1) as (d' & Hrun & Hkeys & Hin & Hout); try done.
  { intros m Hm. rewrite Hother1 by (intros ->; done). apply Hzero. by right. }
  { intros m Hm. apply Hsum. by right. }
  exists d'. split; [done|]. split; [congruence|]. split.
  - intros m [<-|Hm]; [|by apply Hin]. by rewrite Hout.
  - intros m Hm. rewrite Hout by (intros ?; apply Hm; by right).
    apply Hother1. intros ->. apply Hm. by left.
Qed.

(** *** Grouping by score *)

Lemma combine_acc (d : dict Move Qc) :
  forall (acc : dict Qc (list Move)) (v : Qc),
    let step := fun (acc : dict Qc (list Move)) (kv : Move * Qc) =>
      dict_set kv.2 (default [] (dict_get kv.2 acc) ++ [kv.1]) acc in
    let acc' := List.fold_left step d acc in
    default [] (dict_get v acc')
    = default [] (dict_get v acc)
      ++ List.map fst (List.filter (fun kv => bool_decide (kv.2 = v)) d)
    /\ (In v (dict_keys acc')
        <-> In v (dict_keys acc) \/ In v (List.map snd d)).
Proof.
  induction d as [|[k q] d IH]; intros acc v; cbv zeta; simpl.
  { rewrite app_nil_r. split; [done|]. split; [by left|by intros [?|[]]]. }
  destruct (IH (dict_set q (default [] (dict_get q acc) ++ [k]) acc) v)
    as [Hget Hkeys].
  split.
  - rewrite Hget. case_bool_decide as Hq; simpl.
    + subst q. rewrite dict_get_set_eq; simpl. by rewrite <- app_assoc.
    + by rewrite dict_get_set_ne.
  - rewrite Hkeys, dict_keys_set_In. split.
    + intros [[->|?]|?]; auto.
    + intros [?|[<-|?]]; auto.
Qed.

Lemma combineByValues_group (d : dict Move Qc) (v : Qc) :
  default [] (dict_get v (combineByValues d))
  = List.map fst (List.filter (fun kv => bool_decide (kv.2 = v)) d).
Proof. destruct (combine_acc d [] v) as [Hget _]. exact Hget. Qed.

Lemma combineByValues_keys (d : dict Move Qc) (v : Qc) :
  In v (dict_keys (combineByValues d)) <-> In v (List.map snd d).
Proof.
  destruct (combine_acc d [] v) as [_ Hkeys]. simpl in Hkeys.
  unfold combineByValues. tauto.
Qed.

(** The group of a score, for a dictionary with one entry per key. *)
Lemma group_members (d : dict Move Qc) (v : Qc) (m : Move) :
  List.NoDup (dict_keys d) ->
  In m (List.map fst (List.filter (fun kv => bool_decide (kv.2 = v)) d))
  <-> dict_get m d = Some v.
Proof.
  intros Hnd. rewrite <- dict_get_In by done. rewrite in_map_iff. split.
  - intros ([m' q] & <- & Hin). apply filter_In in Hin as [Hin Hq].
    apply bool_decide_eq_true in Hq. simpl in *. by subst q.
  - intros Hin. exists (m, v). split; [done|].
    apply filter_In. split; [done|]. by apply bool_decide_eq_true.
Qed.

(** *** The choice *)

Hypothesis slices_fit :
  forall m inputs,
    valid_move G c4 m ->
    In (Some inputs) (List.concat (getPieceSlices G c4 m)) ->
    is_ok (genome_forward cfg genome inputs) = true.

Lemma move_score_summed (m : Move) :
  valid_move G c4 m ->
  summed_outputs cfg genome (List.concat (getPieceSlices G c4 m)) 0%Qc
  = ok (move_score cfg G genome c4 m).
Proof.
  intros Hm. unfold move_score.
  destruct (summed_outputs_ok (List.concat (getPieceSlices G c4 m))
              (fun inputs => slices_fit m inputs Hm) 0%Qc) as [v Hv].
  by rewrite Hv.
Qed.

(** The scores after the second loop: one entry per valid move, holding
    its summed outputs. *)
Lemma scores_spec :
  exists scores : dict Move Qc,
    score_moves cfg G genome c4 (dict_keys (possible_moves G c4))
      (possible_moves G c4)
    = ok scores
    /\ List.NoDup (dict_keys scores)
    /\ (forall m v,
          dict_get m scores = Some v
          <-> valid_move G c4 m /\ v = move_score cfg G genome c4 m).
Proof.
  destruct possible_moves_spec as (Hnd & Hzero & Hvalid).
  destruct (score_moves_ok (move_score cfg G genome c4)
              (dict_keys (possible_moves G c4)) (possible_moves G c4))
    as (scores & Hrun & Hkeys & Hin & Hout); try done.
  { intros m Hm. apply move_score_summed. by apply Hvalid. }
  exists scores. split; [done|]. split; [by rewrite Hkeys|].
  intros m v. split.
  - intros Hget.
    assert (Hm : In m (dict_keys (possible_moves G c4))).
    { rewrite <- Hkeys. apply dict_keys_get. by eexists. }
    split; [by apply Hvalid|]. rewrite (Hin m Hm) in Hget. congruence.
  - intros [Hm ->]. apply Hin. by apply Hvalid.
Qed.

Lemma neatMove_chooses :
  (exists m, valid_move G c4 m) ->
  (forall rnd,
     exists m,
       neatMove cfg G genome c4 rnd = ok m.2
       /\ valid_move G c4 m /\ best_move cfg G genome c4 m)
  /\ (forall m,
        valid_move G c4 m -> best_move cfg G genome c4 m ->
        exists rnd, neatMove cfg G genome c4 rnd = ok m.2).
Proof.
  intros [m0 Hm0].
  destruct scores_spec as (scores & Hrun & Hnd & Hscores).
  assert (Hvalues :
    forall v, In v (dict_keys (combineByValues scores))
              <-> exists m, valid_move G c4 m /\ v = move_score cfg G genome c4 m).
  { intros v. rewrite combineByValues_keys, in_map_iff. split.
    - intros ([m q] & <- & Hin). exists m.
      apply Hscores. by apply dict_get_In.
    - intros (m & Hm & ->). exists (m, move_score cfg G genome c4 m).
      split; [done|]. apply dict_get_In; [done|]. by apply Hscores. }
  destruct (findMaxMin_max_spec (dict_keys (combineByValues scores)))
    as (mx & Hmax & Hmx & Hle).
  { intros Hnil.
    assert (Hin : In (move_score cfg G genome c4 m0)
                    (dict_keys (combineByValues scores)))
      by (apply Hvalues; by exists m0).
    by rewrite Hnil in Hin. }
  assert (Hgroup :
    exists best,
      dict_item mx (combineByValues scores) = ok best
      /\ forall m, In m best
                   <-> valid_move G c4 m /\ mx = move_score cfg G genome c4 m).
  { apply dict_keys_get in Hmx as [best Hbest].
    exists best. unfold dict_item. rewrite Hbest. split; [done|].
    intros m.
    pose proof (combineByValues_group scores mx) as Hg.
    rewrite Hbest in Hg; simpl in Hg. rewrite Hg.
    rewrite group_members by done. apply Hscores. }
  destruct Hgroup as (best & Hitem & Hbest).
  assert (Hbest_is_best :
    forall m, In m best -> best_move cfg G genome c4 m).
  { intros m Hm m' Hm'. apply Hbest in Hm as [_ <-].
    apply Hle, Hvalues. by exists m'. }
  split.
  - intros rnd.
    destruct (random_choice_In rnd best) as (m & Hchoice & Hm).
    { apply Hvalues in Hmx as (m & Hm & Hmx).
      intros Hnil. assert (Hin : In m best) by by apply Hbest.
      by rewrite Hnil in Hin. }
    exists m. unfold neatMove. rewrite Hrun; simpl. rewrite Hmax, Hitem; simpl.
    rewrite Hchoice; simpl. split; [done|]. split.
    + by apply Hbest in Hm as [? _].
    + by apply Hbest_is_best.
  - intros m Hm Hbestm.
    assert (Hin : In m best).
    { apply Hbest. split; [done|].
      apply Hvalues in Hmx as (k & Hk & Hmx).
      apply Qcle_antisym.
      - rewrite Hmx. by apply Hbestm.
      - apply Hle, Hvalues. by exists m. }
    destruct (random_choice_any m best Hin) as [rnd Hchoice].
    exists rnd. unfold neatMove. rewrite Hrun; simpl. rewrite Hmax, Hitem; simpl.
    by rewrite Hchoice.
Qed.

End Moves.

Section NoMove.

Context {Board : Type}.
Variable cfg : Config.
Variable G : Ops Board.
Variable genome : option Genome.
Variable c4 : Connect4 Board.

Lemma neatMove_without_moves :
  (forall m, ~ valid_move G c4 m) ->
  forall rnd, neatMove cfg G genome c4 rnd = raise KeyError.
Proof.
  intros Hnone rnd.
  destruct (possible_moves_spec G c4) as (_ & _ & Hvalid).
  assert (Hempty : possible_moves G c4 = []).
  { destruct (possible_moves G c4) as [|[m v] d]; [done|].
    destruct (Hnone m). apply Hvalid. by left. }
  unfold neatMove. by rewrite Hempty.
Qed.

End NoMove.



End NeatMoveFacts.

(** * What the pieces of the main loops leave alone *)

Module FrameFacts.

Import Neat Py Game Driver Frames TraceFacts.
Local Open Scope drv_scope.

Section Keeps.

Context {Board X : Type}.
Variable f : State Board -> X.

Lemma keeps_bind {A B} (m : Drv Board A) (k : A -> Drv Board B) :
  keeps f m -> (forall a, keeps f (k a)) -> keeps f (bind m k).
Proof.
  intros Hm Hk s. specialize (Hm s). unfold bind.
  destruct (m s) as [a s'|s'|e s']; simpl in *; [|done..].
  by rewrite Hk.
Qed.

Lemma keeps_reads_only {A} (m : Drv Board A) : reads_only m -> keeps f m.
Proof. intros Hm s. by destruct (Hm s) as [-> _]. Qed.

Lemma keeps_ret {A} (a : A) : keeps f (ret a).
Proof. done. Qed.

Lemma keeps_throw {A} (e : Error) : keeps f (@throw Board A e).
Proof. done. Qed.

Lemma keeps_exit {A} : keeps f (@exit Board A).
Proof. done. Qed.

Lemma keeps_lift {A} (r : result A) : keeps f (lift r).
Proof. by destruct r. Qed.

Lemma keeps_get : keeps f get.
Proof. done. Qed.

Lemma keeps_when (b : bool) (m : Drv Board unit) : keeps f m -> keeps f (when b m).
Proof. by destruct b. Qed.

Lemma keeps_for_each {A} (l : list A) (body : A -> Drv Board unit) :
  (forall a, keeps f (body a)) -> keeps f (for_each l body).
Proof.
  intros Hb. induction l as [|a l IH]; simpl; [done|]. by apply keeps_bind.
Qed.

End Keeps.

Section ReadsOnly.

Context {Board : Type}.

Lemma reads_only_bind {A B} (m : Drv Board A) (k : A -> Drv Board B) :
  reads_only m -> (forall a, reads_only (k a)) -> reads_only (bind m k).
Proof.
  intros Hm Hk s. destruct (Hm s) as [Hs He]. unfold bind.
  destruct (m s) as [a s'|s'|e s']; simpl in *; [|done..].
  subst s'. apply Hk.
Qed.

Lemma reads_only_ret {A} (a : A) : reads_only (@ret Board A a).
Proof. done. Qed.

Lemma reads_only_throw {A} (e : Error) : reads_only (@throw Board A e).
Proof. done. Qed.

Lemma reads_only_lift {A} (r : result A) : reads_only (@lift Board A r).
Proof. by destruct r. Qed.

Lemma reads_only_get : reads_only (@get Board).
Proof. done. Qed.

End ReadsOnly.

Section RaisesOnly.

Context {Board : Type}.
Variable E : Error -> Prop.

Lemma raises_only_bind {A B} (m : Drv Board A) (k : A -> Drv Board B) :
  raises_only E m -> (forall a, raises_only E (k a)) -> raises_only E (bind m k).
Proof.
  intros Hm Hk s e. specialize (Hm s e). unfold bind.
  destruct (m s) as [a s'|s'|e' s']; simpl in *; [apply Hk|done..].
Qed.

Lemma raises_only_ret {A} (a : A) : raises_only E (@ret Board A a).
Proof. by intros s e. Qed.

Lemma raises_only_exit {A} : raises_only E (@exit Board A).
Proof. by intros s e. Qed.

Lemma raises_only_get : raises_only E (@get Board).
Proof. by intros s e. Qed.

Lemma raises_only_throw {A} (e : Error) : E e -> raises_only E (@throw Board A e).
Proof. intros He s e' [= <-]. done. Qed.

Lemma raises_only_lift {A} (r : result A) :
  (forall e, r = raise e -> E e) -> raises_only E (@lift Board A r).
Proof.
  intros Hr s e. destruct r as [e'|a]; simpl; [|done].
  intros [= <-]. by apply Hr.
Qed.

Lemma raises_only_when (b : bool) (m : Drv Board unit) :
  raises_only E m -> raises_only E (when b m).
Proof. destruct b; [done|]. intros _. apply raises_only_ret. Qed.

Lemma raises_only_for_each {A} (l : list A) (body : A -> Drv Board unit) :
  (forall a, raises_only E (body a)) -> raises_only E (for_each l body).
Proof.
  intros Hb. induction l as [|a l IH]; simpl; [apply raises_only_ret|].
  by apply raises_only_bind.
Qed.

End RaisesOnly.

Lemma raises_only_impl {Board A} (E E' : Error -> Prop) (m : Drv Board A) :
  (forall e, E e -> E' e) -> raises_only E m -> raises_only E' m.
Proof. intros HE Hm s e He. by apply HE, (Hm s). Qed.

(** Take code apart down to the primitives; a primitive keeps what its
    definition does not assign. *)
Ltac frame_leaf :=
  let s := fresh "s" in
  intros s; simpl;
  first
    [ reflexivity
    | unfold scores; simpl; rewrite ScoringFacts.fitness_written_app;
      simpl; apply app_nil_r ].

Ltac keeps_step :=
  match goal with
  | |- keeps _ (bind _ _) => apply keeps_bind; [|intros ?]
  | |- keeps _ (ret _) => apply keeps_ret
  | |- keeps _ (throw _) => apply keeps_throw
  | |- keeps _ exit => apply keeps_exit
  | |- keeps _ (lift _) => apply keeps_lift
  | |- keeps _ get => apply keeps_get
  | |- keeps _ (when _ _) => apply keeps_when
  | |- keeps _ (for_each _ _) => apply keeps_for_each; intros ?
  | |- keeps _ (if ?b then _ else _) => destruct b
  | |- keeps _ (match ?x with _ => _ end) => destruct x
  | |- keeps _ (let (_, _) := ?x in _) => destruct x
  | |- keeps _ (log _) => frame_leaf
  | |- keeps _ (set_neat _ _) => frame_leaf
  | |- keeps _ (set_connect4 _) => frame_leaf
  | |- keeps _ (set_info _) => frame_leaf
  | |- keeps _ (set_frame_count _) => frame_leaf
  | |- keeps _ (set_disk _) => frame_leaf
  end.

Ltac reads_step :=
  match goal with
  | |- reads_only (bind _ _) => apply reads_only_bind; [|intros ?]
  | |- reads_only (ret _) => apply reads_only_ret
  | |- reads_only (throw _) => apply reads_only_throw
  | |- reads_only (lift _) => apply reads_only_lift
  | |- reads_only get => apply reads_only_get
  | |- reads_only (if ?b then _ else _) => destruct b
  | |- reads_only (match ?x with _ => _ end) => destruct x
  end.

Ltac raises_step :=
  match goal with
  | |- raises_only _ (bind _ _) => apply raises_only_bind; [|intros ?]
  | |- raises_only _ (ret _) => apply raises_only_ret
  | |- raises_only _ exit => apply raises_only_exit
  | |- raises_only _ get => apply raises_only_get
  | |- raises_only _ (when _ _) => apply raises_only_when
  | |- raises_only _ (for_each _ _) => apply raises_only_for_each; intros ?
  | |- raises_only _ (if ?b then _ else _) => destruct b
  | |- raises_only _ (match ?x with _ => _ end) => destruct x
  | |- raises_only _ (log _) => intros ? ?; discriminate
  | |- raises_only _ (set_neat _ _) => intros ? ?; discriminate
  | |- raises_only _ (set_connect4 _) => intros ? ?; discriminate
  | |- raises_only _ (set_info _) => intros ? ?; discriminate
  | |- raises_only _ (set_frame_count _) => intros ? ?; discriminate
  | |- raises_only _ (set_disk _) => intros ? ?; discriminate
  end.

Section Reads.

Context {Board : Type}.
Variable cfg : Config.
Variable G : Ops Board.

Lemma reads_only_player_type player : reads_only (@player_type Board player).
Proof. unfold player_type. repeat reads_step. Qed.

Lemma reads_only_neat_entry player : reads_only (@neat_entry Board player).
Proof. unfold neat_entry. repeat reads_step. Qed.

Lemma reads_only_neat_object player : reads_only (@neat_object Board player).
Proof.
  unfold neat_object. apply reads_only_bind; [apply reads_only_neat_entry|].
  intros o. repeat reads_step.
Qed.

Lemma reads_only_frame_due speed : reads_only (@frame_due Board speed).
Proof. unfold frame_due. repeat reads_step. Qed.

Lemma reads_only_call_neatMove genome rnd :
  reads_only (call_neatMove cfg G genome rnd).
Proof. unfold call_neatMove. repeat reads_step. Qed.

Lemma reads_only_at_generation_start ids :
  reads_only (@at_generation_start Board ids).
Proof.
  induction ids as [|player_id rest IH]; simpl; [apply reads_only_ret|].
  apply reads_only_bind; [apply reads_only_neat_entry|]. intros o.
  destruct o as [p|]; [|done]. destruct (_ && _); [apply reads_only_ret|done].
Qed.

Lemma reads_only_key_move cp key : reads_only (@key_move Board cp key).
Proof.
  unfold key_move. destruct key; [|apply reads_only_ret].
  apply reads_only_bind; [apply reads_only_get|]. intros s.
  destruct (match_ (connect4 s)); [|apply reads_only_ret].
  apply reads_only_bind; [apply reads_only_player_type|]. intros t.
  apply reads_only_ret.
Qed.

Lemma reads_only_player_id_of player :
  reads_only (@MainDriver.player_id_of Board player).
Proof. unfold MainDriver.player_id_of. repeat reads_step. Qed.

Lemma reads_only_connect4_getSpeedShow cp :
  reads_only (@Connect4Driver.getSpeedShow Board cp).
Proof.
  unfold Connect4Driver.getSpeedShow.
  apply reads_only_bind; [apply reads_only_player_type|]. intros t.
  apply reads_only_bind; [apply reads_only_get|]. intros s.
  repeat case_bool_decide; try apply reads_only_ret.
  apply reads_only_bind; [apply reads_only_lift|]. intros other.
  apply reads_only_bind; [apply reads_only_at_generation_start|].
  intros []; apply reads_only_ret.
Qed.

Lemma reads_only_main_getSpeedShow cp :
  reads_only (@MainDriver.getSpeedShow Board cp).
Proof.
  unfold MainDriver.getSpeedShow.
  apply reads_only_bind; [apply reads_only_player_type|]. intros t.
  apply reads_only_bind; [apply reads_only_get|]. intros s.
  repeat case_bool_decide; try apply reads_only_ret.
  apply reads_only_bind; [apply reads_only_player_id_of|]. intros other.
  apply reads_only_bind; [apply reads_only_at_generation_start|].
  intros []; apply reads_only_ret.
Qed.

End Reads.

End FrameFacts.

Module SpeedShowFacts.

Import Neat Py Game Driver Frames FrameFacts.
Local Open Scope drv_scope.

Section Answers.

Context {Board : Type}.

Lemma at_generation_start_reads ids (s : State Board) :
  exists r, at_generation_start ids s = r /\ final_state r = s.
Proof. eexists. split; [done|]. apply reads_only_at_generation_start. Qed.

Lemma connect4_getSpeedShow_answer cp (s : State Board) answer :
  returned (Connect4Driver.getSpeedShow cp s) = Some answer ->
  speed_show_answer cp s answer.
Proof.
  unfold Connect4Driver.getSpeedShow, player_type, bind, get, ret, throw.
  destruct (players s !! cp) as [t|] eqn:Ht; cbv beta match; [|by simpl].
  case_bool_decide as Hhuman; [|intros [= <-]; by left].
  case_bool_decide as Hgen.
  - destruct (lift _ s) as [other s1|s1|e s1]; cbv beta match; [|by simpl..].
    destruct (at_generation_start [cp; other] s1) as [[] s2|s2|e s2];
      cbv beta match; [| |by simpl..].
    + intros [= <-]. by left.
    + intros [= <-]. right. split; [done|]. split; [|by left]. congruence.
  - case_bool_decide as Hnone; intros [= <-]; [|by left].
    right. split; [done|]. split; [|by right]. congruence.
Qed.

Lemma main_getSpeedShow_answer cp (s : State Board) answer :
  returned (MainDriver.getSpeedShow cp s) = Some answer ->
  speed_show_answer cp s answer.
Proof.
  unfold MainDriver.getSpeedShow, player_type, bind, get, ret, throw.
  destruct (players s !! cp) as [t|] eqn:Ht; cbv beta match; [|by simpl].
  case_bool_decide as Hhuman; [|intros [= <-]; by left].
  case_bool_decide as Hgen.
  - destruct (MainDriver.player_id_of _ s) as [other s1|s1|e s1];
      cbv beta match; [|by simpl..].
    destruct (at_generation_start [cp; other] s1) as [[] s2|s2|e s2];
      cbv beta match; [| |by simpl..].
    + intros [= <-]. by left.
    + intros [= <-]. right. split; [done|]. split; [|by left]. congruence.
  - case_bool_decide as Hnone; intros [= <-]; [|by left].
    right. split; [done|]. split; [|by right]. congruence.
Qed.

(** A human player, and any player while every genome is shown, plays
    at game speed on screen. *)
Lemma getSpeedShow_shown cp t (s : State Board) :
  players s !! cp = Some t ->
  t = "Human" \/ (show_every s <> "Generation" /\ show_every s <> "None") ->
  Connect4Driver.getSpeedShow cp s = Return (game_speed s, true) s
  /\ MainDriver.getSpeedShow cp s = Return (game_speed s, true) s.
Proof.
  intros Ht Hshown.
  unfold Connect4Driver.getSpeedShow, MainDriver.getSpeedShow.
  unfold player_type, bind, get, ret, throw. rewrite Ht; simpl.
  case_bool_decide as Hhuman; [|done].
  destruct Hshown as [->|[Hgen Hnone]]; [done|].
  by rewrite !bool_decide_eq_false_2.
Qed.

Lemma getSpeedShow_hidden cp t (s : State Board) :
  players s !! cp = Some t -> t <> "Human" -> show_every s = "None" ->
  Connect4Driver.getSpeedShow cp s = Return (evolution_speed s, false) s
  /\ MainDriver.getSpeedShow cp s = Return (evolution_speed s, false) s.
Proof.
  intros Ht Hhuman Hnone.
  unfold Connect4Driver.getSpeedShow, MainDriver.getSpeedShow.
  unfold player_type, bind, get, ret, throw. rewrite Ht; simpl.
  rewrite (bool_decide_eq_true_2 _ Hhuman), Hnone. done.
Qed.

End Answers.

(** X1.  [getSpeedShow] of either driver only reads: however it ends,
    the globals are as before and the program has not been left.  If it
    returns, the answer is the game speed with the display on, or the
    evolution speed with the display off, the latter only for a player
    who is not human while [show_every] is 'Generation' or 'None'.  On
    a human player's turn, and whenever [show_every] is neither
    'Generation' nor 'None', it returns the game speed with the display
    on; for a player who is not human, with [show_every] at 'None', it
    returns the evolution speed with the display off. *)
Theorem getSpeedShow_reads_and_answers (Board : Type) (cp : Z)
    (s : State Board) :
  let r := Connect4Driver.getSpeedShow cp s in
  let r' := MainDriver.getSpeedShow cp s in
  (final_state r = s /\ exited r = false
   /\ final_state r' = s /\ exited r' = false)
  /\ (forall answer,
        returned r = Some answer \/ returned r' = Some answer ->
        speed_show_answer cp s answer)
  /\ (forall t,
        players s !! cp = Some t ->
        t = "Human" \/ (show_every s <> "Generation" /\ show_every s <> "None") ->
        r = Return (game_speed s, true) s /\ r' = Return (game_speed s, true) s)
  /\ (forall t,
        players s !! cp = Some t -> t <> "Human" -> show_every s = "None" ->
        r = Return (evolution_speed s, false) s
        /\ r' = Return (evolution_speed s, false) s).
Proof.
  cbv zeta. split; [|split; [|split]].
  - destruct (reads_only_connect4_getSpeedShow cp s) as [? ?].
    destruct (reads_only_main_getSpeedShow cp s) as [? ?]. done.
  - intros answer [H|H].
    + by apply connect4_getSpeedShow_answer.
    + by apply main_getSpeedShow_answer.
  - intros t Ht Hshown. by apply (getSpeedShow_shown cp t s).
  - intros t Ht Hhuman Hnone. by apply (getSpeedShow_hidden cp t s).
Qed.

Lemma getSpeedShow_reads_and_answers_witness :
  Connect4Driver.getSpeedShow 1 Scenes.human_turn
  = Return (1, true) Scenes.human_turn
  /\ MainDriver.getSpeedShow 1 Scenes.hidden = Return (25, false) Scenes.hidden
  /\ speed_show_answer 1 Example.running (500, true).
Proof.
  destruct (getSpeedShow_reads_and_answers unit 1 Scenes.human_turn)
    as (_ & _ & Hshown & _).
  destruct (getSpeedShow_reads_and_answers unit 1 Scenes.hidden)
    as (_ & _ & _ & Hhidden).
  destruct (getSpeedShow_reads_and_answers unit 1 Example.running)
    as (_ & Hanswer & _).
  split; [|split].
  - apply (Hshown "Human"); [reflexivity|by left].
  - apply (Hhidden "NEAT"); [reflexivity|discriminate|reflexivity].
  - apply Hanswer. left. reflexivity.
Defined.

End SpeedShowFacts.

Module TurnFacts.

Import Neat Py Game Driver Frames TraceFacts FrameFacts.
Local Open Scope drv_scope.

(** Dispatch to the calls that only read, and open the calls that
    write. *)
Ltac keeps_solve :=
  repeat first
    [ keeps_step
    | apply keeps_reads_only;
      first
        [ apply reads_only_player_type
        | apply reads_only_neat_entry
        | apply reads_only_neat_object
        | apply reads_only_frame_due
        | apply reads_only_call_neatMove
        | apply reads_only_at_generation_start
        | apply reads_only_key_move
        | apply reads_only_player_id_of
        | apply reads_only_connect4_getSpeedShow
        | apply reads_only_main_getSpeedShow ]
    | progress
        unfold call_getGenome, call_shouldEvolve, read_best_genome,
          write_fitness, call_nextGenome, call_getInfo, play, Info_update,
          set_data, tick, Connect4Driver.close ].

Section Connect4Py.

Context {Board : Type}.
Variable cfg : Config.
Variable G : Ops Board.

Lemma connect4_match_turn_scores cp speed show possible_move rnd :
  keeps scores (Connect4Driver.match_turn cfg G cp speed show possible_move rnd).
Proof. unfold Connect4Driver.match_turn. keeps_solve. Qed.

Lemma connect4_match_turn_settings cp speed show possible_move rnd :
  keeps settings (Connect4Driver.match_turn cfg G cp speed show possible_move rnd).
Proof. unfold Connect4Driver.match_turn. keeps_solve. Qed.

Lemma after_set_frame_count {A} (k : unit -> Drv Board A) (s : State Board) :
  (forall u, keeps frame_count (k u)) ->
  frame_count (final_state (bind (set_frame_count 1) k s)) = 1.
Proof. intros Hk. unfold bind; simpl. by rewrite Hk. Qed.

(** A match that ends in [match_turn] leaves the frame count at 1. *)
Lemma connect4_match_turn_clock cp speed show possible_move rnd
    (s s' : State Board) result :
  Connect4Driver.match_turn cfg G cp speed show possible_move rnd s
  = Return result s' ->
  match_ (connect4 s) = true -> match_ (connect4 s') = false ->
  frame_count s' = 1.
Proof.
  intros Hrun Hon Hoff.
  unfold Connect4Driver.match_turn in Hrun.
  unfold bind at 1 in Hrun. unfold get at 1 in Hrun. rewrite Hon in Hrun.
  unfold bind at 1 in Hrun.
  destruct (player_type cp s) as [t s1|s1|e s1] eqn:Ht; [|done..].
  assert (s1 = s) as ->.
  { by destruct (reads_only_player_type cp s) as [Hs _]; rewrite Ht in Hs. }
  case_bool_decide as Hhuman.
  - unfold bind at 1 in Hrun.
    destruct (frame_due speed s) as [due s1|s1|e s1] eqn:Hdue; [|done..].
    assert (s1 = s) as ->.
    { by destruct (reads_only_frame_due speed s) as [Hs _]; rewrite Hdue in Hs. }
    destruct due; [|injection Hrun as _ <-; congruence].
    match type of Hrun with
    | bind (set_frame_count 1) ?k s = _ =>
        pose proof (after_set_frame_count k s) as Hclock
    end.
    rewrite Hrun in Hclock. apply Hclock. intros []. keeps_solve.
  - destruct possible_move as [move|]; [|injection Hrun as _ <-; congruence].
    revert Hrun. unfold play, bind, get, log, set_connect4, ret, when; simpl.
    destruct (connect4_main G (connect4 s) move) as [c4 res]; simpl.
    destruct (match_ c4) eqn:Hc4; simpl; intros [= _ <-]; simpl in *; congruence.
Qed.

End Connect4Py.

End TurnFacts.

Module ClockFacts.

Import Neat Py Game Driver Frames TraceFacts FrameFacts TurnFacts.
Local Open Scope drv_scope.

(** [frame_count >= max_fps / speed] without the division, for a
    positive speed. *)
Lemma frame_due_positive {Board} (speed : Z) (s : State Board) :
  0 < speed ->
  frame_due speed s
  = Return (bool_decide (max_fps s <= frame_count s * speed)) s.
Proof.
  intros Hspeed. unfold frame_due, bind, get, ret, throw.
  destruct (speed =? 0) eqn:Hzero; [apply Z.eqb_eq in Hzero; lia|].
  f_equal. apply bool_decide_ext.
  assert (Hpos : (Q2Qc 0 < Qc_of_Z speed)%Qc).
  { rewrite <- Z2Qc_inj_0. by apply (proj1 (Z2Qc_inj_lt 0 speed)). }
  rewrite (Qcmult_le_mono_pos_r _ _ _ Hpos).
  rewrite test_field.
  - by rewrite <- Z2Qc_inj_mul, <- Z2Qc_inj_le.
  - intros Heq. rewrite Heq in Hpos. by apply Qclt_not_eq in Hpos.
Qed.

Lemma frame_due_zero {Board} (s : State Board) :
  frame_due 0 s = Raise ZeroDivisionError s.
Proof. done. Qed.

End ClockFacts.

Module DeferredScoring.

Import Neat Py Game Driver Frames TraceFacts FrameFacts TurnFacts.
Local Open Scope drv_scope.

Section Calls.

Context {Board : Type}.

(** The calls of code that starts by reading are the calls of what
    follows. *)
Lemma calls_made_reads {A B} (m : Drv Board A) (k : A -> Drv Board B)
    (s : State Board) :
  reads_only m ->
  calls_made (bind m k) s
  = match m s with
    | Return a _ => calls_made (k a) s
    | _ => []
    end.
Proof.
  intros Hm. destruct (Hm s) as [Hs _]. unfold calls_made, bind.
  destruct (m s) as [a s1|s1|e s1]; simpl in *; subst s1;
    [done|by rewrite drop_all..].
Qed.

(** The calls of a sequence are the calls of its parts. *)
Lemma calls_made_bind {A B} (m : Drv Board A) (k : A -> Drv Board B)
    (s : State Board) :
  (exists l, calls (final_state (m s)) = calls s ++ l) ->
  (forall a s1, exists l, calls (final_state (k a s1)) = calls s1 ++ l) ->
  calls_made (bind m k) s
  = calls_made m s
    ++ match m s with
       | Return a s1 => calls_made (k a) s1
       | _ => []
       end.
Proof.
  intros [l1 Hl1] Hk. rewrite (calls_made_app m s l1 Hl1).
  unfold bind. destruct (m s) as [a s1|s1|e s1] eqn:Hm; simpl in *.
  - destruct (Hk a s1) as [l2 Hl2]. rewrite (calls_made_app (k a) s1 l2 Hl2).
    apply calls_made_app. rewrite Hm. by rewrite Hl2, Hl1, app_assoc.
  - rewrite app_nil_r. apply calls_made_app. by rewrite Hm.
  - rewrite app_nil_r. apply calls_made_app. by rewrite Hm.
Qed.

Lemma traced_grows {A} (m : Drv Board A) P (s : State Board) :
  traced m P -> exists l, calls (final_state (m s)) = calls s ++ l.
Proof. intros Hm. destruct (Hm s) as (l & Hl & _). by exists l. Qed.

(** Code that keeps the scores writes no fitness. *)
Lemma keeps_scores_writes_nothing {A} (m : Drv Board A) (s : State Board) :
  keeps scores m ->
  (exists l, calls (final_state (m s)) = calls s ++ l) ->
  fitness_written (calls_made m s) = [].
Proof.
  intros Hk [l Hl]. rewrite (calls_made_app m s l Hl).
  specialize (Hk s). unfold scores in Hk.
  rewrite Hl, ScoringFacts.fitness_written_app in Hk.
  apply (app_inv_head (fitness_written (calls s))). by rewrite app_nil_r.
Qed.

End Calls.

Section Connect4Py.

Context {Board : Type}.
Variable cfg : Config.
Variable G : Ops Board.

(** The scoring block writes only in a finished match, on a due frame,
    and then [calculateFitness(result)]. *)
Lemma connect4_end_of_match_writes cp speed result (s : State Board) f :
  In f
    (fitness_written
       (calls_made
          (bind (Connect4Driver.end_of_match cfg G cp speed result)
             (fun _ => tick)) s)) ->
  match_ (connect4 s) = false
  /\ frame_due speed s = Return true s
  /\ f = Qc_of_Z (Connect4Driver.calculateFitness (connect4 s) result).
Proof.
  rewrite calls_made_bind;
    [|eapply traced_grows, MainLoopFacts.connect4_end_of_match_requests_first
     |intros [] s1; exists []; by rewrite app_nil_r].
  assert (Htick :
    match Connect4Driver.end_of_match cfg G cp speed result s with
    | Return _ s1 => calls_made tick s1
    | _ => []
    end = []).
  { destruct (Connect4Driver.end_of_match _ _ _ _ _ s); [|done..].
    unfold calls_made, tick, bind, get, set_frame_count; simpl.
    by rewrite drop_all. }
  rewrite Htick, app_nil_r. intros Hf.
  destruct (ScoringFacts.connect4_end_of_match_fitness cfg G cp speed result s)
    as [Hall _].
  split; [|split].
  - destruct (match_ (connect4 s)) eqn:Hm; [|done].
    revert Hf. unfold calls_made, Connect4Driver.end_of_match, bind, get, when.
    rewrite Hm; simpl. by rewrite drop_all.
  - revert Hf. unfold calls_made, Connect4Driver.end_of_match, bind, get, when.
    destruct (negb (match_ (connect4 s))); [|simpl; by rewrite drop_all].
    destruct (reads_only_frame_due speed s) as [Hs _].
    destruct (frame_due speed s) as [[] s1|s1|e s1]; simpl in *; subst s1;
      rewrite ?drop_all; done.
  - rewrite Forall_forall in Hall. apply Hall. by apply list_elem_of_In.
Qed.

(** Where the fitness values of an iteration of [connect4.py] come
    from: the match is over after [match_turn], the frame is due, and
    the value is [calculateFitness] of the [result] of this
    iteration. *)
Lemma connect4_iteration_writes key rnd (s : State Board) f :
  In f
    (fitness_written (calls_made (Connect4Driver.main_iteration cfg G key rnd) s)) ->
  exists cp answer possible_move result s1,
    Connect4Driver.getSpeedShow cp s = Return answer s
    /\ Connect4Driver.match_turn cfg G cp answer.1 answer.2 possible_move rnd s
       = Return result s1
    /\ match_ (connect4 s1) = false
    /\ frame_due answer.1 s1 = Return true s1
    /\ f = Qc_of_Z (Connect4Driver.calculateFitness (connect4 s1) result).
Proof.
  unfold Connect4Driver.main_iteration.
  rewrite calls_made_reads by apply reads_only_get. simpl.
  rewrite calls_made_reads by apply reads_only_lift.
  destruct (lift _ s) as [cp s0|s0|e s0] eqn:Hcp; [|done..].
  rewrite calls_made_reads by apply reads_only_connect4_getSpeedShow.
  destruct (reads_only_connect4_getSpeedShow cp s) as [Hs1 _].
  destruct (Connect4Driver.getSpeedShow cp s) as [answer s1|s1|e s1] eqn:Hanswer;
    [|done..].
  simpl in Hs1; subst s1.
  rewrite calls_made_reads by apply reads_only_key_move.
  destruct (key_move cp key s) as [possible_move s1|s1|e s1]; [|done..].
  clear s1.
  rewrite calls_made_bind;
    [|eapply traced_grows, MainLoopFacts.connect4_match_turn_requests_first
     |intros result s1;
      eapply (traced_grows
                (bind (Connect4Driver.end_of_match cfg G cp answer.1 result)
                   (fun _ => tick)));
      apply (traced_bind _ MainLoopFacts.requests_first_compositional);
        [apply MainLoopFacts.connect4_end_of_match_requests_first|];
      intros []; apply (quiet_traced _ MainLoopFacts.requests_first_compositional);
      apply quiet_tick].
  rewrite ScoringFacts.fitness_written_app.
  rewrite keeps_scores_writes_nothing;
    [|apply connect4_match_turn_scores
     |eapply traced_grows, MainLoopFacts.connect4_match_turn_requests_first].
  simpl.
  destruct (Connect4Driver.match_turn cfg G cp answer.1 answer.2 possible_move rnd s)
    as [result s1|s1|e s1] eqn:Hturn; [|done..].
  intros Hf. apply connect4_end_of_match_writes in Hf as (Hover & Hdue & ->).
  by exists cp, answer, possible_move, result, s1.
Qed.

End Connect4Py.

End DeferredScoring.

Module LateScoring.

Import Neat Py Game Driver Frames TraceFacts FrameFacts TurnFacts.
Import SpeedShowFacts DeferredScoring ClockFacts.
Local Open Scope drv_scope.

(** X2.  [main] of [connect4.py] sets [result] to [None] at the top of
    every iteration.  So an iteration that finds the match already over
    scores without the result: every fitness it writes is minus the
    number of turns, whoever won. *)
Theorem connect4_late_scoring_ignores_result (Board : Type) (cfg : Config)
    (G : Ops Board) (key : option Z) (rnd : nat) (s : State Board) :
  match_ (connect4 s) = false ->
  Forall (fun f => f = Qc_of_Z (- turn (connect4 s)))
    (fitness_written (calls_made (Connect4Driver.main_iteration cfg G key rnd) s)).
Proof.
  intros Hover. apply Forall_forall. intros f Hf%list_elem_of_In.
  apply connect4_iteration_writes in Hf
    as (cp & answer & possible_move & result & s1 & _ & Hturn & _ & _ & ->).
  revert Hturn. unfold Connect4Driver.match_turn, bind, get, ret.
  rewrite Hover. by intros [= <- <-].
Qed.

Lemma connect4_late_scoring_ignores_result_witness :
  Forall (fun f => f = Qc_of_Z (-6))
    (fitness_written
       (calls_made (Connect4Driver.main_iteration Example.cfg Example.ops None 0)
          Scenes.over)).
Proof.
  apply
    (connect4_late_scoring_ignores_result unit Example.cfg Example.ops None 0
       Scenes.over).
  reflexivity.
Defined.



End LateScoring.

Module MainScoring.

Import Neat Py Game Driver Frames TraceFacts FrameFacts TurnFacts.
Import DeferredScoring.
Local Open Scope drv_scope.

Lemma fitness_calls_app l1 l2 :
  fitness_calls (l1 ++ l2) = fitness_calls l1 ++ fitness_calls l2.
Proof. apply omap_app. Qed.

Section Loop.

Context {Board A : Type}.
Variable body : A -> Drv Board unit.
Variable Q : A -> Z * Qc -> Prop.
Hypothesis body_grows :
  forall a s, exists l, calls (final_state (body a s)) = calls s ++ l.
Hypothesis body_scores :
  forall a s, Forall (Q a) (fitness_calls (calls_made (body a) s)).

Lemma for_each_grows (l : list A) (s : State Board) :
  exists cs, calls (final_state (for_each l body s)) = calls s ++ cs.
Proof.
  revert s. induction l as [|a l IH]; intros s; simpl.
  - exists []. by rewrite app_nil_r.
  - unfold bind. destruct (body_grows a s) as [l1 Hl1].
    destruct (body a s) as [[] s1|s1|e s1]; simpl in *; [|by exists l1..].
    destruct (IH s1) as [l2 Hl2]. exists (l1 ++ l2).
    by rewrite Hl2, Hl1, app_assoc.
Qed.

(** What a loop scores, its rounds score. *)
Lemma for_each_scores (l : list A) (s : State Board) :
  Forall (fun pf => exists a, In a l /\ Q a pf)
    (fitness_calls (calls_made (for_each l body) s)).
Proof.
  revert s. induction l as [|a l IH]; intros s; simpl.
  - unfold calls_made, ret; simpl. rewrite drop_all. constructor.
  - rewrite calls_made_bind;
      [|apply body_grows|intros _ s1; apply for_each_grows].
    rewrite fitness_calls_app. apply Forall_app. split.
    + eapply Forall_impl; [apply body_scores|]. intros pf Hpf.
      exists a. split; [by left|done].
    + destruct (body a s) as [[] s1|s1|e s1]; [|constructor..].
      eapply Forall_impl; [apply IH|]. intros pf (a' & Ha' & Hpf).
      exists a'. split; [by right|done].
Qed.

End Loop.

Section MainPy.

Context {Board : Type}.
Variable cfg : Config.
Variable G : Ops Board.

(** One round of the scoring loop of [main.py] scores [player_key]
    only, with entry [i] of the list. *)
Lemma main_score_player_pairs (fitness : list Qc) (i : nat) (player_key : Z)
    (s : State Board) :
  Forall
    (fun pf => pf.1 = player_key /\ list_item fitness (Z.of_nat i) = ok pf.2)
    (fitness_calls
       (calls_made (@MainDriver.score_player Board cfg fitness (i, player_key)) s)).
Proof.
  unfold calls_made, MainDriver.score_player.
  unfold player_type, when, call_shouldEvolve, call_getGenome, write_fitness.
  unfold call_nextGenome, neat_object, neat_entry.
  unfold bind, get, log, ret, throw, set_neat, set_disk; simpl.
  destruct (players s !! player_key) as [t|]; simpl;
    [|rewrite drop_all; constructor].
  destruct (bool_decide (t = "NEAT")); simpl;
    [|rewrite drop_all; constructor].
  destruct (neats s !! player_key) as [[p|]|] eqn:Hp; simpl;
    [|rewrite drop_all; constructor..].
  destruct (shouldEvolve cfg p); simpl;
    [|rewrite drop_app_length; constructor].
  rewrite Hp; simpl.
  destruct (getGenome p) as [[e|g] p']; simpl.
  { rewrite <- app_assoc, drop_app_length. constructor. }
  destruct (list_item fitness (Z.of_nat i)) as [e|f] eqn:Hf; simpl.
  { rewrite <- app_assoc, drop_app_length. constructor. }
  rewrite lookup_insert_eq; simpl. rewrite lookup_insert_eq; simpl.
  destruct (nextGenome cfg _ _ _) as [p2 d2]; simpl.
  rewrite <- !app_assoc, drop_app_length. simpl. by repeat constructor.
Qed.

(** X4.  The scoring block of [main.py] scores the player to move with
    entry 0 of [connect4.fitnessEvaluation()] and the player behind
    [connect4.PLAYERS[connect4.opponent]['id']] with entry 1, and
    nobody else. *)
Theorem main_scores_mover_and_opponent (current_player speed : Z)
    (s : State Board) :
  let fitness := fitnessEvaluation G (connect4 s) in
  Forall
    (fun pf =>
       (pf.1 = current_player /\ list_item fitness 0 = ok pf.2)
       \/ (PLAYERS (connect4 s) !! opponent (connect4 s) = Some pf.1
           /\ list_item fitness 1 = ok pf.2))
    (fitness_calls
       (calls_made (MainDriver.end_of_match cfg G current_player speed) s)).
Proof.
  cbv zeta. unfold MainDriver.end_of_match.
  rewrite calls_made_reads by apply reads_only_get.
  unfold get at 1. cbv beta match zeta.
  destruct (match_ (connect4 s)); unfold when at 1; cbv beta match delta [negb].
  { unfold calls_made, ret; simpl. rewrite drop_all. constructor. }
  rewrite calls_made_reads by apply reads_only_frame_due.
  destruct (frame_due speed s) as [[] s1|s1|e s1]; try constructor.
  2: { unfold calls_made, when, ret; simpl. rewrite drop_all. constructor. }
  clear s1. unfold when.
  rewrite calls_made_reads by apply reads_only_player_id_of.
  unfold MainDriver.player_id_of at 1. unfold bind at 1, get at 1.
  destruct (PLAYERS (connect4 s) !! opponent (connect4 s)) as [other|] eqn:Hother;
    [|constructor].
  unfold ret at 1.
  rewrite calls_made_bind.
  - assert (Hrest :
      match
        for_each [(0%nat, current_player); (1%nat, other)]
          (MainDriver.score_player cfg (fitnessEvaluation G (connect4 s))) s
      with
      | Return a s1 =>
          calls_made
            (do s2 := get in set_connect4 (connect4_reset G (connect4 s2))) s1
      | _ => []
      end = []).
    { destruct (for_each _ _ s) as [[] s1|s1|e s1]; [|done..].
      unfold calls_made, bind, get, set_connect4; simpl. by rewrite drop_all. }
    rewrite Hrest, app_nil_r.
    eapply Forall_impl.
    + apply (for_each_scores
               (@MainDriver.score_player Board cfg (fitnessEvaluation G (connect4 s)))
               (fun a pf =>
                  pf.1 = a.2
                  /\ list_item (fitnessEvaluation G (connect4 s)) (Z.of_nat a.1)
                     = ok pf.2)).
      * intros a s1.
        eapply traced_grows, MainLoopFacts.main_score_player_asks_first.
      * intros [i key] s1. apply main_score_player_pairs.
    + intros pf (a & Ha & Hkey & Hf). simpl in Ha.
      destruct Ha as [<-|[<-|[]]]; simpl in Hkey, Hf.
      * left. by split.
      * right. split; [by rewrite Hkey|done].
  - apply for_each_grows. intros a s1.
    eapply traced_grows, MainLoopFacts.main_score_player_asks_first.
  - intros [] s1. exists []. by rewrite app_nil_r.
Qed.

End MainPy.

End MainScoring.

Module SidesFacts.

Import Neat Py Game Driver Frames TraceFacts FrameFacts TurnFacts.
Local Open Scope drv_scope.

Section Sides.

Context {Board : Type}.
Variable cfg : Config.
Variable G : Ops Board.

Lemma connect4_scoring_keeps_game result (keys : list Z) :
  keeps connect4 (for_each keys (@Connect4Driver.score_player Board cfg result)).
Proof. unfold Connect4Driver.score_player. keeps_solve. Qed.

Lemma main_scoring_keeps_game fitness (keys : list (nat * Z)) :
  keeps connect4 (for_each keys (@MainDriver.score_player Board cfg fitness)).
Proof.
  apply keeps_for_each. intros [i key].
  unfold MainDriver.score_player. keeps_solve.
Qed.

(** X5.  What the scoring block does to the game.  When the match is
    over and the frame is due, [connect4.py] reverses [player_ids] and
    resets the game, and [main.py] resets the game with the players in
    the order they had; the scoring in between leaves the game alone.
    Otherwise neither touches the game. *)
Theorem scored_match_swaps_sides_in_connect4_only (cp speed : Z)
    (result : option Z) (due : bool) (s : State Board) :
  frame_due speed s = Return due s ->
  (forall s1,
     Connect4Driver.end_of_match cfg G cp speed result s = Return tt s1 ->
     connect4 s1
     = if negb (match_ (connect4 s)) && due
       then connect4_reset G
              (set_player_ids (rev (player_ids (connect4 s))) (connect4 s))
       else connect4 s)
  /\ (forall s2,
        MainDriver.end_of_match cfg G cp speed s = Return tt s2 ->
        connect4 s2
        = if negb (match_ (connect4 s)) && due
          then connect4_reset G (connect4 s)
          else connect4 s).
Proof.
  intros Hdue. split.
  - intros s1 H1. unfold Connect4Driver.end_of_match in H1.
    unfold bind at 1 in H1. unfold get at 1 in H1. cbv beta match zeta in H1.
    destruct (match_ (connect4 s)); unfold when at 1 in H1;
      cbv beta match delta [negb andb] in H1 |- *.
    { unfold ret in H1. by injection H1 as <-. }
    unfold bind at 1 in H1. rewrite Hdue in H1. cbv beta match in H1.
    destruct due; unfold when in H1.
    2: { unfold ret in H1. by injection H1 as <-. }
    revert H1. unfold bind at 1.
    pose proof (connect4_scoring_keeps_game result [cp; opponent (connect4 s)] s)
      as Hkeep.
    destruct (for_each _ _ s) as [[] s'|s'|e s']; [|done..].
    simpl in Hkeep. unfold bind, get, set_connect4; simpl.
    intros [= <-]; simpl. by rewrite Hkeep.
  - intros s2 H2. unfold MainDriver.end_of_match in H2.
    unfold bind at 1 in H2. unfold get at 1 in H2. cbv beta match zeta in H2.
    destruct (match_ (connect4 s)); unfold when at 1 in H2;
      cbv beta match delta [negb andb] in H2 |- *.
    { unfold ret in H2. by injection H2 as <-. }
    unfold bind at 1 in H2. rewrite Hdue in H2. cbv beta match in H2.
    destruct due; unfold when in H2.
    2: { unfold ret in H2. by injection H2 as <-. }
    revert H2. unfold bind at 1.
    destruct (MainDriver.player_id_of _ s) as [other s'|s'|e s'] eqn:Hother;
      [|done..].
    assert (s' = s) as ->.
    { by destruct (reads_only_player_id_of (opponent (connect4 s)) s) as [Hs _];
        rewrite Hother in Hs. }
    unfold bind at 1.
    pose proof (main_scoring_keeps_game (fitnessEvaluation G (connect4 s))
                  [(0%nat, cp); (1%nat, other)] s) as Hkeep.
    destruct (for_each _ _ s) as [[] s'|s'|e s']; [|done..].
    simpl in Hkeep. unfold bind, get, set_connect4; simpl.
    intros [= <-]; simpl. by rewrite Hkeep.
Qed.

End Sides.

Lemma scored_match_swaps_sides_in_connect4_only_witness :
  let s1 :=
    final_state
      (Connect4Driver.end_of_match Example.cfg Example.ops 1 500 None Scenes.over) in
  let s2 :=
    final_state (MainDriver.end_of_match Example.cfg Example.ops 1 500 Scenes.over) in
  player_ids (connect4 s1) = [2; 1] /\ player_ids (connect4 s2) = [1; 2].
Proof.
  intros s1 s2.
  destruct
    (scored_match_swaps_sides_in_connect4_only Example.cfg Example.ops 1 500 None
       true Scenes.over) as [Hconnect4 Hmain]; [by vm_compute|].
  rewrite (Hconnect4 s1) by by vm_compute.
  rewrite (Hmain s2) by by vm_compute.
  by vm_compute.
Defined.

End SidesFacts.

Module WaitingFacts.

Import Neat Py Game Driver Frames TraceFacts FrameFacts TurnFacts ClockFacts.
Local Open Scope drv_scope.

Section Waiting.

Context {Board : Type}.
Variable cfg : Config.
Variable G : Ops Board.

Lemma bind_return {A B} (m : Drv Board A) (k : A -> Drv Board B)
    (s s' : State Board) (a : A) :
  m s = Return a s' -> bind m k s = k a s'.
Proof. intros Hm. unfold bind. by rewrite Hm. Qed.

(** On a human player's turn without a key, and on any other player's
    turn before the frame is due, the body of [if connect4.match:]
    does nothing. *)
Lemma connect4_match_turn_waits cp t speed show rnd (s : State Board) :
  players s !! cp = Some t ->
  match_ (connect4 s) = true ->
  t = "Human"
  \/ (t <> "Human" /\ 0 < speed /\ frame_count s * speed < max_fps s) ->
  Connect4Driver.match_turn cfg G cp speed show None rnd s = Return None s.
Proof.
  intros Ht Hon Hwait.
  unfold Connect4Driver.match_turn, bind at 1, get at 1. rewrite Hon.
  unfold player_type, bind at 1, bind at 1, get at 1. rewrite Ht.
  unfold ret at 1. cbv beta match.
  destruct Hwait as [->|(Hhuman & Hspeed & Hearly)]; [done|].
  rewrite (bool_decide_eq_true_2 _ Hhuman).
  unfold bind at 1. rewrite frame_due_positive by done.
  by rewrite bool_decide_eq_false_2 by lia.
Qed.

Lemma main_match_turn_waits cp t speed show rnd (s : State Board) :
  players s !! cp = Some t ->
  match_ (connect4 s) = true ->
  t = "Human"
  \/ (t <> "Human" /\ 0 < speed /\ frame_count s * speed < max_fps s) ->
  MainDriver.match_turn cfg G cp speed show None rnd s = Return tt s.
Proof.
  intros Ht Hon Hwait.
  unfold MainDriver.match_turn, bind at 1, get at 1. rewrite Hon.
  unfold when at 1.
  unfold player_type, bind at 1, bind at 1, get at 1. rewrite Ht.
  unfold ret at 1. cbv beta match.
  destruct Hwait as [->|(Hhuman & Hspeed & Hearly)]; [done|].
  rewrite (bool_decide_eq_true_2 _ Hhuman).
  unfold bind at 1. rewrite frame_due_positive by done.
  by rewrite bool_decide_eq_false_2 by lia.
Qed.

Lemma key_move_waits cp t key (s : State Board) :
  players s !! cp = Some t ->
  (t = "Human" /\ key = None) \/ t <> "Human" ->
  key_move cp key s = Return None s.
Proof.
  intros Ht Hwait. unfold key_move. destruct key as [k|]; [|done].
  unfold player_type, bind, get, ret. destruct (match_ (connect4 s)); [|done].
  rewrite Ht. destruct Hwait as [[_ [=]]|Hhuman].
  by rewrite (bool_decide_eq_false_2 _ Hhuman).
Qed.

End Waiting.



End WaitingFacts.

Module NeatMoveFailures.

Import Neat Py Game Driver DictFacts NeatMoveFacts.

Section Failures.

Context {Board : Type}.
Variable cfg : Config.
Variable G : Ops Board.
Variable genome : option Genome.
Variable c4 : Connect4 Board.

(** The one exception the evaluation of a slice can end in. *)
Variable e0 : Error.
Hypothesis forward_error :
  forall inputs e, genome_forward cfg genome inputs = raise e -> e = e0.

Lemma score_slices_bad (m : Move) (slices : list (option (list Qc))) :
  forall (d : dict Move Qc) (score : Qc),
    dict_get m d = Some score ->
    (exists inputs,
       In (Some inputs) slices
       /\ is_ok (genome_forward cfg genome inputs) = false) ->
    score_slices cfg genome slices m d = raise e0.
Proof.
  induction slices as [|[inputs|] slices IH];
    intros d score Hget (inputs' & Hin & Hbad); simpl.
  - destruct Hin.
  - destruct (genome_forward cfg genome inputs) as [e|outputs] eqn:Hf; simpl.
    + by rewrite (forward_error inputs e Hf).
    + unfold dict_item. rewrite Hget; simpl.
      apply (IH _ (score + sum outputs)%Qc); [apply dict_get_set_eq|].
      exists inputs'. split; [|done].
      destruct Hin as [[= ->]|Hin]; [|done]. by rewrite Hf in Hbad.
  - apply (IH d score Hget). exists inputs'. split; [|done].
    by destruct Hin as [[=]|Hin].
Qed.

Lemma score_moves_bad (keys : list Move) :
  forall d : dict Move Qc,
    List.NoDup keys ->
    (forall m, In m keys -> dict_get m d = Some 0%Qc) ->
    (exists m inputs,
       In m keys
       /\ In (Some inputs) (List.concat (getPieceSlices G c4 m))
       /\ is_ok (genome_forward cfg genome inputs) = false) ->
    score_moves cfg G genome c4 keys d = raise e0.
Proof.
  induction keys as [|k keys IH]; intros d Hnd Hzero (m & inputs & Hm & Hin & Hbad);
    simpl.
  { destruct Hm. }
  inversion Hnd as [|? ? Hk Hnd']; subst.
  set (bad := fun slice : option (list Qc) =>
                match slice with
                | Some inputs => negb (is_ok (genome_forward cfg genome inputs))
                | None => false
                end).
  destruct (existsb bad (List.concat (getPieceSlices G c4 k))) eqn:Hex.
  - apply existsb_exists in Hex as ([inputs'|] & Hin' & Hbad'); [|done].
    rewrite (score_slices_bad k _ d 0%Qc); [done|by apply Hzero; left|].
    exists inputs'. split; [done|]. by apply negb_true_iff in Hbad'.
  - assert (Hok :
      forall inputs',
        In (Some inputs') (List.concat (getPieceSlices G c4 k)) ->
        is_ok (genome_forward cfg genome inputs') = true).
    { intros inputs' Hin'.
      destruct (is_ok (genome_forward cfg genome inputs')) eqn:Hf; [done|].
      assert (Htrue : existsb bad (List.concat (getPieceSlices G c4 k)) = true).
      { apply existsb_exists. exists (Some inputs'). split; [done|].
        simpl. by rewrite Hf. }
      by rewrite Htrue in Hex. }
    destruct (summed_outputs_ok cfg genome (List.concat (getPieceSlices G c4 k)) Hok
                0%Qc) as [v Hv].
    destruct (score_slices_ok cfg genome k (List.concat (getPieceSlices G c4 k)) d
                0%Qc v) as (d1 & Hrun & _ & _ & Hother);
      [by apply Hzero; left|done|].
    rewrite Hrun; simpl. apply IH; [done| |].
    + intros m' Hm'. rewrite Hother by (intros ->; done). apply Hzero. by right.
    + exists m, inputs. split; [|done].
      destruct Hm as [->|Hm]; [|done]. by rewrite (Hok inputs Hin) in Hbad.
Qed.

(** A slice of a valid move that cannot be evaluated stops [neatMove]. *)
Lemma neatMove_bad_slice (rnd : nat) :
  (exists m inputs,
     valid_move G c4 m
     /\ In (Some inputs) (List.concat (getPieceSlices G c4 m))
     /\ is_ok (genome_forward cfg genome inputs) = false) ->
  neatMove cfg G genome c4 rnd = raise e0.
Proof.
  intros (m & inputs & Hm & Hin & Hbad).
  destruct (possible_moves_spec G c4) as (Hnd & Hzero & Hvalid).
  unfold neatMove. rewrite score_moves_bad; [done|done|done|].
  exists m, inputs. split; [by apply Hvalid|done].
Qed.

End Failures.

Section WithGenome.

Context {Board : Type}.
Variable cfg : Config.
Variable G : Ops Board.
Variable g : Genome.
Variable c4 : Connect4 Board.

Lemma forward_error_size inputs e :
  genome_forward cfg (Some g) inputs = raise e -> e = InvalidInputSize.
Proof.
  simpl. unfold forward. destruct (_ =? _)%nat; [done|]. by intros [= <-].
Qed.

Lemma forward_fails_iff inputs :
  is_ok (genome_forward cfg (Some g) inputs) = false
  <-> List.length inputs <> List.length (input_nodes g).
Proof.
  simpl. unfold forward.
  destruct (Nat.eqb_spec (List.length inputs) (List.length (input_nodes g)));
    simpl; split; done.
Qed.

(** The three ways [neatMove] can go with a genome. *)
Lemma neatMove_cases (rnd : nat) :
  let misfit :=
    exists m inputs,
      valid_move G c4 m
      /\ In (Some inputs) (List.concat (getPieceSlices G c4 m))
      /\ List.length inputs <> List.length (input_nodes g) in
  ((forall m, ~ valid_move G c4 m)
   /\ neatMove cfg G (Some g) c4 rnd = raise KeyError)
  \/ (misfit /\ neatMove cfg G (Some g) c4 rnd = raise InvalidInputSize)
  \/ ((exists m, valid_move G c4 m) /\ ~ misfit
      /\ exists column, neatMove cfg G (Some g) c4 rnd = ok column).
Proof.
  cbv zeta.
  destruct (possible_moves_spec G c4) as (_ & _ & Hvalid).
  destruct (dict_keys (possible_moves G c4)) as [|m0 keys] eqn:Hkeys.
  { left. assert (Hnone : forall m, ~ valid_move G c4 m).
    { intros m Hm. by apply Hvalid in Hm. }
    split; [done|]. by apply neatMove_without_moves. }
  right.
  assert (Hsome : exists m, valid_move G c4 m).
  { exists m0. apply Hvalid. by left. }
  set (bad := fun slice : option (list Qc) =>
                match slice with
                | Some inputs =>
                    negb (List.length inputs =? List.length (input_nodes g))%nat
                | None => false
                end).
  destruct (existsb
              (fun m => existsb bad (List.concat (getPieceSlices G c4 m)))
              (m0 :: keys)) eqn:Hex.
  - left. apply existsb_exists in Hex as (m & Hm & Hex).
    apply existsb_exists in Hex as ([inputs|] & Hin & Hbad); [|done].
    assert (Hmisfit :
      exists m inputs,
        valid_move G c4 m
        /\ In (Some inputs) (List.concat (getPieceSlices G c4 m))
        /\ List.length inputs <> List.length (input_nodes g)).
    { exists m, inputs. split; [by apply Hvalid|]. split; [done|].
      simpl in Hbad. apply negb_true_iff in Hbad. by apply Nat.eqb_neq. }
    split; [done|].
    apply (neatMove_bad_slice cfg G (Some g) c4 InvalidInputSize forward_error_size).
    destruct Hmisfit as (m' & inputs' & ? & ? & ?).
    exists m', inputs'. split; [done|]. split; [done|]. by apply forward_fails_iff.
  - right. split; [done|].
    assert (Hfit :
      forall m inputs,
        valid_move G c4 m ->
        In (Some inputs) (List.concat (getPieceSlices G c4 m)) ->
        List.length inputs = List.length (input_nodes g)).
    { intros m inputs Hm Hin.
      destruct (Nat.eqb_spec (List.length inputs) (List.length (input_nodes g)))
        as [|Hne]; [done|].
      assert (Htrue :
        existsb (fun m => existsb bad (List.concat (getPieceSlices G c4 m)))
          (m0 :: keys) = true).
      { apply existsb_exists. exists m. split; [by apply Hvalid|].
        apply existsb_exists. exists (Some inputs). split; [done|].
        simpl. apply negb_true_iff. by apply Nat.eqb_neq. }
      by rewrite Htrue in Hex. }
    split.
    { intros (m & inputs & Hm & Hin & Hne). by apply Hne, (Hfit m). }
    destruct (neatMove_chooses cfg G (Some g) c4) as [Hchoice _]; [|done|].
    { intros m inputs Hm Hin.
      destruct (is_ok (genome_forward cfg (Some g) inputs)) eqn:Hf; [done|].
      apply forward_fails_iff in Hf. by destruct Hf; apply (Hfit m). }
    destruct (Hchoice rnd) as (m & Hrun & _). by exists m.2.
Qed.

End WithGenome.



End NeatMoveFailures.

Module ErrorFacts.

Import Neat Py Game Driver Frames TraceFacts FrameFacts TurnFacts SpeedShowFacts.
Local Open Scope drv_scope.

Lemma list_item_error {A} (l : list A) (i : Z) (e : Error) :
  list_item l i = raise e -> lookup_error e.
Proof.
  unfold list_item. destruct (_ && _); [|by intros [= <-]].
  destruct (l !! _); [done|]. by intros [= <-].
Qed.

Section NeatMove.

Context {Board : Type}.
Variable cfg : Config.
Variable G : Ops Board.
Variable genome : option Genome.

Lemma genome_forward_error inputs e :
  genome_forward cfg genome inputs = raise e -> lookup_error e.
Proof.
  destruct genome as [g|]; simpl; [|by intros [= <-]].
  unfold forward. destruct (_ =? _)%nat; [done|]. by intros [= <-].
Qed.

Lemma score_slices_error (m : Move) (slices : list (option (list Qc))) e :
  forall d : dict Move Qc,
    score_slices cfg genome slices m d = raise e -> lookup_error e.
Proof.
  induction slices as [|[inputs|] slices IH]; intros d; simpl; [done| |apply IH].
  destruct (genome_forward cfg genome inputs) as [e'|outputs] eqn:Hf; simpl.
  { intros [= <-]. by eapply genome_forward_error. }
  unfold dict_item. destruct (dict_get m d); simpl; [apply IH|by intros [= <-]].
Qed.

Lemma score_moves_error (c4 : Connect4 Board) (keys : list Move) e :
  forall d : dict Move Qc,
    score_moves cfg G genome c4 keys d = raise e -> lookup_error e.
Proof.
  induction keys as [|k keys IH]; intros d; simpl; [done|].
  destruct (score_slices cfg genome _ k d) as [e'|d'] eqn:Hs; simpl; [|apply IH].
  intros [= <-]. by eapply score_slices_error.
Qed.

Lemma neatMove_error (c4 : Connect4 Board) (rnd : nat) e :
  neatMove cfg G genome c4 rnd = raise e -> lookup_error e.
Proof.
  unfold neatMove.
  destruct (score_moves cfg G genome c4 _ _) as [e'|scores] eqn:Hs; simpl.
  { intros [= <-]. by eapply score_moves_error. }
  destruct (findMaxMin_max _); [|by intros [= <-]].
  unfold dict_item. destruct (dict_get _ _); simpl; [|by intros [= <-]].
  unfold random_choice. destruct (_ !! _); simpl; [done|by intros [= <-]].
Qed.

End NeatMove.

(** Dispatch to the calls that raise look-up errors only. *)
Ltac raises_leaf :=
  first
    [ raises_step
    | apply raises_only_throw; exact I
    | apply raises_only_lift; intros ?; apply list_item_error ].

Section Calls.

Context {Board : Type}.
Variable cfg : Config.
Variable G : Ops Board.

Lemma player_type_error player :
  raises_only lookup_error (@player_type Board player).
Proof. unfold player_type. repeat raises_leaf. Qed.

Lemma neat_entry_error player :
  raises_only lookup_error (@neat_entry Board player).
Proof. unfold neat_entry. repeat raises_leaf. Qed.

Lemma neat_object_error player :
  raises_only lookup_error (@neat_object Board player).
Proof.
  unfold neat_object. apply raises_only_bind; [apply neat_entry_error|].
  intros o. repeat raises_leaf.
Qed.

Lemma call_getGenome_error player :
  raises_only lookup_error (@call_getGenome Board player).
Proof.
  unfold call_getGenome. apply raises_only_bind; [apply neat_object_error|].
  intros p. apply raises_only_bind; [repeat raises_leaf|]. intros _.
  unfold getGenome. destruct (genome_at _ _ _); repeat raises_leaf.
  apply raises_only_lift. by intros e [= <-].
Qed.

Lemma call_neatMove_error genome rnd :
  raises_only lookup_error (call_neatMove cfg G genome rnd).
Proof.
  unfold call_neatMove. apply raises_only_bind; [apply raises_only_get|].
  intros s. apply raises_only_lift. intros e. apply neatMove_error.
Qed.

Lemma at_generation_start_error ids :
  raises_only lookup_error (@at_generation_start Board ids).
Proof.
  induction ids as [|player_id rest IH]; simpl; [apply raises_only_ret|].
  apply raises_only_bind; [apply neat_entry_error|]. intros o.
  destruct o as [p|]; [|done]. destruct (_ && _); [apply raises_only_ret|done].
Qed.

Lemma frame_due_error speed :
  raises_only (loop_error speed) (@frame_due Board speed).
Proof.
  unfold frame_due. apply raises_only_bind; [apply raises_only_get|]. intros s.
  destruct (Z.eqb_spec speed 0); [|apply raises_only_ret].
  apply raises_only_throw. by right.
Qed.

End Calls.

(** Take a piece of a main loop apart for the exceptions it can end
    in. *)
Ltac loop_errors :=
  repeat first
    [ raises_step
    | apply frame_due_error
    | apply (raises_only_impl lookup_error);
      [ let e := fresh "e" in intros e; by left
      | first
          [ apply player_type_error
          | apply neat_entry_error
          | apply neat_object_error
          | apply call_getGenome_error
          | apply call_neatMove_error
          | apply at_generation_start_error ] ]
    | apply raises_only_throw; left; exact I
    | apply raises_only_lift;
      let e := fresh "e" in
      let H := fresh "H" in
      intros e H; left; apply (list_item_error _ _ _ H)
    | progress
        unfold call_shouldEvolve, read_best_genome, write_fitness,
          call_nextGenome, call_getInfo, play, Info_update, set_data, tick,
          Connect4Driver.close, key_move, MainDriver.player_id_of ].

Section Loops.

Context {Board : Type}.
Variable cfg : Config.
Variable G : Ops Board.

Lemma connect4_match_turn_error cp speed show possible_move rnd :
  raises_only (loop_error speed)
    (Connect4Driver.match_turn cfg G cp speed show possible_move rnd).
Proof. unfold Connect4Driver.match_turn. loop_errors. Qed.

Lemma connect4_end_of_match_error cp speed result :
  raises_only (loop_error speed)
    (Connect4Driver.end_of_match cfg G cp speed result).
Proof.
  unfold Connect4Driver.end_of_match, Connect4Driver.score_player. loop_errors.
Qed.

Lemma main_match_turn_error cp speed show possible_move rnd :
  raises_only (loop_error speed)
    (MainDriver.match_turn cfg G cp speed show possible_move rnd).
Proof. unfold MainDriver.match_turn. loop_errors. Qed.

Lemma main_end_of_match_error cp speed :
  raises_only (loop_error speed) (MainDriver.end_of_match cfg G cp speed).
Proof.
  unfold MainDriver.end_of_match. loop_errors.
  unfold MainDriver.score_player. loop_errors.
Qed.

Lemma connect4_getSpeedShow_error cp :
  raises_only lookup_error (@Connect4Driver.getSpeedShow Board cp).
Proof.
  unfold Connect4Driver.getSpeedShow.
  apply raises_only_bind; [apply player_type_error|]. intros t.
  apply raises_only_bind; [apply raises_only_get|]. intros s.
  repeat case_bool_decide; try apply raises_only_ret.
  apply raises_only_bind; [apply raises_only_lift, list_item_error|].
  intros other.
  apply raises_only_bind; [apply at_generation_start_error|].
  intros []; apply raises_only_ret.
Qed.

Lemma main_getSpeedShow_error cp :
  raises_only lookup_error (@MainDriver.getSpeedShow Board cp).
Proof.
  unfold MainDriver.getSpeedShow.
  apply raises_only_bind; [apply player_type_error|]. intros t.
  apply raises_only_bind; [apply raises_only_get|]. intros s.
  repeat case_bool_decide; try apply raises_only_ret.
  apply raises_only_bind.
  { unfold MainDriver.player_id_of. repeat raises_leaf. }
  intros other.
  apply raises_only_bind; [apply at_generation_start_error|].
  intros []; apply raises_only_ret.
Qed.

Lemma loop_error_speed (s : State Board) cp answer e :
  speed_show_answer cp s answer ->
  loop_error answer.1 e ->
  lookup_error e
  \/ (e = ZeroDivisionError /\ (game_speed s = 0 \/ evolution_speed s = 0)).
Proof.
  intros Hanswer [He|[-> Hzero]]; [by left|]. right. split; [done|].
  destruct Hanswer as [->|[-> _]]; simpl in Hzero; auto.
Qed.

Lemma raised_bind_reads {A B} (m : Drv Board A) (k : A -> Drv Board B)
    (s : State Board) :
  reads_only m ->
  raised (bind m k s)
  = match m s with
    | Return a _ => raised (k a s)
    | Exit _ => None
    | Raise e _ => Some e
    end.
Proof.
  intros Hm. destruct (Hm s) as [Hs _]. unfold bind.
  destruct (m s) as [a s1|s1|e s1]; simpl in *; by subst.
Qed.

Lemma connect4_iteration_error key rnd (s : State Board) e :
  raised (Connect4Driver.main_iteration cfg G key rnd s) = Some e ->
  lookup_error e
  \/ (e = ZeroDivisionError /\ (game_speed s = 0 \/ evolution_speed s = 0)).
Proof.
  unfold Connect4Driver.main_iteration.
  rewrite raised_bind_reads by apply reads_only_get. unfold get at 1.
  rewrite raised_bind_reads by apply reads_only_lift.
  destruct (list_item _ _) as [e'|cp] eqn:Hcp; unfold lift at 1.
  { intros [= <-]. left. by eapply list_item_error. }
  unfold ret at 1.
  rewrite raised_bind_reads by apply reads_only_connect4_getSpeedShow.
  pose proof (connect4_getSpeedShow_error cp s) as Herr.
  pose proof (connect4_getSpeedShow_answer cp s) as Hanswer.
  destruct (Connect4Driver.getSpeedShow cp s) as [answer s1|s1|e' s1];
    [|done|intros [= <-]; left; by apply Herr].
  specialize (Hanswer answer eq_refl). clear Herr.
  intros He. apply (loop_error_speed s cp answer e Hanswer).
  revert He. apply raises_only_bind; [loop_errors|]. intros possible_move.
  apply raises_only_bind; [apply connect4_match_turn_error|]. intros result.
  apply raises_only_bind; [apply connect4_end_of_match_error|]. intros _.
  loop_errors.
Qed.

Lemma main_iteration_error key rnd (s : State Board) e :
  raised (MainDriver.main_iteration cfg G key rnd s) = Some e ->
  lookup_error e
  \/ (e = ZeroDivisionError /\ (game_speed s = 0 \/ evolution_speed s = 0)).
Proof.
  unfold MainDriver.main_iteration.
  rewrite raised_bind_reads by apply reads_only_get. unfold get at 1.
  rewrite raised_bind_reads by apply reads_only_player_id_of.
  unfold MainDriver.player_id_of at 1, bind at 1, get at 1.
  destruct (PLAYERS (connect4 s) !! current_player (connect4 s)) as [cp|];
    [|intros [= <-]; by left].
  unfold ret at 1.
  rewrite raised_bind_reads by apply reads_only_main_getSpeedShow.
  pose proof (main_getSpeedShow_error cp s) as Herr.
  pose proof (main_getSpeedShow_answer cp s) as Hanswer.
  destruct (MainDriver.getSpeedShow cp s) as [answer s1|s1|e' s1];
    [|done|intros [= <-]; left; by apply Herr].
  specialize (Hanswer answer eq_refl). clear Herr.
  intros He. apply (loop_error_speed s cp answer e Hanswer).
  revert He. unfold MainDriver.display.
  apply raises_only_bind; [loop_errors|]. intros possible_move.
  apply raises_only_bind; [apply main_match_turn_error|]. intros _.
  apply raises_only_bind; [apply main_end_of_match_error|]. intros _.
  loop_errors.
Qed.

End Loops.



End ErrorFacts.

Module SetupFacts.

Import Neat Py Game Driver Screens Frames TraceFacts FrameFacts TurnFacts.
Local Open Scope drv_scope.

(** The setters of the options screen and of [setup()] are taken apart
    like the others. *)
Ltac setup_step :=
  first
    [ keeps_step
    | match goal with
      | |- keeps _ (set_neat_entry _ _) => frame_leaf
      | |- keeps _ (set_player _ _) => frame_leaf
      | |- keeps _ (set_show_every _) => frame_leaf
      | |- keeps _ (set_game_speed _) => frame_leaf
      | |- keeps _ (set_evolution_speed _) => frame_leaf
      | |- keeps _ (set_max_fps _) => frame_leaf
      end
    | apply keeps_reads_only;
      first [apply reads_only_player_type | apply reads_only_neat_entry] ].

Section SetupAi.

Context {Board : Type}.
Variable cfg : Config.
Variable DIRECTORY : string.

Lemma connect4_setupAi_keeps {X} (f : State Board -> X) player_id inputs outputs :
  (forall s c, f (final_state (log c s)) = f s) ->
  keeps f (Connect4Driver.setupAi cfg DIRECTORY player_id inputs outputs).
Proof.
  intros Hlog.
  assert (Hl : forall c, keeps f (@log Board c)) by (intros c s; apply Hlog).
  unfold Connect4Driver.setupAi, Connect4Driver.isfile,
    Connect4Driver.call_load, Connect4Driver.call_generate.
  repeat first [apply Hl | setup_step].
Qed.

Lemma main_setupAi_keeps {X} (f : State Board -> X) player_id inputs outputs n :
  (forall s c, f (final_state (log c s)) = f s) ->
  keeps f (MainDriver.setupAi cfg DIRECTORY player_id inputs outputs n).
Proof.
  intros Hlog.
  assert (Hl : forall c, keeps f (@log Board c)) by (intros c s; apply Hlog).
  unfold MainDriver.setupAi, MainDriver.isfile,
    MainDriver.call_load, MainDriver.call_generate.
  repeat first [apply Hl | setup_step].
Qed.

End SetupAi.

Section Engines.

Context {Board : Type}.
Variable ai : Z -> Drv Board Population.
Hypothesis ai_players : forall player_id, keeps players (ai player_id).
Hypothesis ai_neats : forall player_id, keeps neats (ai player_id).

(** One round of the loop of [setup()]: the player's entry of [neats]
    is set as the player's type asks for, and no other entry is
    touched. *)
Lemma setup_player_effect player_id (s s' : State Board) :
  setup_player ai player_id s = Return tt s' ->
  players s' = players s
  /\ (exists t,
        players s !! player_id = Some t
        /\ engine_for t (neats s' !! player_id))
  /\ (forall other, other <> player_id -> neats s' !! other = neats s !! other).
Proof.
  unfold setup_player, set_neat_entry at 1, player_type.
  unfold bind at 1. unfold bind at 1. unfold bind at 1, get at 1. simpl.
  destruct (players s !! player_id) as [t|] eqn:Ht; [|done].
  unfold ret at 1. unfold when.
  case_bool_decide as Hhuman.
  - unfold bind.
    pose proof (ai_players player_id) as Hp. pose proof (ai_neats player_id) as Hn.
    match goal with
    | |- context [ai player_id ?s0] =>
        specialize (Hp s0); specialize (Hn s0);
        destruct (ai player_id s0) as [neat s1|s1|e s1]; [|done..]
    end.
    simpl in Hp, Hn. unfold set_neat_entry. intros [= <-]; simpl.
    split; [done|]. split.
    + exists t. split; [done|]. unfold engine_for.
      rewrite bool_decide_eq_false_2 by done. exists neat.
      by rewrite lookup_insert_eq.
    + intros other Hother. rewrite lookup_insert_ne by done.
      rewrite Hn. by rewrite lookup_insert_ne.
  - subst t. unfold ret. intros [= <-]; simpl.
    split; [done|]. split.
    + exists "Human". split; [done|]. unfold engine_for; simpl.
      by rewrite lookup_insert_eq.
    + intros other Hother. by rewrite lookup_insert_ne.
Qed.

Lemma setup_loop_effect (keys : list Z) :
  forall s s' : State Board,
    for_each keys (setup_player ai) s = Return tt s' ->
    players s' = players s
    /\ (forall player_id t,
          In player_id keys -> players s !! player_id = Some t ->
          engine_for t (neats s' !! player_id))
    /\ (forall player_id,
          ~ In player_id keys -> neats s' !! player_id = neats s !! player_id).
Proof.
  induction keys as [|k keys IH]; intros s s'; simpl.
  { intros [= <-]. by repeat split. }
  unfold bind.
  destruct (setup_player ai k s) as [[] s1|s1|e s1] eqn:Hk; [|done..].
  apply setup_player_effect in Hk as (Hplayers & (t & Ht & Hengine) & Hothers).
  intros Hrest. apply IH in Hrest as (Hplayers' & Hin & Hout).
  split; [congruence|]. split.
  - intros player_id t' Hplayer Ht'.
    destruct (in_dec Z.eq_dec player_id keys) as [Hkeys|Hkeys].
    + apply Hin; [done|]. by rewrite Hplayers.
    + destruct Hplayer as [->|?]; [|done].
      rewrite Hout by done. congruence.
  - intros player_id Hplayer. rewrite Hout by (intros ?; apply Hplayer; by right).
    apply Hothers. intros ->. apply Hplayer. by left.
Qed.

(** On a start without save files [setupAi] hands out the same fresh
    population to every player that is not human. *)
Variable fresh : Population.
Hypothesis ai_disk : forall player_id, keeps disk (ai player_id).
Hypothesis ai_fresh :
  forall player_id (s : State Board),
    is_Some (players s !! player_id) -> disk s = ∅ ->
    returned (ai player_id s) = Some fresh.

Lemma setup_player_fresh player_id t (s : State Board) :
  players s !! player_id = Some t -> disk s = ∅ ->
  exists s',
    setup_player ai player_id s = Return tt s'
    /\ players s' = players s /\ disk s' = ∅
    /\ neats s'
       = <[player_id := if bool_decide (t = "Human") then None else Some fresh]>
           (neats s).
Proof.
  intros Ht Hdisk.
  unfold setup_player, set_neat_entry at 1, player_type.
  unfold bind at 1. unfold bind at 1. unfold bind at 1, get at 1. simpl.
  rewrite Ht. unfold ret at 1. unfold when.
  case_bool_decide as Hhuman.
  - rewrite bool_decide_eq_false_2 by done. unfold bind.
    pose proof (ai_players player_id) as Hp. pose proof (ai_neats player_id) as Hn.
    pose proof (ai_disk player_id) as Hd.
    match goal with
    | |- context [ai player_id ?s0] =>
        specialize (Hp s0); specialize (Hn s0); specialize (Hd s0);
        pose proof (ai_fresh player_id s0) as Hf;
        destruct (ai player_id s0) as [neat s1|s1|e s1]
    end; simpl in *;
      (assert (Hsome : is_Some (players s !! player_id)) by by rewrite Ht);
      specialize (Hf Hsome Hdisk); [|done..].
    injection Hf as ->.
    eexists. split; [done|]. simpl. repeat split; try congruence.
    rewrite Hn. by rewrite insert_insert_eq.
  - subst t. simpl. eexists. split; [done|]. by simpl.
Qed.

Lemma setup_engines_fresh t1 t2 (s : State Board) :
  players s !! 1 = Some t1 -> players s !! 2 = Some t2 -> disk s = ∅ ->
  exists s',
    setup_engines ai s = Return tt s'
    /\ neats s' !! 1 = Some (if bool_decide (t1 = "Human") then None else Some fresh)
    /\ neats s' !! 2 = Some (if bool_decide (t2 = "Human") then None else Some fresh).
Proof.
  intros Ht1 Ht2 Hdisk. unfold setup_engines, player_keys; simpl.
  destruct (setup_player_fresh 1 t1 s Ht1 Hdisk)
    as (s1 & Hrun1 & Hplayers1 & Hdisk1 & Hneats1).
  destruct (setup_player_fresh 2 t2 s1) as (s2 & Hrun2 & _ & _ & Hneats2);
    [by rewrite Hplayers1|done|].
  exists s2. unfold bind. rewrite Hrun1, Hrun2. split; [done|].
  rewrite Hneats2, Hneats1. split.
  - rewrite lookup_insert_ne by done. by rewrite lookup_insert_eq.
  - by rewrite lookup_insert_eq.
Qed.

End Engines.

Section Setup.

Context {Board : Type}.
Variable cfg : Config.
Variable DIRECTORY : string.
Variable new_game : Connect4 Board.

Lemma connect4_setupAi_fresh player_id inputs outputs (s : State Board) :
  is_Some (players s !! player_id) -> disk s = ∅ ->
  returned (Connect4Driver.setupAi cfg DIRECTORY player_id inputs outputs s)
  = Some (generate cfg inputs outputs 50).
Proof.
  intros [t Ht] Hdisk.
  unfold Connect4Driver.setupAi, Connect4Driver.isfile, player_type.
  unfold bind, get, ret. cbv beta. rewrite Ht. cbv beta match.
  case_bool_decide; cbv beta match; rewrite Hdisk, lookup_empty;
    by rewrite bool_decide_eq_false_2 by by intros [].
Qed.

Lemma main_setupAi_fresh player_id inputs outputs n (s : State Board) :
  is_Some (players s !! player_id) -> disk s = ∅ ->
  returned (MainDriver.setupAi cfg DIRECTORY player_id inputs outputs n s)
  = Some (generate cfg inputs outputs n).
Proof.
  intros [t Ht] Hdisk.
  unfold MainDriver.setupAi, MainDriver.isfile, player_type.
  unfold bind, get, ret. cbv beta. rewrite Ht. cbv beta match.
  case_bool_decide; cbv beta match; rewrite Hdisk, lookup_empty;
    by rewrite bool_decide_eq_false_2 by by intros [].
Qed.

Lemma connect4_setup_keeps_surroundings :
  keeps surroundings (connect4_setup cfg DIRECTORY new_game).
Proof.
  unfold connect4_setup, setup_engines, setup_player.
  repeat first [apply connect4_setupAi_keeps; done | setup_step].
Qed.

Lemma main_engines_keep_surroundings :
  keeps surroundings
    (@setup_engines Board
       (fun player_id => MainDriver.setupAi cfg DIRECTORY player_id 4 1 100)).
Proof.
  unfold setup_engines, setup_player.
  repeat first [apply main_setupAi_keeps; done | setup_step].
Qed.

Lemma setup_engines_keep_game_and_panel ai :
  (forall player_id, keeps (fun s => (connect4 s, info s)) (ai player_id)) ->
  keeps (fun s : State Board => (connect4 s, info s)) (setup_engines ai).
Proof.
  intros Hai. unfold setup_engines, setup_player.
  repeat first [apply Hai | setup_step].
Qed.

(** What [Options.update()] of [main.py] does to the globals when it
    is called without a mouse position. *)
Lemma main_Options_refresh_effect (s s1 : State Board) :
  main_Options_refresh s = Return tt s1 ->
  exists t1 t2,
    players s !! 1 = Some t1 /\ players s !! 2 = Some t2
    /\ players s1 = players s /\ neats s1 = neats s
    /\ connect4 s1 = connect4 s /\ info s1 = info s
    /\ max_fps s1 = max_fps s /\ frame_count s1 = frame_count s
    /\ disk s1 = disk s /\ calls s1 = calls s
    /\ show_every s1
       = (if bool_decide (t1 = "NEAT" /\ t2 = "NEAT") then show_every s
          else "Genome")
    /\ evolution_speed s1
       = (if bool_decide (t1 = "NEAT" /\ t2 = "NEAT")
          then Z.max (game_speed s) (evolution_speed s)
          else 1)
    /\ game_speed s1
       = (if bool_decide (t1 = "Human" \/ t2 = "Human") then 1
          else game_speed s).
Proof.
  unfold main_Options_refresh, player_type.
  unfold bind, get, when, lift, set_evolution_speed, set_show_every,
    set_game_speed, ret; simpl.
  destruct (players s !! 1) as [t1|] eqn:Ht1; [|done].
  destruct (players s !! 2) as [t2|] eqn:Ht2; [|done].
  intros Hrun. exists t1, t2. split; [done|]. split; [done|].
  revert Hrun.
  destruct (bool_decide (t1 = "NEAT" /\ t2 = "NEAT")) eqn:Hneat;
    destruct (bool_decide (t1 = "Human" \/ t2 = "Human")) eqn:Hhuman.
  - apply bool_decide_eq_true in Hneat as [-> ->].
    apply bool_decide_eq_true in Hhuman as [[=]|[=]].
  - apply bool_decide_eq_true in Hneat as [-> ->]. simpl.
    destruct (Z.ltb_spec (evolution_speed s) (game_speed s));
      intros [= <-]; simpl; repeat split; lia.
  - apply bool_decide_eq_false in Hneat.
    apply bool_decide_eq_true in Hhuman.
    assert (Hor :
      bool_decide (t1 <> "NEAT") || bool_decide (t2 <> "NEAT") = true).
    { apply orb_true_iff.
      destruct (decide (t1 = "NEAT")) as [->|?]; [right|left];
        apply bool_decide_eq_true; [|done]. intros ->. by apply Hneat. }
    assert (Hor' :
      bool_decide (t1 = "Human") || bool_decide (t2 = "Human") = true).
    { apply orb_true_iff. destruct Hhuman; [left|right];
        by apply bool_decide_eq_true. }
    rewrite Hor, Hor'. by intros [= <-].
  - apply bool_decide_eq_false in Hneat.
    apply bool_decide_eq_false in Hhuman.
    assert (Hor :
      bool_decide (t1 <> "NEAT") || bool_decide (t2 <> "NEAT") = true).
    { apply orb_true_iff.
      destruct (decide (t1 = "NEAT")) as [->|?]; [right|left];
        apply bool_decide_eq_true; [|done]. intros ->. by apply Hneat. }
    assert (Hor' :
      bool_decide (t1 = "Human") || bool_decide (t2 = "Human") = false).
    { apply orb_false_iff. split; apply bool_decide_eq_false; intros ->;
        apply Hhuman; auto. }
    rewrite Hor, Hor'. by intros [= <-].
Qed.

(** [setup()] is the loop over the players, run on a new game and a
    new panel. *)
Lemma connect4_setup_run (s : State Board) :
  connect4_setup cfg DIRECTORY new_game s
  = setup_engines
      (fun player_id => Connect4Driver.setupAi cfg DIRECTORY player_id 4 1)
      (mkState (players s) (neats s) new_game Info_init (show_every s)
         (game_speed s) (evolution_speed s) (max_fps s) (frame_count s)
         (disk s) (calls s)).
Proof. reflexivity. Qed.

Lemma connect4_setup_effect (s s' : State Board) :
  connect4_setup cfg DIRECTORY new_game s = Return tt s' ->
  connect4 s' = new_game /\ info s' = Info_init
  /\ surroundings s' = surroundings s
  /\ engines_in_line s'.
Proof.
  intros Hrun.
  pose proof (connect4_setup_keeps_surroundings s) as Hsur.
  rewrite Hrun in Hsur; simpl in Hsur.
  rewrite connect4_setup_run in Hrun.
  assert (Hkeeps :
    forall X (f : State Board -> X) player_id,
      (forall s c, f (final_state (log c s)) = f s) ->
      keeps f (Connect4Driver.setupAi cfg DIRECTORY player_id 4 1)).
  { intros X f player_id Hf. by apply connect4_setupAi_keeps. }
  match type of Hrun with
  | setup_engines ?ai ?s0 = _ =>
      pose proof
        (setup_engines_keep_game_and_panel ai
           (fun id =>
              Hkeeps _ (fun s => (connect4 s, info s)) id (fun _ _ => eq_refl))
           s0) as Hgame
  end.
  rewrite Hrun in Hgame; simpl in Hgame. injection Hgame as Hgame Hinfo.
  destruct
    (setup_loop_effect _
       (fun id => Hkeeps _ players id (fun _ _ => eq_refl))
       (fun id => Hkeeps _ neats id (fun _ _ => eq_refl))
       player_keys _ _ Hrun) as (Hplayers & Hin & _).
  simpl in Hplayers.
  split; [done|]. split; [done|]. split; [done|].
  intros player t Hplayer Ht. apply Hin; [done|]. simpl. by rewrite <- Hplayers.
Qed.

Lemma connect4_setup_fresh t1 t2 (s : State Board) :
  players s !! 1 = Some t1 -> players s !! 2 = Some t2 -> disk s = ∅ ->
  exists s',
    connect4_setup cfg DIRECTORY new_game s = Return tt s'
    /\ neats s' !! 1
       = Some (if bool_decide (t1 = "Human") then None
               else Some (generate cfg 4 1 50))
    /\ neats s' !! 2
       = Some (if bool_decide (t2 = "Human") then None
               else Some (generate cfg 4 1 50)).
Proof.
  intros Ht1 Ht2 Hdisk. rewrite connect4_setup_run.
  apply setup_engines_fresh; try done.
  - intros id. by apply connect4_setupAi_keeps.
  - intros id. by apply connect4_setupAi_keeps.
  - intros id. by apply connect4_setupAi_keeps.
  - intros id s0. apply connect4_setupAi_fresh.
Qed.

Lemma main_setup_run (s : State Board) :
  main_setup cfg DIRECTORY new_game s
  = bind main_Options_refresh
      (fun _ =>
         setup_engines
           (fun player_id => MainDriver.setupAi cfg DIRECTORY player_id 4 1 100))
      (mkState (players s) (neats s) new_game Info_init (show_every s)
         (game_speed s) (evolution_speed s) (max_fps s) (frame_count s)
         (disk s) (calls s)).
Proof. reflexivity. Qed.

Lemma main_setup_effect (s s' : State Board) :
  main_setup cfg DIRECTORY new_game s = Return tt s' ->
  exists t1 t2,
    players s !! 1 = Some t1 /\ players s !! 2 = Some t2
    /\ connect4 s' = new_game /\ players s' = players s
    /\ max_fps s' = max_fps s /\ frame_count s' = frame_count s
    /\ disk s' = disk s
    /\ engines_in_line s'
    /\ show_every s'
       = (if bool_decide (t1 = "NEAT" /\ t2 = "NEAT") then show_every s
          else "Genome")
    /\ evolution_speed s'
       = (if bool_decide (t1 = "NEAT" /\ t2 = "NEAT")
          then Z.max (game_speed s) (evolution_speed s)
          else 1)
    /\ game_speed s'
       = (if bool_decide (t1 = "Human" \/ t2 = "Human") then 1
          else game_speed s).
Proof.
  rewrite main_setup_run. unfold bind at 1.
  match goal with
  | |- match main_Options_refresh ?s0 with _ => _ end = _ -> _ =>
      destruct (main_Options_refresh s0) as [[] s1|s1|e s1] eqn:Hrefresh;
        [|done..]
  end.
  apply main_Options_refresh_effect in Hrefresh
    as (t1 & t2 & Ht1 & Ht2 & Hplayers1 & _ & Hgame1 & _ & Hfps1 & Hframe1
        & Hdisk1 & _ & Hshow1 & Hevolution1 & Hspeed1).
  simpl in *. intros Hrun. exists t1, t2.
  assert (Hkeeps :
    forall X (f : State Board -> X) player_id,
      (forall s c, f (final_state (log c s)) = f s) ->
      keeps f (MainDriver.setupAi cfg DIRECTORY player_id 4 1 100)).
  { intros X f player_id Hf. by apply main_setupAi_keeps. }
  pose proof (main_engines_keep_surroundings s1) as Hsur.
  rewrite Hrun in Hsur; simpl in Hsur.
  injection Hsur as Hplayers Hshow Hspeed Hevolution Hfps Hframe Hdisk.
  match type of Hrun with
  | setup_engines ?ai ?s0 = _ =>
      pose proof
        (setup_engines_keep_game_and_panel ai
           (fun id =>
              Hkeeps _ (fun s => (connect4 s, info s)) id (fun _ _ => eq_refl))
           s0) as Hgame
  end.
  rewrite Hrun in Hgame; simpl in Hgame. injection Hgame as Hgame _.
  destruct
    (setup_loop_effect _
       (fun id => Hkeeps _ players id (fun _ _ => eq_refl))
       (fun id => Hkeeps _ neats id (fun _ _ => eq_refl))
       player_keys _ _ Hrun) as (_ & Hin & _).
  repeat split; try congruence.
  intros player t Hplayer Ht. apply Hin; [done|]. congruence.
Qed.

Lemma main_setup_fresh t1 t2 (s : State Board) :
  players s !! 1 = Some t1 -> players s !! 2 = Some t2 -> disk s = ∅ ->
  exists s',
    main_setup cfg DIRECTORY new_game s = Return tt s'
    /\ neats s' !! 1
       = Some (if bool_decide (t1 = "Human") then None
               else Some (generate cfg 4 1 100))
    /\ neats s' !! 2
       = Some (if bool_decide (t2 = "Human") then None
               else Some (generate cfg 4 1 100)).
Proof.
  intros Ht1 Ht2 Hdisk. rewrite main_setup_run. unfold bind at 1.
  match goal with
  | |- context [main_Options_refresh ?s0] =>
      assert (Hrefresh :
        exists s1,
          main_Options_refresh s0 = Return tt s1
          /\ players s1 = players s /\ disk s1 = disk s)
  end.
  { unfold main_Options_refresh, player_type.
    unfold bind, get, when, lift, set_evolution_speed, set_show_every,
      set_game_speed, ret; simpl.
    rewrite Ht1; simpl. rewrite Ht2; simpl.
    destruct (_ || _); simpl; [|destruct (_ <? _); simpl];
      destruct (_ || _); simpl; by eexists. }
  destruct Hrefresh as (s1 & -> & Hplayers & Hdisk1).
  apply setup_engines_fresh; try congruence.
  - intros id. by apply main_setupAi_keeps.
  - intros id. by apply main_setupAi_keeps.
  - intros id. by apply main_setupAi_keeps.
  - intros id s0. apply main_setupAi_fresh.
Qed.

End Setup.

(** X9.  [setup()] of [connect4.py].  When it returns, the game and the
    panel are new, the players, the speeds, [show_every], the frame
    count and the disk are as before, and [neats] follows [players]:
    [None] for a human player, an engine for every other player.  On a
    start without any file on disk it does return, and hands every
    player that is not human a fresh population of 50 genomes with 4
    inputs and 1 output. *)
Theorem connect4_setup_engines_follow_players (Board : Type) (cfg : Config)
    (DIRECTORY : string) (new_game : Connect4 Board) (s : State Board) :
  (forall s',
     connect4_setup cfg DIRECTORY new_game s = Return tt s' ->
     connect4 s' = new_game /\ info s' = Info_init
     /\ surroundings s' = surroundings s
     /\ engines_in_line s')
  /\ (forall t1 t2,
        players s !! 1 = Some t1 -> players s !! 2 = Some t2 -> disk s = ∅ ->
        exists s',
          connect4_setup cfg DIRECTORY new_game s = Return tt s'
          /\ neats s' !! 1
             = Some (if bool_decide (t1 = "Human") then None
                     else Some (generate cfg 4 1 50))
          /\ neats s' !! 2
             = Some (if bool_decide (t2 = "Human") then None
                     else Some (generate cfg 4 1 50))).
Proof.
  split.
  - intros s'. apply connect4_setup_effect.
  - intros t1 t2. apply connect4_setup_fresh.
Qed.

(** X10.  [setup()] of [main.py], whose new options screen brings the
    speeds in line with the players.  When it returns, the game is new,
    the players, the frame rate, the frame count and the disk are as
    before, and [neats] follows [players].  If both players are NEAT
    players, [show_every] and the game speed stay and the evolution
    speed is raised to the game speed; otherwise [show_every] becomes
    'Genome' and the evolution speed 1.  The game speed becomes 1 if a
    player is human.  The frame rate is not recomputed.  On a start
    without any file on disk [setup()] does return, and hands every
    player that is not human a fresh population of 100 genomes. *)
Theorem main_setup_follows_players (Board : Type) (cfg : Config)
    (DIRECTORY : string) (new_game : Connect4 Board) (s : State Board) :
  (forall s',
     main_setup cfg DIRECTORY new_game s = Return tt s' ->
     exists t1 t2,
       players s !! 1 = Some t1 /\ players s !! 2 = Some t2
       /\ connect4 s' = new_game /\ players s' = players s
       /\ max_fps s' = max_fps s /\ frame_count s' = frame_count s
       /\ disk s' = disk s
       /\ engines_in_line s'
       /\ show_every s'
          = (if bool_decide (t1 = "NEAT" /\ t2 = "NEAT") then show_every s
             else "Genome")
       /\ evolution_speed s'
          = (if bool_decide (t1 = "NEAT" /\ t2 = "NEAT")
             then Z.max (game_speed s) (evolution_speed s)
             else 1)
       /\ game_speed s'
          = (if bool_decide (t1 = "Human" \/ t2 = "Human") then 1
             else game_speed s))
  /\ (forall t1 t2,
        players s !! 1 = Some t1 -> players s !! 2 = Some t2 -> disk s = ∅ ->
        exists s',
          main_setup cfg DIRECTORY new_game s = Return tt s'
          /\ neats s' !! 1
             = Some (if bool_decide (t1 = "Human") then None
                     else Some (generate cfg 4 1 100))
          /\ neats s' !! 2
             = Some (if bool_decide (t2 = "Human") then None
                     else Some (generate cfg 4 1 100))).
Proof.
  split.
  - intros s'. apply main_setup_effect.
  - intros t1 t2. apply main_setup_fresh.
Qed.

Lemma connect4_setup_engines_follow_players_witness :
  exists s',
    connect4_setup Example.cfg "C:" (Example.game [1; 2] true) Scenes.fresh
    = Return tt s'
    /\ neats s' !! 1 = Some None
    /\ neats s' !! 2 = Some (Some (generate Example.cfg 4 1 50))
    /\ engines_in_line s'.
Proof.
  destruct
    (connect4_setup_engines_follow_players unit Example.cfg "C:"
       (Example.game [1; 2] true) Scenes.fresh) as [Heffect Hfresh].
  destruct (Hfresh "Human" "NEAT" eq_refl eq_refl eq_refl)
    as (s' & Hrun & Hhuman & Hneat).
  exists s'. split; [exact Hrun|]. split; [exact Hhuman|]. split; [exact Hneat|].
  by destruct (Heffect s' Hrun) as (_ & _ & _ & Hengines).
Defined.

Lemma main_setup_follows_players_witness :
  exists s',
    main_setup Example.cfg "C:" (Example.game [1; 2] true) Scenes.fresh
    = Return tt s'
    /\ neats s' !! 2 = Some (Some (generate Example.cfg 4 1 100))
    /\ game_speed s' = 1 /\ evolution_speed s' = 1 /\ show_every s' = "Genome"
    /\ max_fps s' = 500.
Proof.
  destruct
    (main_setup_follows_players unit Example.cfg "C:" (Example.game [1; 2] true)
       Scenes.fresh) as [Heffect Hfresh].
  destruct (Hfresh "Human" "NEAT" eq_refl eq_refl eq_refl)
    as (s' & Hrun & _ & Hneat).
  exists s'. split; [exact Hrun|]. split; [exact Hneat|].
  destruct (Heffect s' Hrun)
    as (t1 & t2 & Ht1 & Ht2 & _ & _ & Hfps & _ & _ & _ & Hshow & Hevolution
        & Hspeed).
  injection Ht1 as <-. injection Ht2 as <-.
  split; [exact Hspeed|]. split; [exact Hevolution|]. split; [exact Hshow|].
  exact Hfps.
Defined.

End SetupFacts.

Module OptionsFacts.

Import Neat Py Game Driver Screens Frames TraceFacts FrameFacts TurnFacts.
Import SetupFacts.
Local Open Scope drv_scope.

Lemma SPEEDS_at_least_1 (button_key v : Z) :
  list_item Connect4Driver.SPEEDS button_key = ok v -> 1 <= v.
Proof.
  intros Hv. apply ScoringFacts.list_item_In in Hv. simpl in Hv.
  destruct Hv as [<-|[<-|[<-|[<-|[<-|[]]]]]]; lia.
Qed.

Section Clicks.

Context {Board : Type}.
Variable cfg : Config.
Variable DIRECTORY : string.
Variable new_game : Connect4 Board.

(** A click on a player's type: the player is set, a type other than
    'NEAT' slows the game down to the first speed and shows every
    genome, and [setup()] leaves all of this as it is. *)
Lemma connect4_click_player_effect player button_key (s s' : State Board) :
  connect4_click_player cfg DIRECTORY new_game player button_key s = Return tt s' ->
  exists t,
    list_item Connect4Driver.PLAYER_TYPES button_key = ok t
    /\ players s' = <[player := t]> (players s)
    /\ evolution_speed s' = evolution_speed s
    /\ max_fps s' = max_fps s
    /\ (if button_key =? 1
        then t = "NEAT" /\ game_speed s' = game_speed s
             /\ show_every s' = show_every s
        else game_speed s' = 1 /\ show_every s' = "Genome").
Proof.
  unfold connect4_click_player.
  assert (Hsetup :
    forall s0 : State Board,
      connect4_setup cfg DIRECTORY new_game s0 = Return tt s' ->
      surroundings s' = surroundings s0).
  { intros s0 Hrun.
    pose proof (connect4_setup_keeps_surroundings cfg DIRECTORY new_game s0) as H.
    by rewrite Hrun in H. }
  unfold when, slow_down, set_player, set_game_speed, set_show_every.
  unfold bind, get, ret; simpl.
  destruct (list_item Connect4Driver.PLAYER_TYPES button_key) as [e|t] eqn:Ht.
  { simpl. by destruct (button_key =? 0). }
  destruct (Z.eqb_spec button_key 0) as [->|Hzero]; simpl.
  - injection Ht as <-. intros Hrun%Hsetup.
    injection Hrun as Hplayers Hshow Hspeed Hevolution Hfps _ _.
    exists "Human". by repeat split.
  - destruct (Z.eqb_spec button_key 1) as [->|Hone]; simpl.
    + injection Ht as <-. intros Hrun%Hsetup.
      injection Hrun as Hplayers Hshow Hspeed Hevolution Hfps _ _.
      exists "NEAT". by repeat split.
    + intros Hrun%Hsetup.
      injection Hrun as Hplayers Hshow Hspeed Hevolution Hfps _ _.
      exists t. by repeat split.
Qed.

(** A group's branch keeps the game speed between 1 and the evolution
    speed, and keeps [show_every] at 'Genome' unless both players are
    NEAT players. *)
Lemma connect4_click_group_in_line group button_key (s s' : State Board) :
  connect4_click_group cfg DIRECTORY new_game group button_key s = Return tt s' ->
  (1 <= game_speed s <= evolution_speed s ->
   1 <= game_speed s' <= evolution_speed s')
  /\ (show_in_line s -> show_in_line s').
Proof.
  unfold connect4_click_group.
  assert (Hplayer :
    forall player,
      player = 1 \/ player = 2 ->
      connect4_click_player cfg DIRECTORY new_game player button_key s
      = Return tt s' ->
      (1 <= game_speed s <= evolution_speed s ->
       1 <= game_speed s' <= evolution_speed s')
      /\ (show_in_line s -> show_in_line s')).
  { intros player Hplayer Hrun.
    apply connect4_click_player_effect in Hrun
      as (t & Ht & Hplayers & Hevolution & _ & Hkey).
    unfold show_in_line. rewrite Hplayers, Hevolution.
    destruct (button_key =? 1).
    - destruct Hkey as (-> & -> & ->). split; [done|].
      intros [Hgenome|[H1 H2]]; [by left|right].
      destruct Hplayer as [-> | ->]; split.
      + by rewrite lookup_insert_eq.
      + by rewrite lookup_insert_ne.
      + by rewrite lookup_insert_ne.
      + by rewrite lookup_insert_eq.
    - destruct Hkey as [-> ->]. split; [lia|by left]. }
  case_bool_decide; [by apply Hplayer; left|].
  case_bool_decide; [by apply Hplayer; right|].
  clear Hplayer. unfold show_in_line.
  case_bool_decide.
  { unfold bind, get, when, lift, set_game_speed, set_evolution_speed, ret.
    destruct (list_item Connect4Driver.SPEEDS button_key) as [e|v] eqn:Hv;
      [done|].
    apply SPEEDS_at_least_1 in Hv. simpl.
    destruct (Z.ltb_spec (evolution_speed s) v); intros [= <-]; simpl;
      (split; [lia|done]). }
  case_bool_decide.
  { unfold bind, get, lift, set_evolution_speed, ret.
    destruct (list_item Connect4Driver.SPEEDS button_key) as [e|v] eqn:Hv;
      [done|].
    simpl. intros [= <-]; simpl. split; [|tauto].
    destruct (Z.leb_spec (game_speed s) v); lia. }
  case_bool_decide; [|by intros [= <-]].
  unfold player_type.
  unfold bind, get, when, lift, set_show_every, ret, throw; simpl.
  destruct (players s !! 1) as [p1|] eqn:Hp1; simpl; [|done].
  destruct (players s !! 2) as [p2|] eqn:Hp2; simpl; [|done].
  destruct (bool_decide (p1 = p2) && bool_decide (p2 = "NEAT")) eqn:Hneat;
    simpl.
  - apply andb_true_iff in Hneat as [Hsame Hneat].
    apply bool_decide_eq_true in Hsame, Hneat. subst p1 p2.
    destruct (list_item Connect4Driver.SHOW_EVERY button_key); [done|].
    simpl. intros [= <-]; simpl. split; [done|]. intros _. by right.
  - intros [= <-]; simpl. split; [done|]. intros _. by left.
Qed.

Lemma connect4_click_in_line group button_key (s s' : State Board) :
  connect4_click cfg DIRECTORY new_game group button_key s = Return tt s' ->
  (1 <= game_speed s <= evolution_speed s -> speeds_in_line s')
  /\ (show_in_line s -> show_in_line s').
Proof.
  unfold connect4_click, bind at 1.
  destruct (connect4_click_group _ _ _ _ _ s) as [[] s1|s1|e s1] eqn:Hgroup;
    [|done..].
  apply connect4_click_group_in_line in Hgroup as [Hspeeds Hshow].
  unfold update_max_fps, bind, get, set_max_fps. intros [= <-].
  unfold speeds_in_line, show_in_line in *; simpl. split; [|done].
  intros Hs. split; [by apply Hspeeds|]. split; [by apply Hspeeds|done].
Qed.

Lemma connect4_Options_groups_in_line clicked (groups : list string) :
  forall s s' : State Board,
    for_each groups
      (fun group =>
         match clicked group with
         | Some button_key =>
             connect4_click cfg DIRECTORY new_game group button_key
         | None => ret tt
         end) s
    = Return tt s' ->
    (speeds_in_line s -> speeds_in_line s')
    /\ (show_in_line s -> show_in_line s').
Proof.
  induction groups as [|group groups IH]; intros s s'; simpl.
  { by intros [= <-]. }
  unfold bind at 1.
  destruct (clicked group) as [button_key|].
  - destruct (connect4_click _ _ _ _ _ s) as [[] s1|s1|e s1] eqn:Hclick;
      [|done..].
    apply connect4_click_in_line in Hclick as [Hspeeds Hshow].
    intros Hrest. apply IH in Hrest as [Hspeeds' Hshow'].
    split; [|by auto]. intros (? & ? & _). apply Hspeeds', Hspeeds. lia.
  - apply IH.
Qed.

End Clicks.

(** X11.  The options screen of [connect4.py] keeps the settings in
    line.  Whatever buttons of the five groups are reported as clicked,
    when the loop over the groups returns, the speeds are still in
    line if they were, [1 <= game_speed <= evolution_speed] and
    [max_fps == max(FPS, game_speed, evolution_speed)], and
    [show_every] is still 'Genome' unless both players are NEAT
    players.  A single click already brings the frame rate in line. *)
Theorem connect4_options_keep_settings_in_line (Board : Type) (cfg : Config)
    (DIRECTORY : string) (new_game : Connect4 Board)
    (clicked : string -> option Z) (s s' : State Board) :
  (connect4_Options_groups cfg DIRECTORY new_game clicked s = Return tt s' ->
   (speeds_in_line s -> speeds_in_line s')
   /\ (show_in_line s -> show_in_line s'))
  /\ (forall group button_key,
        connect4_click cfg DIRECTORY new_game group button_key s = Return tt s' ->
        1 <= game_speed s <= evolution_speed s ->
        speeds_in_line s').
Proof.
  split.
  - apply connect4_Options_groups_in_line.
  - intros group button_key Hclick Hspeeds.
    apply connect4_click_in_line in Hclick as [Hline _]. by apply Hline.
Qed.

Lemma connect4_options_keep_settings_in_line_witness :
  let clicked :=
    fun group : string =>
      if bool_decide (group = "game_speed") then Some 2 else None in
  let s' :=
    final_state
      (connect4_Options_groups Example.cfg "C:" (Example.game [1; 2] true) clicked
         Example.running) in
  speeds_in_line s' /\ show_in_line s' /\ game_speed s' = 25.
Proof.
  intros clicked s'.
  destruct
    (connect4_options_keep_settings_in_line unit Example.cfg "C:"
       (Example.game [1; 2] true) clicked Example.running s') as [Hloop _].
  destruct Hloop as [Hspeeds Hshow]; [by vm_compute|].
  split; [|split].
  - apply Hspeeds. unfold speeds_in_line. simpl.
    repeat split; first [lia | reflexivity].
  - apply Hshow. right. by split.
  - reflexivity.
Defined.

End OptionsFacts.

Module ExitFacts.

Import Neat Py Game Driver Frames TraceFacts FrameFacts TurnFacts.
Import DeferredScoring WaitingFacts.
Local Open Scope drv_scope.

Section Stays.

Context {Board : Type}.

Lemma stays_bind {A B} (m : Drv Board A) (k : A -> Drv Board B) :
  stays m -> (forall a, stays (k a)) -> stays (bind m k).
Proof.
  intros Hm Hk s. specialize (Hm s). unfold bind.
  destruct (m s) as [a s'|s'|e s']; simpl in *; [apply Hk|done..].
Qed.

Lemma stays_reads_only {A} (m : Drv Board A) : reads_only m -> stays m.
Proof. intros Hm s. by destruct (Hm s). Qed.

Lemma stays_quiet {A} (m : Drv Board A) : quiet m -> stays m.
Proof. intros Hm s. by destruct (Hm s) as (l & _ & He & _). Qed.

Lemma stays_when (b : bool) (m : Drv Board unit) : stays m -> stays (when b m).
Proof. by destruct b. Qed.

Lemma stays_for_each {A} (l : list A) (body : A -> Drv Board unit) :
  (forall a, stays (body a)) -> stays (for_each l body).
Proof.
  intros Hb. induction l as [|a l IH]; simpl; [done|]. by apply stays_bind.
Qed.

End Stays.

(** Code without [close()] stays: binds and branches down to the calls,
    each of which stays. *)
Ltac stays_solve :=
  repeat first
    [ match goal with
      | |- stays (bind _ _) => apply stays_bind; [|intros ?]
      | |- stays (when _ _) => apply stays_when
      | |- stays (for_each _ _) => apply stays_for_each; intros ?
      | |- stays (if ?b then _ else _) => destruct b
      | |- stays (match ?x with _ => _ end) => destruct x
      | |- stays (let (_, _) := ?x in _) => destruct x
      | |- stays (ret _) => intros ?; reflexivity
      | |- stays (throw _) => intros ?; reflexivity
      | |- stays (lift _) => apply stays_reads_only, reads_only_lift
      | |- stays get => intros ?; reflexivity
      | |- stays (log _) => intros ?; reflexivity
      | |- stays (set_neat _ _) => intros ?; reflexivity
      | |- stays (set_connect4 _) => intros ?; reflexivity
      | |- stays (set_info _) => intros ?; reflexivity
      | |- stays (set_frame_count _) => intros ?; reflexivity
      | |- stays (set_disk _) => intros ?; reflexivity
      end
    | apply stays_reads_only;
      first
        [ apply reads_only_player_type
        | apply reads_only_neat_entry
        | apply reads_only_neat_object
        | apply reads_only_frame_due
        | apply reads_only_call_neatMove
        | apply reads_only_key_move
        | apply reads_only_player_id_of
        | apply reads_only_connect4_getSpeedShow
        | apply reads_only_main_getSpeedShow ]
    | progress
        unfold call_getGenome, call_shouldEvolve, read_best_genome,
          write_fitness, call_nextGenome, call_getInfo, play, Info_update,
          set_data, tick ].

Section Loops.

Context {Board : Type}.
Variable cfg : Config.
Variable G : Ops Board.

Lemma main_iteration_stays key rnd :
  stays (MainDriver.main_iteration cfg G key rnd).
Proof.
  unfold MainDriver.main_iteration, MainDriver.match_turn,
    MainDriver.end_of_match.
  stays_solve. unfold MainDriver.score_player. stays_solve.
Qed.

Lemma connect4_end_of_match_stays cp speed result :
  stays (Connect4Driver.end_of_match cfg G cp speed result).
Proof.
  unfold Connect4Driver.end_of_match, Connect4Driver.score_player. stays_solve.
Qed.

(** What follows the [close()] of [connect4.py] in the turn of a
    player who is not human. *)
Lemma connect4_move_stays current_genome show rnd cp :
  stays
    (do move := call_neatMove cfg G current_genome rnd in
     do result := play G move in
     when show (do neat_info := call_getInfo cp in Info_update neat_info) ;;
     ret result).
Proof. stays_solve. Qed.

Lemma exited_bind {A B} (m : Drv Board A) (k : A -> Drv Board B)
    (s : State Board) :
  exited (bind m k s)
  = match m s with
    | Return a s' => exited (k a s')
    | Exit _ => true
    | Raise _ _ => false
    end.
Proof. unfold bind. by destruct (m s). Qed.

(** The state in which [connect4.py] leaves the program: the frame
    count reset, the genome requested, [shouldEvolve] asked. *)
Lemma connect4_match_turn_closes cp speed show possible_move rnd p g
    (s : State Board) :
  match_ (connect4 s) = true ->
  players s !! cp = Some "NEAT" ->
  frame_due speed s = Return true s ->
  neats s !! cp = Some (Some p) ->
  (getGenome p).1 = ok g ->
  shouldEvolve cfg p = false ->
  Connect4Driver.match_turn cfg G cp speed show possible_move rnd s
  = Exit
      (mkState (players s) (<[cp := Some p]> (neats s)) (connect4 s) (info s)
         (show_every s) (game_speed s) (evolution_speed s) (max_fps s) 1
         (disk s)
         (calls s ++ [CallGetGenome cp; CallShouldEvolve cp false; CallClose])).
Proof.
  intros Hon Ht Hdue Hp Hg Hover.
  unfold Connect4Driver.match_turn.
  rewrite (bind_return _ _ _ _ _ (eq_refl : get s = Return s s)). rewrite Hon.
  assert (Htype : player_type cp s = Return "NEAT" s).
  { unfold player_type, bind, get. by rewrite Ht. }
  rewrite (bind_return _ _ _ _ _ Htype). simpl.
  rewrite (bind_return _ _ _ _ _ Hdue).
  pose proof (EngineFacts.getGenome_state p) as Hstate.
  unfold call_getGenome, call_shouldEvolve, neat_object, neat_entry,
    Connect4Driver.close, when.
  unfold bind, get, set_frame_count, log, set_neat, ret, exit, lift; simpl.
  rewrite Hp; simpl.
  destruct (getGenome p) as [r p']; simpl in *. subst r p'. simpl.
  rewrite lookup_insert_eq; simpl. rewrite Hover; simpl.
  by rewrite <- !app_assoc.
Qed.

Lemma connect4_match_turn_exited cp speed show possible_move rnd
    (s : State Board) :
  exited (Connect4Driver.match_turn cfg G cp speed show possible_move rnd s)
  = true ->
  match_ (connect4 s) = true
  /\ players s !! cp = Some "NEAT"
  /\ frame_due speed s = Return true s
  /\ exists p g,
       neats s !! cp = Some (Some p)
       /\ (getGenome p).1 = ok g
       /\ shouldEvolve cfg p = false.
Proof.
  unfold Connect4Driver.match_turn.
  rewrite exited_bind. unfold get at 1.
  destruct (match_ (connect4 s)) eqn:Hon; [|done].
  rewrite exited_bind. unfold player_type at 1, bind at 1, get at 1.
  destruct (players s !! cp) as [t|] eqn:Ht; [|done]. unfold ret at 1.
  case_bool_decide as Hhuman.
  2: { intros Hexit. exfalso. revert Hexit.
       assert (Hstays :
         stays
           match possible_move with
           | Some move =>
               do result := play G move in
               do s' := get in
               when (negb (match_ (connect4 s'))) (set_frame_count 1) ;;
               ret result
           | None => @ret Board _ None
           end) by stays_solve.
       by rewrite (Hstays s). }
  rewrite exited_bind.
  destruct (reads_only_frame_due speed s) as [Hs He].
  destruct (frame_due speed s) as [due s1|s1|e s1] eqn:Hdue; simpl in Hs, He;
    [|done..].
  subst s1. destruct due; [|done].
  rewrite exited_bind. unfold set_frame_count at 1.
  rewrite exited_bind.
  case_bool_decide as Hneat.
  - subst t. unfold call_getGenome at 1, neat_object at 1, neat_entry at 1.
    unfold bind at 1. unfold bind at 1. unfold bind at 1. unfold bind at 1.
    unfold get at 1. simpl.
    destruct (neats s !! cp) as [[p|]|] eqn:Hp; simpl; [|done..].
    pose proof (EngineFacts.getGenome_state p) as Hstate.
    destruct (getGenome p) as [[e|g] p'] eqn:Hg; simpl in *; [done|]. subst p'.
    rewrite exited_bind.
    match goal with
    | |- context [call_shouldEvolve cfg cp ?s0] =>
        assert (Hask :
          call_shouldEvolve cfg cp s0
          = Return (shouldEvolve cfg p)
              (final_state (log (CallShouldEvolve cp (shouldEvolve cfg p)) s0)))
    end.
    { unfold call_shouldEvolve, neat_object, neat_entry.
      unfold bind, get, log, ret; simpl. by rewrite lookup_insert_eq. }
    rewrite Hask. clear Hask.
    destruct (shouldEvolve cfg p) eqn:Hover; simpl.
    + rewrite exited_bind. unfold when at 1, ret at 1.
      intros Hexit. exfalso. revert Hexit.
      by rewrite (connect4_move_stays (Some g) show rnd cp).
    + intros _. repeat split; try done. exists p, g. by rewrite Hg.
  - intros Hexit. exfalso. revert Hexit.
    assert (Hbest : stays (@read_best_genome Board cp)) by stays_solve.
    assert (Hask : stays (@call_shouldEvolve Board cfg cp)) by stays_solve.
    match goal with
    | |- context [read_best_genome cp ?s0] =>
        specialize (Hbest s0);
        destruct (read_best_genome cp s0) as [best s2|s2|e s2]
    end; simpl in Hbest; [|done..].
    rewrite exited_bind. specialize (Hask s2).
    destruct (call_shouldEvolve cfg cp s2) as [evolve s3|s3|e s3];
      simpl in Hask; [|done..].
    rewrite andb_false_r. rewrite exited_bind. unfold when at 1, ret at 1.
    by rewrite (connect4_move_stays best show rnd cp).
Qed.

Lemma bind_exit {A B} (m : Drv Board A) (k : A -> Drv Board B)
    (s s' : State Board) :
  m s = Exit s' -> bind m k s = Exit s'.
Proof. intros Hm. unfold bind. by rewrite Hm. Qed.

(** An iteration of [connect4.py] that leaves the program leaves it in
    [match_turn]. *)
Lemma connect4_iteration_exited key rnd (s : State Board) :
  exited (Connect4Driver.main_iteration cfg G key rnd s) = true ->
  exists cp answer possible_move,
    list_item (player_ids (connect4 s)) (current_player (connect4 s) - 1) = ok cp
    /\ Connect4Driver.getSpeedShow cp s = Return answer s
    /\ key_move cp key s = Return possible_move s
    /\ exited
         (Connect4Driver.match_turn cfg G cp answer.1 answer.2 possible_move rnd s)
       = true.
Proof.
  unfold Connect4Driver.main_iteration.
  rewrite exited_bind. unfold get at 1. rewrite exited_bind.
  destruct (list_item _ _) as [e|cp] eqn:Hcp; [done|]. unfold lift, ret at 1.
  rewrite exited_bind.
  destruct (reads_only_connect4_getSpeedShow cp s) as [Hs He].
  destruct (Connect4Driver.getSpeedShow cp s) as [answer s1|s1|e s1] eqn:Hanswer;
    simpl in Hs, He; [|done..].
  subst s1. rewrite exited_bind.
  destruct (reads_only_key_move cp key s) as [Hs He'].
  destruct (key_move cp key s) as [possible_move s1|s1|e s1] eqn:Hkey;
    simpl in Hs, He'; [|done..].
  subst s1. rewrite exited_bind.
  destruct (Connect4Driver.match_turn _ _ _ _ _ _ _ s) as [result s1|s1|e s1]
    eqn:Hturn;
    [|intros _; exists cp, answer, possible_move; by rewrite Hanswer, Hkey, Hturn
     |done].
  rewrite exited_bind.
  pose proof (connect4_end_of_match_stays cp answer.1 result s1) as Hend.
  destruct (Connect4Driver.end_of_match _ _ _ _ _ s1) as [[] s2|s2|e s2];
    simpl in Hend; [|done..].
  done.
Qed.

End Loops.

(** X12.  Only [connect4.py] quits when evolution is over.  An
    iteration of the loop of [main.py] never leaves the program.  An
    iteration of the loop of [connect4.py] leaves it exactly when a
    match is running, the player to move is a NEAT player whose frame
    is due, the engine has a genome to hand out and [shouldEvolve()] is
    false; it then has requested the genome, asked [shouldEvolve] and
    called [close()], made no move, and left the disk as it was. *)
Theorem only_connect4_quits_when_evolution_is_over (Board : Type)
    (cfg : Config) (G : Ops Board) (key : option Z) (rnd : nat)
    (s : State Board) :
  let r := Connect4Driver.main_iteration cfg G key rnd s in
  exited (MainDriver.main_iteration cfg G key rnd s) = false
  /\ (exited r = true <->
      exists cp answer p g,
        list_item (player_ids (connect4 s)) (current_player (connect4 s) - 1)
        = ok cp
        /\ Connect4Driver.getSpeedShow cp s = Return answer s
        /\ match_ (connect4 s) = true
        /\ players s !! cp = Some "NEAT"
        /\ frame_due answer.1 s = Return true s
        /\ neats s !! cp = Some (Some p)
        /\ (getGenome p).1 = ok g
        /\ shouldEvolve cfg p = false)
  /\ (exited r = true ->
      exists cp,
        calls_made (Connect4Driver.main_iteration cfg G key rnd) s
        = [CallGetGenome cp; CallShouldEvolve cp false; CallClose]
        /\ disk (final_state r) = disk s
        /\ connect4 (final_state r) = connect4 s).
Proof.
  cbv zeta.
  assert (Hrun :
    forall cp answer p g,
      list_item (player_ids (connect4 s)) (current_player (connect4 s) - 1)
      = ok cp ->
      Connect4Driver.getSpeedShow cp s = Return answer s ->
      match_ (connect4 s) = true ->
      players s !! cp = Some "NEAT" ->
      frame_due answer.1 s = Return true s ->
      neats s !! cp = Some (Some p) ->
      (getGenome p).1 = ok g ->
      shouldEvolve cfg p = false ->
      Connect4Driver.main_iteration cfg G key rnd s
      = Exit
          (mkState (players s) (<[cp := Some p]> (neats s)) (connect4 s) (info s)
             (show_every s) (game_speed s) (evolution_speed s) (max_fps s) 1
             (disk s)
             (calls s
              ++ [CallGetGenome cp; CallShouldEvolve cp false; CallClose]))).
  { intros cp answer p g Hcp Hanswer Hon Ht Hdue Hp Hg Hover.
    unfold Connect4Driver.main_iteration.
    rewrite (bind_return _ _ _ _ _ (eq_refl : get s = Return s s)).
    rewrite Hcp.
    rewrite (bind_return _ _ _ _ _ (eq_refl : lift (ok cp) s = Return cp s)).
    rewrite (bind_return _ _ _ _ _ Hanswer).
    rewrite (bind_return _ _ _ _ _
               (key_move_waits cp "NEAT" key s Ht
                  (or_intror (fun H : "NEAT" = "Human" => ltac:(discriminate H))))).
    apply bind_exit. by eapply connect4_match_turn_closes. }
  assert (Hexit :
    exited (Connect4Driver.main_iteration cfg G key rnd s) = true ->
    exists cp answer p g,
      list_item (player_ids (connect4 s)) (current_player (connect4 s) - 1)
      = ok cp
      /\ Connect4Driver.getSpeedShow cp s = Return answer s
      /\ match_ (connect4 s) = true
      /\ players s !! cp = Some "NEAT"
      /\ frame_due answer.1 s = Return true s
      /\ neats s !! cp = Some (Some p)
      /\ (getGenome p).1 = ok g
      /\ shouldEvolve cfg p = false).
  { intros Hexit.
    apply connect4_iteration_exited in Hexit
      as (cp & answer & possible_move & Hcp & Hanswer & _ & Hturn).
    apply connect4_match_turn_exited in Hturn
      as (Hon & Ht & Hdue & p & g & Hp & Hg & Hover).
    by exists cp, answer, p, g. }
  split; [apply main_iteration_stays|]. split; [split|].
  - exact Hexit.
  - intros (cp & answer & p & g & Hcp & Hanswer & Hon & Ht & Hdue & Hp & Hg
            & Hover).
    by rewrite (Hrun cp answer p g).
  - intros (cp & answer & p & g & Hcp & Hanswer & Hon & Ht & Hdue & Hp & Hg
            & Hover)%Hexit.
    exists cp. unfold calls_made. rewrite (Hrun cp answer p g) by done. simpl.
    by rewrite drop_app_length.
Qed.

Lemma only_connect4_quits_when_evolution_is_over_witness :
  exited
    (Connect4Driver.main_iteration Example.cfg_finished Example.ops None 0
       Example.finished)
  = true
  /\ exited
       (MainDriver.main_iteration Example.cfg_finished Example.ops None 0
          Example.finished)
     = false.
Proof.
  destruct
    (only_connect4_quits_when_evolution_is_over unit Example.cfg_finished
       Example.ops None 0 Example.finished) as (Hmain & Hconnect4 & _).
  split; [|exact Hmain].
  apply Hconnect4.
  exists 1, (500, true), (generate Example.cfg_finished 4 1 3),
    (minimal_genome Example.cfg_finished 0 4 1).
  repeat split; by vm_compute.
Defined.

End ExitFacts.

Module PanelFacts.

Import Neat Py Game Driver Frames TraceFacts FrameFacts.
Local Open Scope drv_scope.

Section Panel.

Context {Board : Type}.

Lemma set_data_run key neat_info neat_key v (s : State Board) :
  neat_info !! neat_key = Some v ->
  set_data key neat_info neat_key s
  = Return tt
      (mkState (players s) (neats s) (connect4 s)
         (mkInfo (active (info s)) (<[key := v]> (data (info s))))
         (show_every s) (game_speed s) (evolution_speed s) (max_fps s)
         (frame_count s) (disk s) (calls s)).
Proof. intros Hv. unfold set_data. by rewrite Hv. Qed.

Lemma set_data_missing key neat_info neat_key (s : State Board) :
  neat_info !! neat_key = None ->
  set_data key neat_info neat_key s = Raise KeyError s.
Proof. intros Hv. unfold set_data. by rewrite Hv. Qed.

(** [Info.update] with all four keys at hand. *)
Lemma Info_update_run neat_info g sp ge f (s : State Board) :
  active (info s) = true ->
  neat_info !! "generation" = Some g ->
  neat_info !! "current_species" = Some sp ->
  neat_info !! "current_genome" = Some ge ->
  neat_info !! "fitness" = Some f ->
  Info_update neat_info s
  = Return tt
      (mkState (players s) (neats s) (connect4 s)
         (mkInfo true
            (<["fitness" := f]>
               (<["genome" := ge]>
                  (<["species" := sp]>
                     (<["generation" := g]> (data (info s)))))))
         (show_every s) (game_speed s) (evolution_speed s) (max_fps s)
         (frame_count s) (disk s) (calls s)).
Proof.
  intros Hactive Hg Hsp Hge Hf. unfold Info_update.
  unfold bind at 1, get at 1. rewrite Hactive. unfold when.
  unfold bind at 1. rewrite (set_data_run _ _ _ g) by done.
  unfold bind at 1. rewrite (set_data_run _ _ _ sp) by done.
  unfold bind at 1. rewrite (set_data_run _ _ _ ge) by done.
  rewrite (set_data_run _ _ _ f) by done.
  simpl. by rewrite Hactive.
Qed.

Lemma Info_update_error neat_info e (s : State Board) :
  raised (Info_update neat_info s) = Some e ->
  e = KeyError /\ active (info s) = true
  /\ exists neat_key,
       In neat_key ["generation"; "current_species"; "current_genome"; "fitness"]
       /\ neat_info !! neat_key = None.
Proof.
  unfold Info_update. unfold bind at 1, get at 1, when.
  destruct (active (info s)) eqn:Hactive; [|done].
  unfold bind at 1.
  destruct (neat_info !! "generation") as [g|] eqn:Hg.
  2: { rewrite set_data_missing by done. intros [= <-].
       repeat split. exists "generation". split; [by left|done]. }
  rewrite (set_data_run _ _ _ g) by done. unfold bind at 1.
  destruct (neat_info !! "current_species") as [sp|] eqn:Hsp.
  2: { rewrite set_data_missing by done. intros [= <-].
       repeat split. exists "current_species". split; [right; by left|done]. }
  rewrite (set_data_run _ _ _ sp) by done. unfold bind at 1.
  destruct (neat_info !! "current_genome") as [ge|] eqn:Hge.
  2: { rewrite set_data_missing by done. intros [= <-].
       repeat split. exists "current_genome".
       split; [right; right; by left|done]. }
  rewrite (set_data_run _ _ _ ge) by done.
  destruct (neat_info !! "fitness") as [f|] eqn:Hf.
  2: { rewrite set_data_missing by done. intros [= <-].
       repeat split. exists "fitness".
       split; [right; right; right; by left|done]. }
  by rewrite (set_data_run _ _ _ f).
Qed.

End Panel.

(** X13.  The panel and the engine.  [Info.update] on a panel that is
    not active changes nothing, whatever the dictionary.  On an active
    panel it raises nothing but [KeyError], and that only if one of
    the keys 'generation', 'current_species', 'current_genome' and
    'fitness' is missing.  The dictionary of the engine's [getInfo()]
    has them all: after [info.update(neats[cp].getInfo())] the four
    texts of an active panel show the engine's generation, current
    species, current genome and the fitness of the current genome. *)
Theorem panel_shows_the_engine (Board : Type) (player : Z) (p : Population)
    (neat_info : gmap string InfoValue) (s : State Board) :
  (active (info s) = false -> Info_update neat_info s = Return tt s)
  /\ (forall e,
        raised (Info_update neat_info s) = Some e ->
        e = KeyError /\ active (info s) = true
        /\ exists neat_key,
             In neat_key
               ["generation"; "current_species"; "current_genome"; "fitness"]
             /\ neat_info !! neat_key = None)
  /\ (neats s !! player = Some (Some p) -> active (info s) = true ->
      exists s',
        (do neat_info := call_getInfo player in Info_update neat_info) s
        = Return tt s'
        /\ data (info s') !! "generation" = Some (InfoInt (generation p))
        /\ data (info s') !! "species" = Some (InfoInt (current_species p))
        /\ data (info s') !! "genome" = Some (InfoInt (current_genome p))
        /\ data (info s') !! "fitness" = Some (InfoReal (current_fitness p))
        /\ calls s' = calls s ++ [CallGetInfo player]).
Proof.
  split; [|split].
  - intros Hactive. unfold Info_update, bind, get, when. by rewrite Hactive.
  - intros e. apply Info_update_error.
  - intros Hp Hactive.
    unfold call_getInfo, neat_object, neat_entry, getInfo.
    unfold bind at 1. unfold bind at 1. unfold bind at 1. unfold bind at 1.
    unfold get at 1. rewrite Hp. unfold ret at 1. unfold ret at 1.
    unfold bind at 1, log at 1. unfold bind at 1, set_neat at 1. unfold ret at 1.
    eexists. split.
    + apply Info_update_run; [done|reflexivity..].
    + simpl. split; [|split; [|split; [|split]]].
      * rewrite !lookup_insert_ne by discriminate. apply lookup_insert_eq.
      * rewrite !lookup_insert_ne by discriminate. apply lookup_insert_eq.
      * rewrite lookup_insert_ne by discriminate. apply lookup_insert_eq.
      * apply lookup_insert_eq.
      * reflexivity.
Qed.

Lemma panel_shows_the_engine_witness :
  exists s',
    (do neat_info := call_getInfo 1 in Info_update neat_info) Example.running
    = Return tt s'
    /\ data (info s') !! "generation" = Some (InfoInt 0).
Proof.
  destruct
    (panel_shows_the_engine unit 1 (generate Example.cfg 4 1 3) ∅ Example.running)
    as (_ & _ & Hshows).
  destruct Hshows as (s' & Hrun & Hgeneration & _); [by vm_compute|reflexivity|].
  exists s'. split; [exact Hrun|]. rewrite Hgeneration. by vm_compute.
Defined.

End PanelFacts.

Module NeatTurnFacts.

Import Neat Py Game Driver Frames TraceFacts FrameFacts TurnFacts.
Import WaitingFacts PanelFacts.
Local Open Scope drv_scope.

(** Run a piece of code whose outcome is known, and read the globals
    off the state it leaves. *)
Ltac state_simpl :=
  cbn [players neats connect4 info show_every game_speed evolution_speed
       max_fps frame_count disk calls].

Ltac run_step H := rewrite (bind_return _ _ _ _ _ H); state_simpl.

Section Calls.

Context {Board : Type}.
Variable cfg : Config.
Variable G : Ops Board.

Lemma bind_ret {A B} (a : A) (k : A -> Drv Board B) (s : State Board) :
  bind (ret a) k s = k a s.
Proof. reflexivity. Qed.

Lemma call_getGenome_run cp p g (s : State Board) :
  neats s !! cp = Some (Some p) ->
  (getGenome p).1 = ok g ->
  call_getGenome cp s
  = Return g
      (mkState (players s) (<[cp := Some p]> (neats s)) (connect4 s) (info s)
         (show_every s) (game_speed s) (evolution_speed s) (max_fps s)
         (frame_count s) (disk s) (calls s ++ [CallGetGenome cp])).
Proof.
  intros Hp Hg. pose proof (EngineFacts.getGenome_state p) as Hstate.
  unfold call_getGenome, neat_object, neat_entry.
  unfold bind, get, log, set_neat, ret, lift; simpl. rewrite Hp; simpl.
  destruct (getGenome p) as [r p']; simpl in *. by subst r p'.
Qed.

Lemma call_shouldEvolve_run cp p (s : State Board) :
  neats s !! cp = Some (Some p) ->
  call_shouldEvolve cfg cp s
  = Return (shouldEvolve cfg p)
      (mkState (players s) (neats s) (connect4 s) (info s) (show_every s)
         (game_speed s) (evolution_speed s) (max_fps s) (frame_count s)
         (disk s) (calls s ++ [CallShouldEvolve cp (shouldEvolve cfg p)])).
Proof.
  intros Hp. unfold call_shouldEvolve, neat_object, neat_entry.
  unfold bind, get, log, ret; simpl. by rewrite Hp.
Qed.

Lemma read_best_genome_run cp p (s : State Board) :
  neats s !! cp = Some (Some p) ->
  read_best_genome cp s
  = Return (best_genome p)
      (mkState (players s) (neats s) (connect4 s) (info s) (show_every s)
         (game_speed s) (evolution_speed s) (max_fps s) (frame_count s)
         (disk s) (calls s ++ [CallBestGenome cp])).
Proof.
  intros Hp. unfold read_best_genome, neat_object, neat_entry.
  unfold bind, get, log, ret; simpl. by rewrite Hp.
Qed.

Lemma call_neatMove_run genome rnd m (s : State Board) :
  neatMove cfg G genome (connect4 s) rnd = ok m ->
  call_neatMove cfg G genome rnd s = Return m s.
Proof. intros Hm. unfold call_neatMove, bind, get. by rewrite Hm. Qed.

Lemma play_run m (s : State Board) :
  play G m s
  = Return (connect4_main G (connect4 s) m).2
      (mkState (players s) (neats s) (connect4_main G (connect4 s) m).1 (info s)
         (show_every s) (game_speed s) (evolution_speed s) (max_fps s)
         (frame_count s) (disk s) (calls s ++ [CallPlay m])).
Proof.
  unfold play, bind, get, log, set_connect4, ret; simpl.
  by destruct (connect4_main G (connect4 s) m).
Qed.

(** [info.update(neats[cp].getInfo())] always goes through. *)
Lemma show_engine_run cp p (s : State Board) :
  neats s !! cp = Some (Some p) ->
  exists i,
    (do neat_info := call_getInfo cp in Info_update neat_info) s
    = Return tt
        (mkState (players s) (<[cp := Some p]> (neats s)) (connect4 s) i
           (show_every s) (game_speed s) (evolution_speed s) (max_fps s)
           (frame_count s) (disk s) (calls s ++ [CallGetInfo cp])).
Proof.
  intros Hp.
  unfold call_getInfo, neat_object, neat_entry, getInfo.
  unfold bind at 1. unfold bind at 1. unfold bind at 1. unfold bind at 1.
  unfold get at 1. rewrite Hp. unfold ret at 1. unfold ret at 1.
  unfold bind at 1, log at 1. unfold bind at 1, set_neat at 1. unfold ret at 1.
  destruct (active (info s)) eqn:Hactive.
  - eexists. erewrite Info_update_run; [|done|reflexivity..].
    simpl. reflexivity.
  - eexists. unfold Info_update, bind, get, when; simpl. by rewrite Hactive.
Qed.

Section Turn.

Variables (cp speed : Z) (show : bool) (possible_move : option Z) (rnd : nat).
Variables (p : Population) (m : Z) (s : State Board).
Hypothesis match_on : match_ (connect4 s) = true.
Hypothesis neat_player : players s !! cp = Some "NEAT".
Hypothesis due : frame_due speed s = Return true s.
Hypothesis engine : neats s !! cp = Some (Some p).

Lemma neat_type : player_type cp s = Return "NEAT" s.
Proof. unfold player_type, bind, get. by rewrite neat_player. Qed.

Lemma connect4_neat_turn g :
  (getGenome p).1 = ok g ->
  shouldEvolve cfg p = true ->
  neatMove cfg G (Some g) (connect4 s) rnd = ok m ->
  exists s',
    Connect4Driver.match_turn cfg G cp speed show possible_move rnd s
    = Return (connect4_main G (connect4 s) m).2 s'
    /\ turn_played G cp p m show s
         [CallGetGenome cp; CallShouldEvolve cp true; CallPlay m] s'.
Proof.
  intros Hg Hevolve Hmove. unfold Connect4Driver.match_turn.
  run_step (eq_refl : get s = Return s s). rewrite match_on.
  run_step neat_type.
  rewrite bool_decide_eq_true_2 by done.
  run_step due.
  run_step (eq_refl : set_frame_count 1 s = Return tt _).
  rewrite bool_decide_eq_true_2 by done.
  erewrite (bind_return (bind _ _));
    [|erewrite bind_return; [reflexivity|by apply call_getGenome_run]].
  state_simpl.
  erewrite bind_return by (apply call_shouldEvolve_run; apply lookup_insert_eq).
  state_simpl. rewrite Hevolve. cbn [negb andb]. unfold when at 1.
  rewrite bind_ret.
  erewrite bind_return by (by apply call_neatMove_run).
  erewrite bind_return by apply play_run.
  state_simpl. destruct show; unfold when.
  - match goal with
    | |- context [bind (bind (call_getInfo cp) _) _ ?s0] =>
        destruct (show_engine_run cp p s0) as [i Hshow];
          [apply lookup_insert_eq|]
    end.
    erewrite bind_return by exact Hshow. state_simpl.
    eexists. split; [reflexivity|].
    unfold turn_played; state_simpl.
    rewrite insert_insert_eq, <- !app_assoc. by repeat split.
  - rewrite bind_ret.
    eexists. split; [reflexivity|].
    unfold turn_played; state_simpl. rewrite <- !app_assoc. by repeat split.
Qed.

Lemma main_neat_turn g :
  (getGenome p).1 = ok g ->
  shouldEvolve cfg p = true ->
  neatMove cfg G (Some g) (connect4 s) rnd = ok m ->
  exists s',
    MainDriver.match_turn cfg G cp speed show possible_move rnd s = Return tt s'
    /\ turn_played G cp p m show s
         [CallShouldEvolve cp true; CallGetGenome cp; CallPlay m] s'.
Proof.
  intros Hg Hevolve Hmove. unfold MainDriver.match_turn.
  run_step (eq_refl : get s = Return s s). rewrite match_on. unfold when at 1.
  run_step neat_type.
  rewrite bool_decide_eq_true_2 by done.
  run_step due. unfold when at 1.
  run_step (eq_refl : set_frame_count 1 s = Return tt _).
  rewrite bool_decide_eq_true_2 by done.
  erewrite bind_return by (by apply call_shouldEvolve_run).
  state_simpl. rewrite Hevolve.
  erewrite (bind_return (bind _ _));
    [|erewrite bind_return; [reflexivity|by apply call_getGenome_run]].
  state_simpl.
  erewrite bind_return by (by apply call_neatMove_run).
  erewrite bind_return by apply play_run.
  state_simpl. unfold MainDriver.display. rewrite andb_true_r.
  destruct show; unfold when.
  - match goal with
    | |- context [bind (call_getInfo cp) _ ?s0] =>
        destruct (show_engine_run cp p s0) as [i Hshow];
          [apply lookup_insert_eq|]
    end.
    rewrite Hshow. eexists. split; [reflexivity|].
    unfold turn_played; state_simpl.
    rewrite insert_insert_eq, <- !app_assoc. by repeat split.
  - eexists. split; [reflexivity|].
    unfold turn_played; state_simpl. rewrite <- !app_assoc. by repeat split.
Qed.

Lemma main_finished_turn :
  shouldEvolve cfg p = false ->
  neatMove cfg G (best_genome p) (connect4 s) rnd = ok m ->
  exists s',
    MainDriver.match_turn cfg G cp speed show possible_move rnd s = Return tt s'
    /\ turn_played G cp p m show s
         [CallShouldEvolve cp false; CallBestGenome cp; CallPlay m] s'.
Proof.
  intros Hevolve Hmove. unfold MainDriver.match_turn.
  run_step (eq_refl : get s = Return s s). rewrite match_on. unfold when at 1.
  run_step neat_type.
  rewrite bool_decide_eq_true_2 by done.
  run_step due. unfold when at 1.
  run_step (eq_refl : set_frame_count 1 s = Return tt _).
  rewrite bool_decide_eq_true_2 by done.
  erewrite bind_return by (by apply call_shouldEvolve_run).
  state_simpl. rewrite Hevolve.
  erewrite bind_return by (by apply read_best_genome_run).
  state_simpl.
  erewrite bind_return by (by apply call_neatMove_run).
  erewrite bind_return by apply play_run.
  state_simpl. unfold MainDriver.display. rewrite andb_true_r.
  assert (Hsame : <[cp := Some p]> (neats s) = neats s) by by apply insert_id.
  destruct show; unfold when.
  - match goal with
    | |- context [bind (call_getInfo cp) _ ?s0] =>
        destruct (show_engine_run cp p s0) as [i Hshow]; [exact engine|]
    end.
    rewrite Hshow. eexists. split; [reflexivity|].
    unfold turn_played; state_simpl. rewrite <- !app_assoc. by repeat split.
  - eexists. split; [reflexivity|].
    unfold turn_played; state_simpl. rewrite Hsame, <- !app_assoc.
    by repeat split.
Qed.

End Turn.

End Calls.



End NeatTurnFacts.

Module KeyFacts.

Import Neat Py Game Driver Frames TraceFacts FrameFacts TurnFacts.
Import WaitingFacts NeatTurnFacts.
Local Open Scope drv_scope.

Section Keys.

Context {Board : Type}.
Variable cfg : Config.
Variable G : Ops Board.

Lemma getSpeedShow_knows_player cp answer (s s' : State Board) :
  Connect4Driver.getSpeedShow cp s = Return answer s'
  \/ MainDriver.getSpeedShow cp s = Return answer s' ->
  is_Some (players s !! cp).
Proof.
  unfold Connect4Driver.getSpeedShow, MainDriver.getSpeedShow, player_type.
  unfold bind at 1 2 6 7, get at 1 3.
  destruct (players s !! cp) as [t|]; [by eexists|]. by intros [|].
Qed.

(** A key is dropped unless a match is running and the player to move
    is human. *)
Lemma key_move_dropped cp key (s : State Board) :
  is_Some (players s !! cp) ->
  match_ (connect4 s) = false \/ players s !! cp <> Some "Human" ->
  key_move cp key s = Return None s.
Proof.
  intros [t Ht] Hdrop. unfold key_move. destruct key as [k|]; [|done].
  unfold player_type, bind, get, ret.
  destruct (match_ (connect4 s)); [|done]. rewrite Ht.
  destruct Hdrop as [[=]|Hhuman].
  rewrite bool_decide_eq_false_2; [done|]. intros ->. by apply Hhuman.
Qed.

Lemma key_move_taken cp k (s : State Board) :
  match_ (connect4 s) = true -> players s !! cp = Some "Human" ->
  key_move cp (Some k) s = Return (Some k) s.
Proof.
  intros Hon Ht. unfold key_move, player_type, bind, get, ret.
  by rewrite Hon, Ht.
Qed.

Lemma bind_after {A B} (m : Drv Board A) (k k' : A -> Drv Board B)
    (s : State Board) :
  (forall a s1, m s = Return a s1 -> k a s1 = k' a s1) ->
  bind m k s = bind m k' s.
Proof.
  intros Hk. unfold bind. destruct (m s) as [a s1| |]; [|done..].
  by apply Hk.
Qed.

Lemma dropped_after_getSpeedShow cp key answer (s s1 : State Board) :
  Connect4Driver.getSpeedShow cp s = Return answer s1
  \/ MainDriver.getSpeedShow cp s = Return answer s1 ->
  match_ (connect4 s) = false \/ players s !! cp <> Some "Human" ->
  key_move cp key s1 = key_move cp None s1.
Proof.
  intros Hanswer Hdrop.
  assert (Hknown : is_Some (players s !! cp)).
  { by eapply getSpeedShow_knows_player. }
  assert (s1 = s) as ->.
  { destruct Hanswer as [Hanswer|Hanswer].
    - destruct (reads_only_connect4_getSpeedShow cp s) as [Hs _].
      rewrite Hanswer in Hs. by simpl in Hs.
    - destruct (reads_only_main_getSpeedShow cp s) as [Hs _].
      rewrite Hanswer in Hs. by simpl in Hs. }
  by rewrite (key_move_dropped cp key), (key_move_dropped cp None).
Qed.

Lemma connect4_keys_dropped key rnd (s : State Board) :
  (forall cp,
     list_item (player_ids (connect4 s)) (current_player (connect4 s) - 1) = ok cp ->
     match_ (connect4 s) = false \/ players s !! cp <> Some "Human") ->
  Connect4Driver.main_iteration cfg G key rnd s
  = Connect4Driver.main_iteration cfg G None rnd s.
Proof.
  intros Hdrop. unfold Connect4Driver.main_iteration.
  apply bind_after. intros s0 s1 [= <- <-].
  apply bind_after. intros cp s1 Hcp.
  unfold lift in Hcp.
  destruct (list_item _ _) as [e|cp'] eqn:Hitem; [done|].
  injection Hcp as -> <-. specialize (Hdrop cp eq_refl).
  apply bind_after. intros answer s1 Hanswer.
  unfold bind at 1 6.
  rewrite (dropped_after_getSpeedShow cp key answer s s1); [done| |done].
  by left.
Qed.

Lemma main_keys_dropped key rnd (s : State Board) :
  (forall cp,
     PLAYERS (connect4 s) !! current_player (connect4 s) = Some cp ->
     match_ (connect4 s) = false \/ players s !! cp <> Some "Human") ->
  MainDriver.main_iteration cfg G key rnd s
  = MainDriver.main_iteration cfg G None rnd s.
Proof.
  intros Hdrop. unfold MainDriver.main_iteration.
  apply bind_after. intros s0 s1 [= <- <-].
  apply bind_after. intros cp s1 Hcp.
  unfold MainDriver.player_id_of, bind, get in Hcp.
  destruct (PLAYERS (connect4 s) !! current_player (connect4 s)) as [cp'|]
    eqn:Hitem; [|done].
  injection Hcp as -> <-. specialize (Hdrop cp eq_refl).
  apply bind_after. intros answer s1 Hanswer.
  unfold MainDriver.display. unfold bind at 1 5.
  rewrite (dropped_after_getSpeedShow cp key answer s s1); [done| |done].
  by right.
Qed.

(** A human player's move: the column is played as given, and a move
    that ends the match resets the frame count. *)
Lemma human_move cp k speed show rnd (s : State Board) :
  match_ (connect4 s) = true -> players s !! cp = Some "Human" ->
  let after := connect4_main G (connect4 s) k in
  let s' :=
    mkState (players s) (neats s) after.1 (info s) (show_every s)
      (game_speed s) (evolution_speed s) (max_fps s)
      (if match_ after.1 then frame_count s else 1) (disk s)
      (calls s ++ [CallPlay k]) in
  Connect4Driver.match_turn cfg G cp speed show (Some k) rnd s
  = Return after.2 s'
  /\ MainDriver.match_turn cfg G cp speed show (Some k) rnd s = Return tt s'.
Proof.
  intros Hon Ht. cbv zeta.
  assert (Htype : player_type cp s = Return "Human" s).
  { unfold player_type, bind, get. by rewrite Ht. }
  assert (Hhuman : bool_decide ("Human" <> "Human") = false).
  { apply bool_decide_eq_false_2. intros H. by apply H. }
  split.
  - unfold Connect4Driver.match_turn.
    run_step (eq_refl : get s = Return s s). rewrite Hon.
    run_step Htype. rewrite Hhuman.
    rewrite (bind_return _ _ _ _ _ (play_run G k s)).
    unfold bind, get, when, set_frame_count, ret; simpl.
    by destruct (match_ (connect4_main G (connect4 s) k).1).
  - unfold MainDriver.match_turn.
    run_step (eq_refl : get s = Return s s). rewrite Hon. unfold when at 1.
    run_step Htype. rewrite Hhuman.
    rewrite (bind_return _ _ _ _ _ (play_run G k s)).
    unfold bind, get, when, set_frame_count, ret; simpl.
    by destruct (match_ (connect4_main G (connect4 s) k).1).
Qed.

End Keys.

(** X15.  Keys.  A column key counts only while a match is running and
    the player to move is human: in every other case an iteration of
    either main loop runs as if no key had been pressed.  On a human
    player's turn in a running match the key is handed on, and the
    turn plays that column and nothing else: the game is the game after
    the move, the one call made is that move, and the frame count is
    reset to 1 exactly if the move ended the match. *)
Theorem keys_count_on_a_human_turn_only (Board : Type) (cfg : Config)
    (G : Ops Board) (key : option Z) (rnd : nat) (s : State Board) :
  ((forall cp,
      list_item (player_ids (connect4 s)) (current_player (connect4 s) - 1)
      = ok cp ->
      match_ (connect4 s) = false \/ players s !! cp <> Some "Human") ->
   Connect4Driver.main_iteration cfg G key rnd s
   = Connect4Driver.main_iteration cfg G None rnd s)
  /\ ((forall cp,
        PLAYERS (connect4 s) !! current_player (connect4 s) = Some cp ->
        match_ (connect4 s) = false \/ players s !! cp <> Some "Human") ->
      MainDriver.main_iteration cfg G key rnd s
      = MainDriver.main_iteration cfg G None rnd s)
  /\ (forall cp k speed show,
        match_ (connect4 s) = true -> players s !! cp = Some "Human" ->
        let after := connect4_main G (connect4 s) k in
        let s' :=
          mkState (players s) (neats s) after.1 (info s) (show_every s)
            (game_speed s) (evolution_speed s) (max_fps s)
            (if match_ after.1 then frame_count s else 1) (disk s)
            (calls s ++ [CallPlay k]) in
        key_move cp (Some k) s = Return (Some k) s
        /\ Connect4Driver.match_turn cfg G cp speed show (Some k) rnd s
           = Return after.2 s'
        /\ MainDriver.match_turn cfg G cp speed show (Some k) rnd s
           = Return tt s').
Proof.
  split; [apply connect4_keys_dropped|]. split; [apply main_keys_dropped|].
  intros cp k speed show Hon Ht. cbv zeta.
  split; [by apply key_move_taken|]. by apply human_move.
Qed.

Lemma keys_count_on_a_human_turn_only_witness :
  Connect4Driver.main_iteration Example.cfg Example.ops (Some 3) 0 Example.running
  = Connect4Driver.main_iteration Example.cfg Example.ops None 0 Example.running
  /\ key_move 1 (Some 3) Scenes.human_turn = Return (Some 3) Scenes.human_turn.
Proof.
  destruct
    (keys_count_on_a_human_turn_only unit Example.cfg Example.ops (Some 3) 0
       Example.running) as (Hdropped & _ & _).
  destruct
    (keys_count_on_a_human_turn_only unit Example.cfg Example.ops (Some 3) 0
       Scenes.human_turn) as (_ & _ & Htaken).
  split.
  - apply Hdropped. intros cp [= <-]. right. by vm_compute.
  - by destruct (Htaken 1 3 1 true eq_refl eq_refl) as [Hkey _].
Defined.

End KeyFacts.
